(** * lbunzip2: the parallel bzip2 decompression pipeline of lbzip2

    A shallow embedding of [src/lbunzip2.c]: the splitter ([split]), the
    scanner ([work_scan], [work_retrieve], [work_oflush]), the decoding
    driver ([work_decompr]) and the muxer ([mux]), together with the three
    queues that join them.  Machine integers are [Z] with their wrap-around
    written out; fatal errors ([log_fatal]) are a result type; the effects a
    scanner has on the shared queues are an event trace. *)

From Stdlib Require Import String ZArith List Bool Lia Permutation Sorted.
Import ListNotations.
Local Open Scope Z_scope.

(* ================================================================== *)
(** * Part I: definitions *)
(* ================================================================== *)

(** ** Machine integers *)

(** [unsigned] and [uint32_t] are 32 bits wide, [uintmax_t] and [size_t] 64. *)
Definition uint32 (x : Z) : Z := x mod 2 ^ 32.
Definition uintmax (x : Z) : Z := x mod 2 ^ 64.
Definition UINT_MAX : Z := 2 ^ 32 - 1.

Arguments uint32 : simpl never.
Arguments uintmax : simpl never.

Definition byte_val (b : Byte.byte) : Z := Z.of_N (Byte.to_N b).

(** ** Return codes of the inner decoder *)

(** yambi.h is not among the sources; these are the codes lbunzip2.c tells
    apart, every other one being an error it reports with [YBerr_detail]. *)
Inductive ybret : Type :=
| YB_OK
| YB_UNDERFLOW
| YB_DONE
| YB_ERR (code : Z).

(** ** Fatal errors: every [log_fatal] site of the file *)

Inductive fatal : Type :=
| DataErrDecompress (r : ybret)
| DataErrEmit (r : ybret)
| DataErrRetrieve (r : ybret)
| UnterminatedShortFirst
| UnterminatedFullFirst
| MissingHeaderFullSecond
| UnterminatedShortSecond
| MissingHeaderFullFirst
| BlockOverrun
| StreamCrcMismatch
| NotValidBzip2.

(** The message each site prints after the program and file names. *)
Definition fatal_msg (e : fatal) : string :=
  match e with
  | DataErrDecompress _ => "data error while decompressing block"
  | DataErrEmit _ => "data error while emitting block"
  | DataErrRetrieve _ => "data error while retrieving block"
  | UnterminatedShortFirst => "unterminated bzip2 block in short first input block"
  | UnterminatedFullFirst => "unterminated bzip2 block in full first input block"
  | MissingHeaderFullSecond => "missing bzip2 block header in full second input block"
  | UnterminatedShortSecond => "unterminated bzip2 block in short second input block"
  | MissingHeaderFullFirst => "missing bzip2 block header in full first input block"
  | BlockOverrun => "block overrun"
  | StreamCrcMismatch => "stream CRC mismatch"
  | NotValidBzip2 => "not a valid bzip2 file"
  end.

Inductive result (A : Type) : Type :=
| Ok (a : A)
| Fatal (e : fatal).
Arguments Ok {A} a.
Arguments Fatal {A} e.

Definition bind {A B : Type} (r : result A) (k : A -> result B) : result B :=
  match r with
  | Ok a => k a
  | Fatal e => Fatal e
  end.

Notation "x <- r ;; k" := (bind r (fun x => k))
  (at level 61, r at next level, right associativity).

(** ** Constants *)

Definition MX_SPLIT : Z := 1024 * 1024 / 4.
Definition MX_DECOMPR : Z := 1024 * 1024.

(** ** Block identities *)

Record w2w_blk_id : Type := mk_w2w_blk_id {
  s2w_blk_id : Z;        (* stdin block index *)
  bzip2_blk_id : Z;      (* bzip2 block index within stdin block *)
  last_bzip2 : bool      (* last bzip2 for stdin block *)
}.

Record w2m_blk_id : Type := mk_w2m_blk_id {
  w2w_id_of : w2w_blk_id;
  decompr_blk_id : Z;    (* decompressed block for bzip2 block *)
  last_decompr : bool    (* last decompressed for bzip2 block *)
}.

Record w2m_blk_nid : Type := mk_w2m_blk_nid {
  nid_s2w_blk_id : Z;
  nid_bzip2_blk_id : Z;
  nid_decompr_blk_id : Z
}.

Definition w2m_blk_id_eq (id : w2m_blk_id) (nid : w2m_blk_nid) : bool :=
  (s2w_blk_id (w2w_id_of id) =? nid_s2w_blk_id nid)
  && (bzip2_blk_id (w2w_id_of id) =? nid_bzip2_blk_id nid)
  && (decompr_blk_id id =? nid_decompr_blk_id nid).

(** The comparison of [w2w_blk_cmp], on the identities it reads. *)
Definition w2w_blk_id_cmp (a b : w2w_blk_id) : Z :=
  if s2w_blk_id a <? s2w_blk_id b then -1
  else if s2w_blk_id b <? s2w_blk_id a then 1
  else if bzip2_blk_id a <? bzip2_blk_id b then -1
  else if bzip2_blk_id b <? bzip2_blk_id a then 1
  else 0.

(** ** Sub-blocks: workers to muxer *)

Record w2m_blk : Type := mk_w2m_blk {
  w2m_id : w2m_blk_id;
  produced : Z;              (* number of bytes in decompr *)
  w2m_bs100k : Z;            (* new bs100k, 0 if unchanged *)
  bs100k1 : Z;               (* this block's bs100k *)
  w2m_crc : Z;               (* stored stream CRC *)
  crc1 : Z;                  (* computed block CRC *)
  w2m_end_offs : Z;          (* file offset of the end of the block *)
  decompr : list Byte.byte   (* data to write to stdout *)
}.

Definition w2m_blk_cmp (x y : w2m_blk) : Z :=
  let a := w2m_id x in
  let b := w2m_id y in
  if s2w_blk_id (w2w_id_of a) <? s2w_blk_id (w2w_id_of b) then -1
  else if s2w_blk_id (w2w_id_of b) <? s2w_blk_id (w2w_id_of a) then 1
  else if bzip2_blk_id (w2w_id_of a) <? bzip2_blk_id (w2w_id_of b) then -1
  else if bzip2_blk_id (w2w_id_of b) <? bzip2_blk_id (w2w_id_of a) then 1
  else if decompr_blk_id a <? decompr_blk_id b then -1
  else if decompr_blk_id b <? decompr_blk_id a then 1
  else 0.

(** ** Priority queue *)

(** Modelled from the spec: pqueue.h is not among the sources.  The spec
    says the priority queues enforce the total order of their comparison
    function; the queue is a list kept in ascending order, [pqueue_peek]
    reads its minimum and [pqueue_pop] removes it. *)
Fixpoint pqueue_insert {A : Type} (cmp : A -> A -> Z) (q : list A) (x : A)
  : list A :=
  match q with
  | [] => [x]
  | y :: q' => if cmp x y <? 0 then x :: q else y :: pqueue_insert cmp q' x
  end.

Definition pqueue_empty {A : Type} (q : list A) : bool :=
  match q with [] => true | _ :: _ => false end.

Definition pqueue_peek {A : Type} (q : list A) : option A := hd_error q.

Definition pqueue_pop {A : Type} (q : list A) : list A := tl q.

(** ** Workers-to-muxer and muxer-to-splitter queues *)

Record w2m_q : Type := mk_w2m_q {
  needed : w2m_blk_nid;      (* block needed for resuming writing *)
  head : list w2m_blk;       (* block list (unordered), newest first *)
  working : Z;               (* number of workers still running *)
  num_rel : Z;               (* released s2w_blk's to return to splitter *)
  w2m_signals : Z            (* xsignal calls on av_or_ex_or_rel *)
}.

Definition w2m_q_init (num_worker : Z) : w2m_q :=
  {| needed := mk_w2m_blk_nid 0 0 0;
     head := [];
     working := num_worker;
     num_rel := 0;
     w2m_signals := 0 |}.

Record m2s_q : Type := mk_m2s_q {
  num_free : Z;              (* number of free slots *)
  m2s_signals : Z            (* xsignal calls on av *)
}.

Definition m2s_q_init (n : Z) : m2s_q :=
  {| num_free := n; m2s_signals := 0 |}.

(** ** The muxer *)

Section Mux.

(** [ispec->size], read by the progress meter only. *)
Variable ispec_size : Z.

Record mux_st : Type := mk_mux_st {
  reord : list w2m_blk;          (* the reordering priority queue *)
  reord_needed : w2m_blk_nid;
  bs100k : Z;
  crc : Z;
  any : bool;
  finished : bool;
  last_offs : Z;
  written : list Byte.byte;      (* everything passed to xwrite, in order *)
  progr : list Z;                (* the arguments of progress_update, newest first *)
  consumed : list w2m_blk        (* the sub-blocks popped and freed, newest first *)
}.

(** The locals of [mux] before its loop. *)
Definition mux_init : mux_st :=
  {| reord := [];
     reord_needed := mk_w2m_blk_nid 0 0 0;
     bs100k := 0;
     crc := 0;
     any := false;
     finished := false;
     last_offs := 0;
     written := [];
     progr := [];
     consumed := [] |}.

(** [crc = (crc << 1) ^ (crc >> 31) ^ w2m_blk->crc1] on [uint32_t]. *)
Definition crc_fold (c c1 : Z) : Z :=
  Z.lxor (Z.lxor (uint32 (Z.shiftl c 1)) (Z.shiftr c 31)) c1.

(** [if (w2m_blk->id.last_decompr) { ... }]: fold the block CRC, check the
    block size against the stream's. *)
Definition mux_block_end (st : mux_st) (b : w2m_blk) : result mux_st :=
  if last_decompr (w2m_id b) then
    let c := crc_fold (crc st) (crc1 b) in
    if bs100k st <? bs100k1 b then Fatal BlockOverrun
    else Ok (mk_mux_st (reord st) (reord_needed st) (bs100k st) c (any st)
               (finished st) (last_offs st) (written st) (progr st)
               (consumed st))
  else Ok st.

(** [if (w2m_blk->bs100k) { ... }]: a stream ended before the next block. *)
Definition mux_stream_end (st : mux_st) (b : w2m_blk) : result mux_st :=
  if w2m_bs100k b =? 0 then Ok st
  else
    let bs := w2m_bs100k b in
    let any' := any st || (bs <=? 9) in
    if negb (crc st =? w2m_crc b) then Fatal StreamCrcMismatch
    else Ok (mk_mux_st (reord st) (reord_needed st) bs 0 any'
               (9 <? bs) (last_offs st) (written st) (progr st)
               (consumed st)).

(** [if (0u < produced) xwrite(ospec, decompr, produced)]. *)
Definition mux_xwrite (st : mux_st) (b : w2m_blk) : mux_st :=
  if 0 <? produced b then
    mk_mux_st (reord st) (reord_needed st) (bs100k st) (crc st) (any st)
      (finished st) (last_offs st)
      (written st ++ firstn (Z.to_nat (produced b)) (decompr b))
      (progr st) (consumed st)
  else st.

Definition mux_progress (st : mux_st) (b : w2m_blk) : mux_st :=
  if finished st then
    mk_mux_st (reord st) (reord_needed st) (bs100k st) (crc st) (any st)
      (finished st) (last_offs st) (written st)
      (uintmax (uintmax (ispec_size + 3) / 4 - last_offs st) :: progr st)
      (consumed st)
  else if last_decompr (w2m_id b) && (last_offs st <? w2m_end_offs b) then
    mk_mux_st (reord st) (reord_needed st) (bs100k st) (crc st) (any st)
      (finished st) (w2m_end_offs b) (written st)
      (uintmax (w2m_end_offs b - last_offs st) :: progr st)
      (consumed st)
  else st.

(** The body of [if (!finished) { ... }]. *)
Definition mux_emit (st : mux_st) (b : w2m_blk) : result mux_st :=
  if finished st then Ok st
  else
    st1 <- mux_block_end st b ;;
    st2 <- mux_stream_end st1 b ;;
    Ok (mux_progress (mux_xwrite st2 b) b).

(** The update of [reord_needed] after a sub-block was handled. *)
Definition mux_next_needed (n : w2m_blk_nid) (id : w2m_blk_id) : w2m_blk_nid :=
  if last_decompr id then
    if last_bzip2 (w2w_id_of id) then
      mk_w2m_blk_nid (uintmax (nid_s2w_blk_id n + 1)) 0 0
    else
      mk_w2m_blk_nid (nid_s2w_blk_id n) (uintmax (nid_bzip2_blk_id n + 1)) 0
  else
    mk_w2m_blk_nid (nid_s2w_blk_id n) (nid_bzip2_blk_id n)
      (uintmax (nid_decompr_blk_id n + 1)).

(** One turn of [while (!pqueue_empty(&reord))] on a sub-block that is the
    needed one: emit, advance, pop, free. *)
Definition mux_consume (st : mux_st) (b : w2m_blk) : result mux_st :=
  st' <- mux_emit st b ;;
  Ok (mk_mux_st (pqueue_pop (reord st'))
        (mux_next_needed (reord_needed st') (w2m_id b))
        (bs100k st') (crc st') (any st') (finished st') (last_offs st')
        (written st') (progr st') (b :: consumed st')).

(** The inner loop: write out the initial continuous sequence of reordered
    sub-blocks.  [q] is the reordering queue, which each turn pops. *)
Fixpoint mux_drain_from (q : list w2m_blk) (st : mux_st) : result mux_st :=
  match q with
  | [] => Ok st
  | b :: q' =>
      if w2m_blk_id_eq (w2m_id b) (reord_needed st) then
        st' <- mux_consume st b ;;
        mux_drain_from q' st'
      else Ok st
  end.

Definition mux_drain (st : mux_st) : result mux_st :=
  mux_drain_from (reord st) st.

(** Merge the sub-blocks fetched this time into the priority queue. *)
Definition mux_merge (st : mux_st) (fetched : list w2m_blk) : mux_st :=
  mk_mux_st (fold_left (pqueue_insert w2m_blk_cmp) fetched (reord st))
    (reord_needed st) (bs100k st) (crc st) (any st) (finished st)
    (last_offs st) (written st) (progr st) (consumed st).

(** The muxer's wait predicate, as the [for (;;)] at the top of its loop
    tests it. *)
Definition mux_can_proceed (q : w2m_q) : bool :=
  negb (pqueue_empty (head q)) || (working q =? 0) || (0 <? num_rel q).

(** One turn of the outer [do ... while (0u < working)], entered with the
    wait predicate true: detach the list and the credits, refund the
    credits, merge, drain, publish [reord_needed]. *)
Definition mux_turn (st : mux_st) (q : w2m_q) (m : m2s_q)
  : result (mux_st * w2m_q * m2s_q) :=
  let fetched := head q in
  let rel := num_rel q in
  let m' :=
    if 0 <? rel then
      mk_m2s_q (uint32 (num_free m + rel))
        (if num_free m =? 0 then m2s_signals m + 1 else m2s_signals m)
    else m in
  st' <- mux_drain (mux_merge st fetched) ;;
  Ok (st',
      mk_w2m_q (reord_needed st') [] (working q) 0 (w2m_signals q),
      m').

(** After the loop. *)
Definition mux_finish (st : mux_st) : result mux_st :=
  if negb (any st) then Fatal NotValidBzip2
  else if negb (finished st) then
    Ok (mk_mux_st (reord st) (reord_needed st) (bs100k st) (crc st) (any st)
          (finished st) (last_offs st) (written st)
          (uintmax (uintmax (ispec_size + 3) / 4 - last_offs st) :: progr st)
          (consumed st))
  else Ok st.

(** What the muxer finds in the queue each time it wakes up: the list the
    workers pushed since its last turn, the number of live workers and the
    credits released. *)
Record wakeup : Type := mk_wakeup {
  wk_head : list w2m_blk;
  wk_working : Z;
  wk_num_rel : Z
}.

Inductive mux_outcome : Type :=
| MuxEnded (st : mux_st) (q : w2m_q) (m : m2s_q)
| MuxFatal (e : fatal)
| MuxWaiting (st : mux_st) (q : w2m_q) (m : m2s_q).

(** The loop of [mux], driven by the successive contents of the queue at its
    wake-ups.  It ends after the turn that saw [working = 0]; it blocks in
    [xwait] when the wake-ups run out before. *)
Fixpoint mux_loop (ws : list wakeup) (st : mux_st) (q : w2m_q) (m : m2s_q)
  : mux_outcome :=
  match ws with
  | [] => MuxWaiting st q m
  | w :: ws' =>
      let q1 := mk_w2m_q (needed q) (wk_head w) (wk_working w) (wk_num_rel w)
                  (w2m_signals q) in
      if mux_can_proceed q1 then
        match mux_turn st q1 m with
        | Fatal e => MuxFatal e
        | Ok (st', q', m') =>
            if 0 <? wk_working w then mux_loop ws' st' q' m'
            else MuxEnded st' q' m'
        end
      else mux_loop ws' st q m
  end.

(** [mux]: the loop from the initial state, then the check after it. *)
Definition mux (num_worker num_slot : Z) (ws : list wakeup) : mux_outcome :=
  match mux_loop ws mux_init (w2m_q_init num_worker) (m2s_q_init num_slot) with
  | MuxEnded st q m =>
      match mux_finish st with
      | Fatal e => MuxFatal e
      | Ok st' => MuxEnded st' q m
      end
  | o => o
  end.

End Mux.

(** The rotation the muxer's CRC fold is meant to compute: rotate a 32-bit
    word left by [n] bits. *)
Definition rotl32 (x n : Z) : Z :=
  Z.lor (uint32 (Z.shiftl x n)) (Z.shiftr x (32 - n)).

(** ** Input chunks: splitter to workers *)

(** A pointer to a chunk is its index in the heap of chunks allocated so
    far; a null pointer is [None]. *)
Record s2w_blk : Type := mk_s2w_blk {
  s2w_id : Z;                  (* block serial number as read from stdin *)
  s2w_next : option nat;       (* first part of next block belongs to us *)
  refno : Z;                   (* threads not yet done with this block *)
  loaded : Z;                  (* number of 32-bit words in compr *)
  compr : list Byte.byte       (* data read from stdin, the loaded words *)
}.

Definition chunk_heap : Type := list s2w_blk.

Definition set_next (h : chunk_heap) (p : nat) (n : option nat) : chunk_heap :=
  match nth_error h p with
  | Some c =>
      firstn p h
      ++ mk_s2w_blk (s2w_id c) n (refno c) (loaded c) (compr c)
      :: skipn (S p) h
  | None => h
  end.

(** [ntohl(s2w_blk->compr[i])]: the four bytes of word [i] in file order,
    most significant first. *)
Definition compr_word (c : s2w_blk) (i : Z) : Z :=
  let b k := byte_val (nth (Z.to_nat (4 * i + k)) (compr c) Byte.x00) in
  b 0 * 2 ^ 24 + b 1 * 2 ^ 16 + b 2 * 2 ^ 8 + b 3.

(** ** Compressed blocks: worker to workers *)

Section Blocks.

(** [YBdec_t], the inner decoder's state. *)
Context {YBdec_t : Type}.

Record w2w_blk : Type := mk_w2w_blk {
  w2w_id : w2w_blk_id;
  ybdec : option YBdec_t;      (* partly decompressed block, or null *)
  w2w_bs100k : Z;              (* new bs100k, 0 if unchanged *)
  w2w_crc : Z;                 (* stored stream CRC *)
  w2w_end_offs : Z             (* file offset of the end of the block *)
}.

Definition w2w_blk_cmp (a b : w2w_blk) : Z :=
  w2w_blk_id_cmp (w2w_id a) (w2w_id b).

(** ** The splitter-and-workers-to-workers queue *)

Record sw2w_q : Type := mk_sw2w_q {
  next_scan : option nat;      (* scan this stdin block for bzip2 blocks *)
  eof : bool;                  (* splitter done with producing s2w_blk's *)
  deco_q : list w2w_blk;       (* queue of bzip2 streams to decompress *)
  scanning : Z;                (* # of workers currently producing w2w_blk's *)
  broadcasts : Z               (* xbroadcast calls on proceed *)
}.

Definition sw2w_q_init (num_worker : Z) : sw2w_q :=
  {| next_scan := None;
     eof := false;
     deco_q := [];
     scanning := num_worker;
     broadcasts := 0 |}.

(** ** The splitter *)

(** Modelled from the spec: xread lives in main.c, which is not among the
    sources.  The host contract says a read fills up to the requested number
    of bytes and reports how many it got, 0 at end of input; [split] passes
    the room left in [vacant] and finds there the room still left.  Returns
    the bytes stored, the rest of the input and the new [vacant]. *)
Definition xread (input : list Byte.byte) (vacant : Z)
  : list Byte.byte * list Byte.byte * Z :=
  let got := firstn (Z.to_nat vacant) input in
  (got, skipn (Z.to_nat vacant) input, vacant - Z.of_nat (length got)).

(** The locals of [split] that live across turns of its loop. *)
Record split_locals : Type := mk_split_locals {
  sp_input : list Byte.byte;   (* what is left to read from ispec *)
  atch_scan : option nat;
  sp_id : Z;
  sp_vacant : Z
}.

Definition split_begin (input : list Byte.byte) : split_locals :=
  {| sp_input := input; atch_scan := None; sp_id := 0; sp_vacant := 0 |}.

(** What the threads share. *)
Record world : Type := mk_world {
  w_m2s : m2s_q;
  w_sw2w : sw2w_q;
  w_heap : chunk_heap
}.

(** [vacant = 4u * MX_SPLIT; xread(...)], the zero padding of the last word
    and [vacant >>= 2].  Returns the contents of the buffer, the rest of the
    input and [vacant] in words. *)
Definition split_fill (input : list Byte.byte)
  : list Byte.byte * list Byte.byte * Z :=
  let '(got, rest, vacant) := xread input (4 * MX_SPLIT) in
  let pad := Z.land vacant 3 in
  (got ++ repeat Byte.x00 (Z.to_nat pad), rest, Z.shiftr (vacant - pad) 2).

(** The chunk a turn allocates, or null for an empty read. *)
Definition split_alloc (l : split_locals) (buf : list Byte.byte) (vacant : Z)
  : option s2w_blk * Z :=
  if MX_SPLIT =? vacant then (None, sp_id l)
  else
    let id := uintmax (sp_id l + 1) in
    (Some {| s2w_id := id;
             s2w_next := None;
             refno := 1 + (match atch_scan l with Some _ => 1 | None => 0 end);
             loaded := MX_SPLIT - vacant;
             compr := buf |},
     id).

Inductive split_step : Type :=
| SplitBlocked                         (* xwait on m2s_q: no free slot *)
| SplitAgain (l : split_locals) (w : world)
| SplitDone (l : split_locals) (w : world).

(** One turn of the [do ... while (0u == vacant)] of [split], and the
    refund after the loop when the last read was empty. *)
Definition split_turn (l : split_locals) (w : world) : split_step :=
  if num_free (w_m2s w) =? 0 then SplitBlocked
  else
    let m1 := mk_m2s_q (num_free (w_m2s w) - 1) (m2s_signals (w_m2s w)) in
    let '(buf, rest, vacant) := split_fill (sp_input l) in
    let '(chunk, id) := split_alloc l buf vacant in
    (* the chunk is stored at the next free address *)
    let ptr := match chunk with
               | Some _ => Some (length (w_heap w))
               | None => None
               end in
    let h1 := match chunk with
              | Some c => w_heap w ++ [c]
              | None => w_heap w
              end in
    let q := w_sw2w w in
    let q1 :=
      match next_scan q with
      | None =>
          mk_sw2w_q ptr (eof q) (deco_q q) (scanning q)
            (if pqueue_empty (deco_q q) then broadcasts q + 1
             else broadcasts q)
      | Some _ => q
      end in
    let h2 := match atch_scan l with
              | Some a => set_next h1 a ptr
              | None => h1
              end in
    if vacant =? 0 then
      SplitAgain (mk_split_locals rest ptr id vacant) (mk_world m1 q1 h2)
    else
      let q2 := mk_sw2w_q (next_scan q1) true (deco_q q1) (scanning q1)
                  (broadcasts q1) in
      let m2 := if MX_SPLIT =? vacant
                then mk_m2s_q (num_free m1 + 1) (m2s_signals m1)
                else m1 in
      SplitDone (mk_split_locals rest (atch_scan l) id vacant)
        (mk_world m2 q2 h2).

(** [split] with no other thread running in between: it stops when it would
    have to wait for a slot. *)
Fixpoint split_loop (fuel : nat) (l : split_locals) (w : world)
  : option (split_locals * world) :=
  match fuel with
  | O => None
  | S fuel' =>
      match split_turn l w with
      | SplitBlocked => None
      | SplitAgain l' w' => split_loop fuel' l' w'
      | SplitDone l' w' => Some (l', w')
      end
  end.

Definition split (num_worker num_slot : Z) (input : list Byte.byte)
  : option (split_locals * world) :=
  split_loop (S (length input)) (split_begin input)
    (mk_world (m2s_q_init num_slot) (sw2w_q_init num_worker) []).

End Blocks.

Arguments w2w_blk : clear implicits.
Arguments sw2w_q : clear implicits.
Arguments world : clear implicits.
Arguments split_step : clear implicits.

(** ** The inner decoder *)

(** Modelled from the spec: the decoder of yambi is not among the sources.
    Its contract (retrieve, work, emit on an opaque decoder object) is taken
    as an interface.  [YBdec_retrieve d compr ipos loaded ibitbuf ibits_left]
    returns the code, the decoder and the three cursors it updates in place;
    [YBdec_work d] the code, the decoder and [bs100k]; [YBdec_emit d oleft]
    the code, the decoder, the bytes stored in the output buffer, the room
    left in it and the block CRC. *)
Class YBdec (D : Type) : Type := {
  YBdec_init : D;
  YBdec_retrieve :
    D -> list Byte.byte -> Z -> Z -> Z -> Z -> ybret * D * Z * Z * Z;
  YBdec_work : D -> ybret * D * Z;
  YBdec_emit : D -> Z -> ybret * D * list Byte.byte * Z * Z
}.

(** The tables of scantab.h, which is not among the sources: the byte-indexed
    DFA, the bit-indexed DFA and their accepting state (the [ACCEPT] of
    [work_scan]). *)
Class scantab : Type := {
  big_dfa : Z -> Z -> Z;
  mini_dfa : Z -> Z -> Z;
  scan_ACCEPT : Z
}.

(** ** The scanner *)

Inductive outcome : Type :=
| Returned                  (* the function returned *)
| Aborted (e : fatal)       (* log_fatal *)
| OutOfFuel                 (* still running *)
| Undefined.                (* a null decoder passed to the inner decoder *)

(** The states of the machine that reads what follows a block. *)
Inductive magic_state : Type :=
| CRC1 | CRC2 | STREAM_MAGIC_1 | STREAM_MAGIC_2
| BLOCK_MAGIC_1 | BLOCK_MAGIC_2 | BLOCK_MAGIC_3
| EOS_2 | EOS_3 | EOS_CRC_1 | EOS_CRC_2
| ACCEPT.

Definition is_ACCEPT (m : magic_state) : bool :=
  match m with ACCEPT => true | _ => false end.

(** Where [work_retrieve] is in its loops: the retrieve loop on the first
    chunk, the retrieve loop on the second, or the magic machine. *)
Inductive phase : Type :=
| PhFirst
| PhSecond
| PhMagic (m : magic_state).

(** [0u < s2w_blk->id ? (s2w_blk->id - 1u) * MX_SPLIT + ipos : 0u]. *)
Definition end_offs_at (c : s2w_blk) (ipos : Z) : Z :=
  if 0 <? s2w_id c then uintmax ((s2w_id c - 1) * MX_SPLIT + ipos) else 0.

(** [(size_t)((48u + ibits_left + 7u) / 8u) <= 4u * ipos]. *)
Definition tail_fits (ibits_left ipos : Z) : bool :=
  uint32 (48 + ibits_left + 7) / 8 <=? uintmax (4 * ipos).

(** The chunk [work_get_second] returns for [c]: [c->next], read once the
    splitter has linked the successor or hit the end of input.  The scanner
    is run against the chain as the splitter leaves it. *)
Definition work_get_second (h : chunk_heap) (c : s2w_blk) : option s2w_blk :=
  match s2w_next c with
  | Some p => nth_error h p
  | None => None
  end.

Section Scanner.

Context {YBdec_t : Type} {dec : YBdec YBdec_t} {tab : scantab}.

Local Abbreviation w2w_blk := (w2w_blk YBdec_t).
Local Abbreviation sw2w_q := (sw2w_q YBdec_t).

(** Where the scanner stood when it set [end_offs]: the id of the chunk it
    was reading, the word cursor and the bits still buffered. *)
Record cursor : Type := mk_cursor {
  at_chunk : Z;
  at_ipos : Z;
  at_ibits_left : Z
}.

(** What a scanner does to the shared queues, in order. *)
Inductive event : Type :=
| EvFlush (b : w2w_blk) (at_ : cursor)   (* work_oflush *)
| EvRelease (c : s2w_blk)                (* work_release *)
| EvGetSecond (c : s2w_blk).             (* work_get_second, which releases c *)

Definition set_id (b : w2w_blk) (i : w2w_blk_id) : w2w_blk :=
  mk_w2w_blk i (ybdec b) (w2w_bs100k b) (w2w_crc b) (w2w_end_offs b).
Definition set_ybdec (b : w2w_blk) (d : YBdec_t) : w2w_blk :=
  mk_w2w_blk (w2w_id b) (Some d) (w2w_bs100k b) (w2w_crc b) (w2w_end_offs b).
Definition set_bs100k (b : w2w_blk) (x : Z) : w2w_blk :=
  mk_w2w_blk (w2w_id b) (ybdec b) x (w2w_crc b) (w2w_end_offs b).
Definition set_crc (b : w2w_blk) (x : Z) : w2w_blk :=
  mk_w2w_blk (w2w_id b) (ybdec b) (w2w_bs100k b) x (w2w_end_offs b).
Definition set_end_offs (b : w2w_blk) (x : Z) : w2w_blk :=
  mk_w2w_blk (w2w_id b) (ybdec b) (w2w_bs100k b) (w2w_crc b) x.

(** The identity [work_oflush] gives a block, and the next value of the
    caller's [bzip2_blk_id]. *)
Definition work_oflush_id (b : w2w_blk) (s2w_blk_id_ : Z) (bzip2_blk_id_ : Z)
    (last_bzip2_ : bool) : w2w_blk * Z :=
  match ybdec b with
  | Some _ =>
      (set_id b (mk_w2w_blk_id s2w_blk_id_ bzip2_blk_id_ last_bzip2_),
       uintmax (bzip2_blk_id_ + 1))
  | None => (set_id b (mk_w2w_blk_id 0 0 true), bzip2_blk_id_)
  end.

(** [work_oflush]: name the block and push it to the workers. *)
Definition work_oflush (b : w2w_blk) (s2w_blk_id_ : Z) (bzip2_blk_id_ : Z)
    (last_bzip2_ : bool) (q : sw2w_q) : w2w_blk * Z * sw2w_q :=
  let '(b', idx) := work_oflush_id b s2w_blk_id_ bzip2_blk_id_ last_bzip2_ in
  (b', idx,
   mk_sw2w_q (next_scan q) (eof q) (pqueue_insert w2w_blk_cmp (deco_q q) b')
     (scanning q)
     (if pqueue_empty (deco_q q)
         && match next_scan q with None => true | Some _ => false end
      then broadcasts q + 1 else broadcasts q)).

(** [work_release]: drop a reference; the last one frees the chunk ([None])
    and hands a credit to the muxer. *)
Definition work_release (c : s2w_blk) (q : w2m_q) : option s2w_blk * w2m_q :=
  let r := uint32 (refno c - 1) in
  if r =? 0 then
    (None,
     mk_w2m_q (needed q) (head q) (working q) (uint32 (num_rel q + 1))
       (if num_rel q =? 0 then w2m_signals q + 1 else w2m_signals q))
  else
    (Some (mk_s2w_blk (s2w_id c) (s2w_next c) r (loaded c) (compr c)), q).

(** The locals of [work_retrieve]. *)
Record scan_st : Type := mk_scan_st {
  sc_blk : s2w_blk;        (* s2w_blk *)
  ipos : Z;
  ibitbuf : Z;
  ibits_left : Z;
  first : bool;
  sc_bzip2_blk_id : Z;     (* bzip2_blk_id *)
  sc_w2w : w2w_blk         (* w2w_blk *)
}.

(** A block as the scanner sets it up after [xmalloc]: a new decoder, no new
    bs100k, no CRC.  Its identity and end offset are written before it is
    pushed. *)
Definition fresh_w2w : w2w_blk :=
  mk_w2w_blk (mk_w2w_blk_id 0 0 false) (Some YBdec_init) 0 0 0.

Definition cursor_of (s : scan_st) : cursor :=
  mk_cursor (s2w_id (sc_blk s)) (ipos s) (ibits_left s).

(** [w2w_blk->end_offs = ...; work_oflush(&w2w_blk, first_s2w_blk_id,
    &bzip2_blk_id, last, sw2w_q)]. *)
Definition flush (first_s2w_blk_id : Z) (s : scan_st) (last : bool)
  : event * Z :=
  let b := set_end_offs (sc_w2w s) (end_offs_at (sc_blk s) (ipos s)) in
  let '(b', idx) := work_oflush_id b first_s2w_blk_id (sc_bzip2_blk_id s) last in
  (EvFlush b' (cursor_of s), idx).

Definition with_w2w (s : scan_st) (idx : Z) (b : w2w_blk) : scan_st :=
  mk_scan_st (sc_blk s) (ipos s) (ibitbuf s) (ibits_left s) (first s) idx b.

Definition on_second (s : scan_st) (c : s2w_blk) : scan_st :=
  mk_scan_st c 0 (ibitbuf s) (ibits_left s) false (sc_bzip2_blk_id s)
    (sc_w2w s).

(** The [switch (state)] of the magic machine on one 16-bit [word]: the next
    state, the block and [ibits_left], or [None] where the source breaks out
    of the switch to skip garbage. *)
Definition magic_switch (m : magic_state) (word : Z) (b : w2w_blk)
    (ibits_left_ : Z) : option (magic_state * w2w_blk * Z) :=
  match m with
  | CRC1 => Some (CRC2, set_crc b (uint32 (Z.shiftl word 16)), ibits_left_)
  | CRC2 =>
      Some (STREAM_MAGIC_1, set_crc b (Z.lor (w2w_crc b) word),
            Z.land ibits_left_ 24)
  | STREAM_MAGIC_1 =>
      if word =? 16986 (* 0x425A *) then Some (STREAM_MAGIC_2, b, ibits_left_)
      else None
  | STREAM_MAGIC_2 =>
      if (26681 <? word) (* 0x6839 *) || (word <? 26673) (* 0x6831 *) then None
      else Some (BLOCK_MAGIC_1, set_bs100k b (Z.land word 15), ibits_left_)
  | BLOCK_MAGIC_1 =>
      if word =? 6002 (* 0x1772 *) then Some (EOS_2, b, ibits_left_)
      else if word =? 12609 (* 0x3141 *) then Some (BLOCK_MAGIC_2, b, ibits_left_)
      else None
  | BLOCK_MAGIC_2 =>
      if word =? 22822 (* 0x5926 *) then Some (BLOCK_MAGIC_3, b, ibits_left_)
      else None
  | BLOCK_MAGIC_3 =>
      if word =? 21337 (* 0x5359 *) then Some (ACCEPT, b, ibits_left_)
      else None
  | EOS_2 =>
      if word =? 17720 (* 0x4538 *) then Some (EOS_3, b, ibits_left_)
      else None
  | EOS_3 =>
      if word =? 20624 (* 0x5090 *) then Some (EOS_CRC_1, b, ibits_left_)
      else None
  | EOS_CRC_1 =>
      if word =? 0 then Some (EOS_CRC_2, b, ibits_left_) else None
  | EOS_CRC_2 =>
      if word =? 0 then Some (STREAM_MAGIC_1, b, ibits_left_) else None
  | ACCEPT => None (* assert(0): the loop has ended before *)
  end.

(** What the magic machine does when fewer than 16 bits are buffered. *)
Inductive refill : Type :=
| RfReady (s : scan_st) (ibitbuf64 : Z) (evs : list event)
| RfStop (evs : list event) (o : outcome).

(** [ibitbuf64 = (ibitbuf64 << 32) | ntohl(compr[ipos]); ibits_left += 32u;
    ipos++]. *)
Definition load_word (s : scan_st) (evs : list event) : refill :=
  RfReady
    (mk_scan_st (sc_blk s) (uintmax (ipos s + 1)) (ibitbuf s)
       (uint32 (ibits_left s + 32)) (first s) (sc_bzip2_blk_id s) (sc_w2w s))
    (Z.lor (uintmax (Z.shiftl (ibitbuf s) 32)) (compr_word (sc_blk s) (ipos s)))
    evs.

Definition magic_refill (h : chunk_heap) (first_s2w_blk_id : Z) (s : scan_st)
  : refill :=
  if ibits_left s <? 16 then
    if loaded (sc_blk s) =? ipos s then
      let b1 := if w2w_bs100k (sc_w2w s) =? 0
                then set_bs100k (sc_w2w s) UINT_MAX   (* bs100k = -1 *)
                else sc_w2w s in
      let s1 := with_w2w s (sc_bzip2_blk_id s) b1 in
      if negb (first s) then
        if MX_SPLIT =? loaded (sc_blk s) then
          RfStop [] (Aborted MissingHeaderFullSecond)
        else
          (* terminated bzip2 block at end of short second input block *)
          RfStop [EvRelease (sc_blk s); fst (flush first_s2w_blk_id s1 true)]
            Returned
      else
        let b2 := set_end_offs b1 (end_offs_at (sc_blk s) (ipos s)) in
        let last_flush :=
          EvFlush
            (fst (work_oflush_id b2 first_s2w_blk_id (sc_bzip2_blk_id s) true))
            (cursor_of s) in
        if loaded (sc_blk s) <? MX_SPLIT then
          RfStop [EvRelease (sc_blk s); last_flush] Returned
        else
          match work_get_second h (sc_blk s) with
          | None => RfStop [EvGetSecond (sc_blk s); last_flush] Returned
          | Some c' =>
              load_word (on_second (with_w2w s (sc_bzip2_blk_id s) b2) c')
                [EvGetSecond (sc_blk s)]
          end
    else load_word s []
  else RfReady s (ibitbuf s) [].

(** One turn of a loop of [work_retrieve]: it ends the function, or goes
    on from another point. *)
Inductive step : Type :=
| Stop (evs : list event) (o : outcome)
| Next (evs : list event) (ph : phase) (s : scan_st).

(** A turn of the retrieve loop on the first chunk ([first_] true) or on the
    second. *)
Definition retrieve_turn (h : chunk_heap) (first_s2w_blk_id : Z)
    (first_ : bool) (s : scan_st) : step :=
  match ybdec (sc_w2w s) with
  | None => Stop [] Undefined
  | Some d =>
      let '(r, d', ipos', ibitbuf', ibits_left') :=
        YBdec_retrieve d (compr (sc_blk s)) (ipos s) (loaded (sc_blk s))
          (ibitbuf s) (ibits_left s) in
      let s1 := mk_scan_st (sc_blk s) ipos' ibitbuf' ibits_left' (first s)
                  (sc_bzip2_blk_id s) (set_ybdec (sc_w2w s) d') in
      match r with
      | YB_DONE => Next [] (PhMagic CRC1) s1
      | YB_ERR _ => Stop [] (Aborted (DataErrRetrieve r))
      | YB_UNDERFLOW =>
          if first_ then
            if loaded (sc_blk s1) <? MX_SPLIT then
              Stop [] (Aborted UnterminatedShortFirst)
            else
              match work_get_second h (sc_blk s1) with
              | None =>
                  Stop [EvGetSecond (sc_blk s1)] (Aborted UnterminatedFullFirst)
              | Some c' =>
                  Next [EvGetSecond (sc_blk s1)] PhSecond (on_second s1 c')
              end
          else
            Stop [] (Aborted (if MX_SPLIT =? loaded (sc_blk s1)
                              then MissingHeaderFullSecond
                              else UnterminatedShortSecond))
      | YB_OK =>
          if negb first_ && tail_fits (ibits_left s1) (ipos s1) then
            Stop [EvRelease (sc_blk s1); fst (flush first_s2w_blk_id s1 true)]
              Returned
          else
            let '(ev, idx) := flush first_s2w_blk_id s1 false in
            Next [ev] (if first_ then PhFirst else PhSecond)
              (with_w2w s1 idx fresh_w2w)
      end
  end.

(** A turn of the magic machine in state [m]. *)
Definition magic_turn (h : chunk_heap) (first_s2w_blk_id : Z)
    (m : magic_state) (s : scan_st) : step :=
  match magic_refill h first_s2w_blk_id s with
  | RfStop evs o => Stop evs o
  | RfReady s1 ibitbuf64 evs =>
      let bits := uint32 (ibits_left s1 - 16) in
      let word := Z.land (Z.shiftr ibitbuf64 bits) 65535 in
      let buf := uint32 ibitbuf64 in
      match magic_switch m word (sc_w2w s1) bits with
      | None =>
          (* ipos = s2w_blk->loaded: ignore garbage *)
          Next evs (PhMagic m)
            (mk_scan_st (sc_blk s1) (loaded (sc_blk s1)) buf bits (first s1)
               (sc_bzip2_blk_id s1) (sc_w2w s1))
      | Some (m', b', bits') =>
          let s2 := mk_scan_st (sc_blk s1) (ipos s1) buf bits' (first s1)
                      (sc_bzip2_blk_id s1) b' in
          if is_ACCEPT m' then
            if negb (first s2) && tail_fits (ibits_left s2) (ipos s2) then
              Stop (evs ++ [EvRelease (sc_blk s2);
                            fst (flush first_s2w_blk_id s2 true)])
                Returned
            else
              let '(ev, idx) := flush first_s2w_blk_id s2 false in
              Next (evs ++ [ev]) (if first s2 then PhFirst else PhSecond)
                (with_w2w s2 idx fresh_w2w)
          else Next evs (PhMagic m') s2
      end
  end.

Definition work_retrieve_step (h : chunk_heap) (first_s2w_blk_id : Z)
    (ph : phase) (s : scan_st) : step :=
  match ph with
  | PhFirst => retrieve_turn h first_s2w_blk_id true s
  | PhSecond => retrieve_turn h first_s2w_blk_id false s
  | PhMagic m => magic_turn h first_s2w_blk_id m s
  end.

(** [work_retrieve] from any point of its loops.  Each turn of a loop costs
    one unit of fuel; the events come out in the order they happen. *)
Fixpoint work_retrieve_from (h : chunk_heap) (first_s2w_blk_id : Z)
    (fuel : nat) (ph : phase) (s : scan_st) : list event * outcome :=
  match fuel with
  | O => ([], OutOfFuel)
  | S fuel' =>
      match work_retrieve_step h first_s2w_blk_id ph s with
      | Stop evs o => (evs, o)
      | Next evs ph' s' =>
          let r := work_retrieve_from h first_s2w_blk_id fuel' ph' s' in
          (evs ++ fst r, snd r)
      end
  end.

(** [work_retrieve].  For the chunk with id 1 the block starts without a
    decoder and [bs100k] is not written before the magic machine reads it:
    [junk] is what [xmalloc] left there, read as an [unsigned]. *)
Definition work_retrieve (h : chunk_heap) (junk : Z) (fuel : nat)
    (c : s2w_blk) (ipos_ ibitbuf_ ibits_left_ : Z) : list event * outcome :=
  if 1 =? s2w_id c then
    work_retrieve_from h (s2w_id c) fuel (PhMagic STREAM_MAGIC_1)
      (mk_scan_st c ipos_ ibitbuf_ ibits_left_ true 0
         (mk_w2w_blk (mk_w2w_blk_id 0 0 false) None (uint32 junk) 0 0))
  else
    work_retrieve_from h (s2w_id c) fuel PhFirst
      (mk_scan_st c ipos_ ibitbuf_ ibits_left_ true 0 fresh_w2w).

(** The coarse pass of [work_scan]: one word a turn through [big_dfa].
    Returns [backtrack_state], [ibitbuf], [state] and [ipos]. *)
Fixpoint big_scan (n : nat) (c : s2w_blk) (state ipos_ : Z) : Z * Z * Z * Z :=
  let backtrack_state := state in
  let buf := compr_word c ipos_ in
  let state := big_dfa state (Z.shiftr buf 24) in
  let state := big_dfa state (Z.land (Z.shiftr buf 16) 255) in
  let state := big_dfa state (Z.land (Z.shiftr buf 8) 255) in
  let state := big_dfa state (Z.land buf 255) in
  let ipos_ := ipos_ + 1 in
  match n with
  | S n' =>
      if negb (state =? scan_ACCEPT) && (ipos_ <? loaded c)
      then big_scan n' c state ipos_
      else (backtrack_state, buf, state, ipos_)
  | O => (backtrack_state, buf, state, ipos_)
  end.

(** The fine pass: [while (ACCEPT != state && 0u < ibits_left) state =
    mini_dfa[state][ibitbuf >> --ibits_left & 1u]], with [n] for
    [ibits_left].  Returns [state] and [ibits_left]. *)
Fixpoint mini_scan (n : nat) (buf state : Z) : Z * Z :=
  match n with
  | O => (state, 0)
  | S n' =>
      if state =? scan_ACCEPT then (state, Z.of_nat n)
      else mini_scan n' buf
             (mini_dfa state (Z.land (Z.shiftr buf (Z.of_nat n')) 1))
  end.

(** [work_scan]. *)
Definition work_scan (h : chunk_heap) (junk : Z) (fuel : nat) (c : s2w_blk)
  : list event * outcome :=
  if 1 <? s2w_id c then
    let '(backtrack_state, buf, _, ipos_) :=
      big_scan (Z.to_nat (loaded c - 1)) c 0 0 in
    let '(state, bits) := mini_scan 32 buf backtrack_state in
    if negb (state =? scan_ACCEPT) then
      if MX_SPLIT =? loaded c then ([], Aborted MissingHeaderFullFirst)
      else
        (* short first input block without a bzip2 block header *)
        ([EvRelease c], Returned)
    else work_retrieve h junk fuel c ipos_ buf bits
  else work_retrieve h junk fuel c 0 0 0.

(** ** The decoding driver *)

Definition w2m_push (q : w2m_q) (sb : w2m_blk) : w2m_q :=
  mk_w2m_q (needed q) (sb :: head q) (working q) (num_rel q)
    (if (num_rel q =? 0) && w2m_blk_id_eq (w2m_id sb) (needed q)
     then w2m_signals q + 1 else w2m_signals q).

(** The [do ... while (YB_UNDERFLOW == ybret)] of [work_decompr]: the
    sub-blocks pushed, oldest first. *)
Fixpoint work_emit (fuel : nat) (b : w2w_blk) (d : YBdec_t) (bs : Z)
    (decompr_blk_id_ : Z) : list w2m_blk * outcome :=
  match fuel with
  | O => ([], OutOfFuel)
  | S fuel' =>
      let '(r, d', data, oleft, c) := YBdec_emit d MX_DECOMPR in
      let sb last :=
        mk_w2m_blk (mk_w2m_blk_id (w2w_id b) decompr_blk_id_ last)
          (uintmax (MX_DECOMPR - oleft)) (w2w_bs100k b) bs (w2w_crc b) c
          (w2w_end_offs b) data in
      match r with
      | YB_OK => ([sb true], Returned)
      | YB_UNDERFLOW =>
          let rest := work_emit fuel' b d' bs (uintmax (decompr_blk_id_ + 1)) in
          (sb false :: fst rest, snd rest)
      | _ => ([], Aborted (DataErrEmit r))
      end
  end.

(** [work_decompr]: the sub-blocks it pushes to the muxer, oldest first. *)
Definition work_decompr (fuel : nat) (b : w2w_blk) : list w2m_blk * outcome :=
  match ybdec b with
  | None =>
      ([mk_w2m_blk (mk_w2m_blk_id (w2w_id b) 0 true) 0 (w2w_bs100k b) 0 0 0 0
          []],
       Returned)
  | Some d =>
      let '(r, d', bs) := YBdec_work d in
      match r with
      | YB_OK => work_emit fuel b d' bs 0
      | _ => ([], Aborted (DataErrDecompress r))
      end
  end.

(** ** Getting work *)

Inductive get_first : Type :=
| GfDecode (b : w2w_blk) (q : sw2w_q)   (* work_decompr(deco), then loop *)
| GfScan (p : nat) (q : sw2w_q)         (* return next_scan *)
| GfExit (q : sw2w_q)                   (* return 0 *)
| GfWait (q : sw2w_q).                  (* xwait, then loop *)

(** [--sw2w_q->scanning] on entry to [work_get_first]. *)
Definition work_get_first_enter (q : sw2w_q) : sw2w_q :=
  mk_sw2w_q (next_scan q) (eof q) (deco_q q) (uint32 (scanning q - 1))
    (broadcasts q).

(** One turn of the [for (;;)] of [work_get_first]; [loop_] is its [loop]. *)
Definition work_get_first_turn (loop_ : bool) (q : sw2w_q) : get_first :=
  match pqueue_peek (deco_q q) with
  | Some b =>
      GfDecode b
        (mk_sw2w_q (next_scan q) (eof q) (pqueue_pop (deco_q q)) (scanning q)
           (broadcasts q))
  | None =>
      match next_scan q with
      | Some p =>
          GfScan p
            (mk_sw2w_q (next_scan q) (eof q) (deco_q q)
               (uint32 (scanning q + 1)) (broadcasts q))
      | None =>
          if eof q && (scanning q =? 0) then
            GfExit
              (mk_sw2w_q (next_scan q) (eof q) (deco_q q) (scanning q)
                 (if loop_ then broadcasts q else broadcasts q + 1))
          else GfWait q
      end
  end.

(** The end of [work]: notify the muxer when the last worker exits. *)
Definition work_exit (q : w2m_q) : w2m_q :=
  let w := uint32 (working q - 1) in
  mk_w2m_q (needed q) (head q) w (num_rel q)
    (if (w =? 0) && (num_rel q =? 0) && pqueue_empty (head q)
     then w2m_signals q + 1 else w2m_signals q).

End Scanner.

(** ** The pipeline as a whole *)

Section Pipeline.

Context {YBdec_t : Type} {dec : YBdec YBdec_t} {tab : scantab}.

(** The blocks a trace pushed with [work_oflush], oldest first. *)
Fixpoint flushed (evs : list event) : list (w2w_blk YBdec_t) :=
  match evs with
  | [] => []
  | EvFlush b _ :: evs' => b :: flushed evs'
  | _ :: evs' => flushed evs'
  end.

Definition has_decoder (b : w2w_blk YBdec_t) : bool :=
  match ybdec b with Some _ => true | None => false end.

(** Every chunk the splitter publishes is handed to one worker, once
    ([work] takes it off [next_scan] under the lock) and scanned by
    [work_scan].  [fuel_of c] is how many turns the scan of [c] has run. *)
Definition scan_all (h : chunk_heap) (junk : Z) (fuel_of : s2w_blk -> nat)
  : list event :=
  flat_map (fun c => fst (work_scan h junk (fuel_of c) c)) h.

(** A compressed block some scanner has pushed to [deco_q]. *)
Definition published (h : chunk_heap) (junk : Z) (fuel_of : s2w_blk -> nat)
    (b : w2w_blk YBdec_t) : Prop :=
  In b (flushed (scan_all h junk fuel_of)).

(** A sub-block some worker has pushed to the muxer: [work_decompr] made it
    from a published block. *)
Definition pushed (h : chunk_heap) (junk : Z) (fuel_of : s2w_blk -> nat)
    (sb : w2m_blk) : Prop :=
  exists b fuel, published h junk fuel_of b /\ In sb (fst (work_decompr fuel b)).

End Pipeline.

(** The splitter numbers the chunks from 1 in the order it allocates them. *)
Definition chunk_ids (h : chunk_heap) : Prop :=
  forall i c, nth_error h i = Some c -> s2w_id c = Z.of_nat i + 1.

(** ** Positions in the input file *)



(** ** Sample tables and data *)

(** The 48-bit bzip2 block header. *)
Definition magic_hdr : Z := Z.lor (Z.shiftl 12609 32) 1495683929.

(** The first [k] bits of the header, as a number. *)
Definition hdr_prefix (k : Z) : Z := Z.shiftr magic_hdr (48 - k).

(** The longest prefix of the header, of at most [j] bits, that ends the
    bit string [text]. *)
Fixpoint longest_match (j : nat) (text : Z) : Z :=
  match j with
  | O => 0
  | S j' =>
      if Z.land text (Z.ones (Z.of_nat j)) =? hdr_prefix (Z.of_nat j)
      then Z.of_nat j
      else longest_match j' text
  end.

(** Modelled from the spec: scantab.h is not among the sources.  The spec
    calls for a bit-indexed DFA that recognises the 48-bit block header at
    any bit offset and for a byte-indexed DFA that runs it eight bits at a
    time and stays in the accepting state.  A state is the number of header
    bits matched so far; 48 accepts. *)
Definition sample_mini_dfa (state bit : Z) : Z :=
  if 48 <=? state then 48
  else longest_match (Z.to_nat (state + 1)) (hdr_prefix state * 2 + bit).

Definition sample_big_dfa (state byte : Z) : Z :=
  fold_left (fun st i => sample_mini_dfa st (Z.land (Z.shiftr byte i) 1))
    [7; 6; 5; 4; 3; 2; 1; 0] state.

Definition sample_scantab : scantab :=
  {| big_dfa := sample_big_dfa;
     mini_dfa := sample_mini_dfa;
     scan_ACCEPT := 48 |}.

(** A decoder that rejects whatever it is given.  It stands for the inner
    decoder in the sample runs, none of which depends on what it answers. *)
Definition rejecting_decoder : YBdec unit :=
  {| YBdec_init := tt;
     YBdec_retrieve := fun d _ ipos_ _ buf bits => (YB_ERR 0, d, ipos_, buf, bits);
     YBdec_work := fun d => (YB_ERR 0, d, 0);
     YBdec_emit := fun d oleft => (YB_ERR 0, d, [], oleft, 0) |}.

(** A 16-byte file: the stream header "BZh9", the block header and six more
    bytes. *)
Definition sample_file : list Byte.byte :=
  [Byte.x42; Byte.x5a; Byte.x68; Byte.x39;
   Byte.x31; Byte.x41; Byte.x59; Byte.x26;
   Byte.x53; Byte.x59; Byte.x00; Byte.x00;
   Byte.x00; Byte.x00; Byte.x00; Byte.x00].

(** The chunk the splitter makes of it. *)
Definition sample_chunk : s2w_blk :=
  {| s2w_id := 1; s2w_next := None; refno := 1; loaded := 4;
     compr := sample_file |}.

(** A short chunk of zeros that follows a full one. *)
Definition zero_chunk : s2w_blk :=
  {| s2w_id := 2; s2w_next := None; refno := 2; loaded := 2;
     compr := repeat Byte.x00 8 |}.

(** The splitter's locals and the heap after one full chunk was read and
    one byte of input is left.  [compr] is kept empty here: the splitter
    never reads a chunk's data. *)
Definition second_turn_locals : split_locals :=
  {| sp_input := [Byte.x00]; atch_scan := Some 0%nat; sp_id := 1;
     sp_vacant := 0 |}.

Definition second_turn_world : world unit :=
  {| w_m2s := m2s_q_init 1;
     w_sw2w := sw2w_q_init 1;
     w_heap := [ {| s2w_id := 1; s2w_next := None; refno := 1;
                    loaded := MX_SPLIT; compr := [] |} ] |}.

(** The sub-block [work_decompr] makes of a decoderless block that carries
    [bs]. *)
Definition header_sub_block (bs : Z) : w2m_blk :=
  mk_w2m_blk (mk_w2m_blk_id (mk_w2w_blk_id 0 0 true) 0 true) 0 bs 0 0 0 0 [].

(** A sub-block with the identity [(1, 0, 0)]. *)
Definition first_real_sub_block (bs : Z) : w2m_blk :=
  mk_w2m_blk (mk_w2m_blk_id (mk_w2w_blk_id 1 0 false) 0 true) 0 bs 0 0 0 0 [].

(** What a turn of the splitter leaves behind. *)
Definition split_turn_result {D : Type} (s : split_step D)
  : option (split_locals * world D) :=
  match s with
  | SplitBlocked => None
  | SplitAgain l w => Some (l, w)
  | SplitDone l w => Some (l, w)
  end.

(** The flag the specification calls has_successor: the chunk's [next]
    pointer is set. *)
Definition has_successor (c : s2w_blk) : bool :=
  match s2w_next c with Some _ => true | None => false end.

(** The muxer after it has consumed the stream-header sub-block of a
    "BZh9" stream. *)
Definition mux_after_header : mux_st :=
  mk_mux_st [] (mk_w2m_blk_nid 1 0 0) 9 0 true false 0 [] []
    [header_sub_block 9].

(** A one-slice block of that stream: six bytes of text, block CRC
    0x12345678, last block of the file. *)
Definition sample_sub_block : w2m_blk :=
  mk_w2m_blk (mk_w2m_blk_id (mk_w2w_blk_id 1 0 true) 0 true) 6 UINT_MAX 9
    305419896 305419896 4
    [Byte.x68; Byte.x65; Byte.x6c; Byte.x6c; Byte.x6f; Byte.x0a].


(** ** Properties of events *)



(** A flushed block that has a decoder carries the id of the chunk its
    scan began in. *)
Definition real_block {YBdec_t : Type} (fid : Z) (b : w2w_blk YBdec_t)
  : Prop :=
  has_decoder b = true /\ s2w_blk_id (w2w_id b) = fid.

(** The decoderless block as [work_oflush] names it; it carries a new
    bs100k. *)
Definition header_block {YBdec_t : Type} (b : w2w_blk YBdec_t) : Prop :=
  ybdec b = None
  /\ w2w_id b = mk_w2w_blk_id 0 0 true
  /\ 1 <= w2w_bs100k b.

Definition flush_ok {YBdec_t : Type} (P : w2w_blk YBdec_t -> Prop)
    (ev : @event YBdec_t) : Prop :=
  match ev with
  | EvFlush b _ => P b
  | _ => True
  end.

(** The states of the magic machine that follow a stream header. *)
Definition after_stream_magic (m : magic_state) : bool :=
  match m with
  | BLOCK_MAGIC_1 | BLOCK_MAGIC_2 | BLOCK_MAGIC_3 | ACCEPT => true
  | _ => false
  end.

(** The block and the position of the first flush of the sample chunk's
    scan. *)
Definition sample_header_block : w2w_blk unit :=
  mk_w2w_blk (mk_w2w_blk_id 0 0 true) None 9 0 3.


(** The state in which the two DFA passes of [work_scan] end on a chunk. *)
Definition scan_end_state {tab : scantab} (c : s2w_blk) : Z :=
  let '(backtrack_state, buf, _, _) :=
    big_scan (Z.to_nat (loaded c - 1)) c 0 0 in
  fst (mini_scan 32 buf backtrack_state).

(** What holds of the locals while the magic machine runs on the
    decoderless block: no decoder, and a bs100k between 1 and 9 once a
    stream header has been read. *)
Definition headerless {YBdec_t : Type} (m : magic_state)
    (s : @scan_st YBdec_t) : Prop :=
  ybdec (sc_w2w s) = None
  /\ 0 <= w2w_bs100k (sc_w2w s)
  /\ (after_stream_magic m = true -> 1 <= w2w_bs100k (sc_w2w s) <= 9).



(** Every chunk holds at least one word and at most [MX_SPLIT]. *)
Definition chunks_loaded (h : chunk_heap) : Prop :=
  forall c, In c h -> 0 < loaded c <= MX_SPLIT.



(** The locals [work_retrieve] starts with on the chunk with id 1. *)
Definition first_chunk_start {YBdec_t : Type} (junk : Z) (c : s2w_blk)
  : @scan_st YBdec_t :=
  mk_scan_st c 0 0 0 true 0
    (mk_w2w_blk (mk_w2w_blk_id 0 0 false) None (uint32 junk) 0 0).


(** ** What the muxer has seen *)

(** [any] records the sub-blocks consumed so far that carry a new stream's
    bs100k between 1 and 9; before any block is consumed the muxer waits
    for (0, 0, 0); and when the last stream has ended with no valid stream
    seen, the muxer waits for (1, 0, 0), which no scanner has published.
    Everything in the reordering queue was pushed by a worker. *)
Definition mux_inv {YBdec_t : Type} {dec : YBdec YBdec_t} {tab : scantab}
    (h : chunk_heap) (junk : Z) (fuel_of : s2w_blk -> nat) (st : mux_st)
  : Prop :=
  (any st = true
   <-> exists sb, In sb (consumed st) /\ 1 <= w2m_bs100k sb <= 9)
  /\ (any st = false -> finished st = false ->
      reord_needed st = mk_w2m_blk_nid 0 0 0)
  /\ (any st = false -> finished st = true ->
      reord_needed st = mk_w2m_blk_nid 1 0 0
      /\ forall b, published h junk fuel_of b -> s2w_blk_id (w2w_id b) <> 1)
  /\ (forall sb, In sb (reord st) -> pushed h junk fuel_of sb).

(** The wake-ups of a muxer whose workers push nothing and, in the end, are
    all gone. *)
Definition idle_wakeups (ws : list wakeup) : Prop :=
  (forall w, In w ws -> wk_head w = [])
  /\ exists w, In w ws /\ wk_working w = 0.

(** The wake-up of a muxer that finds the stream-header sub-block of a
    "BZh9" file and all workers gone. *)
Definition sample_wakeups : list wakeup :=
  [mk_wakeup [header_sub_block 9] 0 0].

(** ** What the muxer writes, and in which order *)

(** The bytes [xwrite] is given for a sub-block. *)
Definition payload (b : w2m_blk) : list Byte.byte :=
  if 0 <? produced b then firstn (Z.to_nat (produced b)) (decompr b) else [].

(** A sub-block that ends the last stream: it carries a bs100k above 9,
    which is what [finished = (9u < bs100k)] tests. *)
Definition ends_last_stream (b : w2m_blk) : bool := 9 <? w2m_bs100k b.

(** The sub-blocks up to and including the first that ends the last
    stream. *)
Fixpoint until_finished (bs : list w2m_blk) : list w2m_blk :=
  match bs with
  | [] => []
  | b :: bs' => if ends_last_stream b then [b] else b :: until_finished bs'
  end.

(** The triple the muxer waits for after it has consumed [bs], oldest
    first, from the triple [n] on. *)
Definition needed_after (n : w2m_blk_nid) (bs : list w2m_blk) : w2m_blk_nid :=
  fold_left (fun n b => mux_next_needed n (w2m_id b)) bs n.

(** Each of the sub-blocks [bs], oldest first, is the one the triple asks
    for when its turn comes. *)
Fixpoint in_needed_order (n : w2m_blk_nid) (bs : list w2m_blk) : bool :=
  match bs with
  | [] => true
  | b :: bs' =>
      w2m_blk_id_eq (w2m_id b) n
      && in_needed_order (mux_next_needed n (w2m_id b)) bs'
  end.

(** The sum of the arguments of [progress_update]. *)
Definition progress_total (deltas : list Z) : Z := fold_right Z.add 0 deltas.

(** Two wake-ups of the muxer on a one-block "BZh9" file: it finds the
    block's only sub-block pushed before the stream-header sub-block, then
    all workers gone. *)
Definition sample_run : list wakeup :=
  [mk_wakeup [sample_sub_block; header_sub_block 9] 1 0;
   mk_wakeup [] 0 0].

(** The muxer after the last stream of that file has ended. *)
Definition mux_after_stream : mux_st :=
  mk_mux_st [] (mk_w2m_blk_nid 2 0 0) UINT_MAX 0 true true 0
    [Byte.x68; Byte.x65; Byte.x6c; Byte.x6c; Byte.x6f; Byte.x0a] [4]
    [sample_sub_block; header_sub_block 9].

(** A sub-block of garbage that follows it: a wrong CRC, too large a block
    size. *)
Definition garbage_sub_block : w2m_blk :=
  mk_w2m_blk (mk_w2m_blk_id (mk_w2w_blk_id 2 0 true) 0 true) 1 5 10 7 8 9
    [Byte.xff].

(** What the meter has been told so far: the words up to [last_offs], or
    all the words of the file once the last stream has ended. *)
Definition progress_sound (isz : Z) (st : mux_st) : Prop :=
  uintmax (progress_total (progr st))
  = if finished st then uintmax (isz + 3) / 4 else uintmax (last_offs st).


(** ** Orders on identities *)

(** The triple that names a sub-block: what [w2m_blk_id_eq] compares a
    needed triple with. *)
Definition w2m_blk_nid_of (id : w2m_blk_id) : w2m_blk_nid :=
  mk_w2m_blk_nid (s2w_blk_id (w2w_id_of id)) (bzip2_blk_id (w2w_id_of id))
    (decompr_blk_id id).

(** ** What the splitter leaves behind *)

(** The chunk at address [i] of a heap of [n] chunks: it points to the chunk
    allocated after it, if any; it has one reference, and one more when it
    has a predecessor; its buffer holds its loaded words, and all of
    [MX_SPLIT] when another chunk follows. *)
Definition chunk_linked (n i : nat) (c : s2w_blk) : Prop :=
  s2w_next c = (if (S i <? n)%nat then Some (S i) else None)
  /\ refno c = (if (i =? 0)%nat then 1 else 2)
  /\ Z.of_nat (length (compr c)) = 4 * loaded c
  /\ 0 < loaded c <= MX_SPLIT
  /\ ((S i < n)%nat -> loaded c = MX_SPLIT).

Definition heap_linked (h : chunk_heap) : Prop :=
  forall i c, nth_error h i = Some c -> chunk_linked (length h) i c.

(** The bytes of the chunks, in the order of their addresses. *)
Definition heap_bytes (h : chunk_heap) : list Byte.byte :=
  concat (map compr h).

(** The reads [split] makes of an input of [len] bytes: one for every
    chunk it fills, and the one that finds the end of the input. *)
Definition split_reads (len : nat) : Z :=
  (Z.of_nat len + 3) / (4 * MX_SPLIT) + 1.

(** What holds before every turn of the loop of [split] run alone on
    [input]: the chunks so far are full and hold the bytes read so far. *)
Record split_inv {D : Type} (num_worker num_slot : Z) (input : list Byte.byte)
    (l : split_locals) (w : world D) : Prop := mk_split_inv {
  si_linked : heap_linked (w_heap w);
  si_full : forall c, In c (w_heap w) -> loaded c = MX_SPLIT;
  si_data :
    exists pad,
      heap_bytes (w_heap w) ++ sp_input l
      = input ++ repeat Byte.x00 pad
      /\ (pad < 4)%nat
      /\ (pad <> 0%nat -> sp_input l = []);
  si_atch :
    atch_scan l = match length (w_heap w) with
                  | O => None
                  | S n => Some n
                  end;
  si_eof : eof (w_sw2w w) = false;
  si_next_scan :
    next_scan (w_sw2w w) = match w_heap w with
                           | [] => None
                           | _ :: _ => Some 0%nat
                           end;
  si_deco : deco_q (w_sw2w w) = [];
  si_scanning : scanning (w_sw2w w) = num_worker;
  si_free : num_free (w_m2s w) = num_slot - Z.of_nat (length (w_heap w))
}.

(** What holds when [split] returns. *)
Record split_post {D : Type} (num_worker num_slot : Z)
    (input : list Byte.byte) (l : split_locals) (w : world D) : Prop :=
  mk_split_post {
  sp_linked : heap_linked (w_heap w);
  sp_data :
    exists pad,
      heap_bytes (w_heap w) = input ++ repeat Byte.x00 pad /\ (pad < 4)%nat;
  sp_all_read : sp_input l = [];
  sp_eof : eof (w_sw2w w) = true;
  sp_next_scan :
    next_scan (w_sw2w w) = match w_heap w with
                           | [] => None
                           | _ :: _ => Some 0%nat
                           end;
  sp_deco : deco_q (w_sw2w w) = [];
  sp_scanning : scanning (w_sw2w w) = num_worker;
  sp_free : num_free (w_m2s w) = num_slot - Z.of_nat (length (w_heap w))
}.

(** The heap the splitter makes of [h] and a new chunk [c]: the chunk goes
    to the next free address and the last chunk of [h] is made to point to
    it. *)
Definition heap_push (h : chunk_heap) (c : s2w_blk) : chunk_heap :=
  match length h with
  | O => h ++ [c]
  | S a => set_next (h ++ [c]) a (Some (length h))
  end.

(** The heap after the read that found the end of the input: the last
    chunk is made to point nowhere, as it did. *)
Definition heap_close (h : chunk_heap) : chunk_heap :=
  match length h with
  | O => h
  | S a => set_next h a None
  end.


(** ** What a scan publishes, and what it releases *)

(** The identities of the blocks with a decoder a trace pushed, oldest
    first. *)
Definition real_ids {YBdec_t : Type} (evs : list (@event YBdec_t))
  : list w2w_blk_id :=
  map w2w_id (filter has_decoder (flushed evs)).

(** The identities are those of the blocks [k], [k + 1], ... of the chunk
    [fid], and none but the final one is flagged as the last of the
    chunk. *)
Fixpoint numbered_from (fid k : Z) (ids : list w2w_blk_id) : bool :=
  match ids with
  | [] => true
  | i :: ids' =>
      (s2w_blk_id i =? fid) && (bzip2_blk_id i =? k)
      && match ids' with [] => true | _ :: _ => negb (last_bzip2 i) end
      && numbered_from fid (uintmax (k + 1)) ids'
  end.

(** What one call of [work_oflush] does with the block [k] of the chunk
    [fid]: a block with a decoder takes that number and the flag [l], and
    the count goes up; the decoderless block takes the identity
    (0, 0, last) and leaves the count alone. *)
Definition flush_step {YBdec_t : Type} (fid k : Z) (l : bool)
    (ev : @event YBdec_t) (k' : Z) : Prop :=
  exists b p,
    ev = EvFlush b p
    /\ ((has_decoder b = true
         /\ w2w_id b = mk_w2w_blk_id fid k l
         /\ k' = uintmax (k + 1))
        \/ (has_decoder b = false
            /\ w2w_id b = mk_w2w_blk_id 0 0 true
            /\ k' = k)).

(** The chunks a trace dropped a reference of, in order: [work_release],
    called from the scanner or from [work_get_second]. *)
Fixpoint released {YBdec_t : Type} (evs : list (@event YBdec_t))
  : list s2w_blk :=
  match evs with
  | [] => []
  | EvRelease c :: evs' => c :: released evs'
  | EvGetSecond c :: evs' => c :: released evs'
  | EvFlush _ _ :: evs' => released evs'
  end.

(** The loop a scanner is in agrees with its [first] flag. *)
Definition phase_ok {YBdec_t : Type} (ph : phase) (s : @scan_st YBdec_t)
  : Prop :=
  match ph with
  | PhFirst => first s = true
  | PhSecond => first s = false
  | PhMagic _ => True
  end.

(** What a turn of the scanner adds to its trace, as far as flushed blocks
    go: nothing, or one flush at its end. *)
Definition turn_flush {YBdec_t : Type} (fid k : Z) (l : bool)
    (evs : list (@event YBdec_t)) (k' : Z) : Prop :=
  (flushed evs = [] /\ k' = k)
  \/ exists pre ev,
       evs = pre ++ [ev] /\ flushed pre = [] /\ flush_step fid k l ev k'.

(** How a turn that ends the scan ends it: without a flush when it does not
    return, with a flush flagged as the last when it does. *)
Definition stop_flush {YBdec_t : Type} (fid k : Z)
    (evs : list (@event YBdec_t)) (o : outcome) : Prop :=
  (flushed evs = [] /\ o <> Returned)
  \/ (o = Returned
      /\ exists pre ev k',
           evs = pre ++ [ev] /\ flushed pre = []
           /\ flush_step fid k true ev k').

(** The chunks a scan that returns has dropped a reference of, from the
    locals [s] on: the chunk it is in and, while it is in its first chunk,
    the one that follows a full chunk. *)
Definition expected_releases {YBdec_t : Type} (h : chunk_heap)
    (s : @scan_st YBdec_t) : list s2w_blk :=
  if first s then
    sc_blk s
    :: (if loaded (sc_blk s) <? MX_SPLIT then []
        else match work_get_second h (sc_blk s) with
             | Some c' => [c']
             | None => []
             end)
  else [sc_blk s].

(** What a turn of the scanner releases when the scan goes on: nothing, or
    its first chunk on the way to the second. *)
Definition turn_released {YBdec_t : Type} (h : chunk_heap)
    (s : @scan_st YBdec_t) (evs : list (@event YBdec_t))
    (s' : @scan_st YBdec_t) : Prop :=
  (released evs = [] /\ sc_blk s' = sc_blk s /\ first s' = first s)
  \/ (first s = true /\ first s' = false
      /\ (loaded (sc_blk s) <? MX_SPLIT) = false
      /\ work_get_second h (sc_blk s) = Some (sc_blk s')
      /\ released evs = [sc_blk s]).


(** A four-byte input that is no bzip2 file, and the chunk the splitter
    makes of it. *)
Definition zero_file : list Byte.byte := repeat Byte.x00 4.

Definition zero_first_chunk : s2w_blk :=
  {| s2w_id := 1; s2w_next := None; refno := 1; loaded := 1;
     compr := zero_file |}.

(** ** Sub-blocks that carry a stream's end *)

(** The first sub-block of a two-slice block that ends the stream "BZh9"
    began: its stored stream CRC is the block CRC, as it is in a stream of
    one block, and it is not the last sub-block of its block. *)
Definition first_slice_sub_block : w2m_blk :=
  mk_w2m_blk (mk_w2m_blk_id (mk_w2w_blk_id 1 0 true) 0 false) 4 UINT_MAX 9
    305419896 0 4 [Byte.x68; Byte.x65; Byte.x6c; Byte.x6c].

(** ** The magic machine on a run of words *)

(** The [switch] of the magic machine taken on the 16-bit words [ws] one
    after the other, as long as none of them makes it break out. *)
Fixpoint magic_feed {YBdec_t : Type} (m : magic_state) (ws : list Z)
    (b : w2w_blk YBdec_t) (bits : Z)
  : option (magic_state * w2w_blk YBdec_t * Z) :=
  match ws with
  | [] => Some (m, b, bits)
  | w :: ws' =>
      match magic_switch m w b bits with
      | Some (m', b', bits') => magic_feed m' ws' b' bits'
      | None => None
      end
  end.

(** 48 bits as three 16-bit words, most significant first. *)
Definition words48 (x : Z) : list Z :=
  [Z.shiftr x 32; Z.land (Z.shiftr x 16) 65535; Z.land x 65535].

(** The 48-bit end of stream marker. *)
Definition magic_eos : Z := Z.lor (Z.shiftl 6002 32) 1161318544.

(** ** Why a scan dies *)



(** ** A block emitted in slices *)

(** A decoder that emits its block in three slices of two bytes: two calls
    of [YBdec_emit] end with YB_UNDERFLOW, the third with YB_OK and the CRC
    of the block.  Its state counts the calls made. *)
Definition slicing_decoder : YBdec nat :=
  {| YBdec_init := 0%nat;
     YBdec_retrieve :=
       fun d _ ipos_ _ buf bits => (YB_ERR 0, d, ipos_, buf, bits);
     YBdec_work := fun d => (YB_OK, d, 9);
     YBdec_emit :=
       fun d oleft =>
         match d with
         | O => (YB_UNDERFLOW, 1%nat, [Byte.x68; Byte.x65], oleft - 2, 0)
         | S O => (YB_UNDERFLOW, 2%nat, [Byte.x6c; Byte.x6c], oleft - 2, 0)
         | _ => (YB_OK, d, [Byte.x6f; Byte.x0a], oleft - 2, 305419896)
         end |}.

(** The first block of the first chunk, not the last of its stream. *)
Definition sliced_block : w2w_blk nat :=
  mk_w2w_blk (mk_w2w_blk_id 1 0 true) (Some 0%nat) 0 0 4.

(** Its three sub-blocks, as [work_decompr] pushes them. *)
Definition slice (i : Z) (last : bool) (c : Z) (data : list Byte.byte)
  : w2m_blk :=
  mk_w2m_blk (mk_w2m_blk_id (mk_w2w_blk_id 1 0 true) i last) 2 0 9 0 c 4 data.

Definition slices : list w2m_blk :=
  [slice 0 false 0 [Byte.x68; Byte.x65];
   slice 1 false 0 [Byte.x6c; Byte.x6c];
   slice 2 true 305419896 [Byte.x6f; Byte.x0a]].

(** The same three in the order in which the muxer happens to fetch
    them. *)
Definition shuffled_slices : list w2m_blk :=
  [slice 2 true 305419896 [Byte.x6f; Byte.x0a];
   slice 0 false 0 [Byte.x68; Byte.x65];
   slice 1 false 0 [Byte.x6c; Byte.x6c]].

(** ** The CRC of a stream *)

(** The accumulator after the sub-blocks [q], from the value [c] on: the
    CRC of each block is folded in at the block's last sub-block. *)
Definition stream_crc (c : Z) (q : list w2m_blk) : Z :=
  fold_left
    (fun c b => if last_decompr (w2m_id b) then crc_fold c (crc1 b) else c)
    q c.

(** The sub-block of the block that follows [sliced_block] and ends the
    stream: one slice without data, block CRC 1, and as the stored stream
    CRC the two block CRCs combined. *)
Definition closing_sub_block : w2m_blk :=
  mk_w2m_blk (mk_w2m_blk_id (mk_w2w_blk_id 2 0 true) 0 true) 0 UINT_MAX 9
    610839793 1 8 [].
(* ================================================================== *)
(** * Part II: theorems *)
(* ================================================================== *)

(** ** Arithmetic of the muxer *)


Lemma uintmax_small (x : Z) : 0 <= x < 2 ^ 64 -> uintmax x = x.
Proof. intros Hx. unfold uintmax. apply Z.mod_small. exact Hx. Qed.

(** The two halves of the fold share no bit, so xor joins them like or. *)
Lemma crc_halves_disjoint (c : Z) :
  0 <= c < 2 ^ 32 ->
  Z.land (uint32 (Z.shiftl c 1)) (Z.shiftr c 31) = 0.
Proof.
  intros Hc.
  rewrite Z.shiftr_div_pow2 by lia.
  assert (Hq : c / 2 ^ 31 = 0 \/ c / 2 ^ 31 = 1).
  { assert (0 <= c / 2 ^ 31 < 2).
    { split.
      - apply Z.div_pos; lia.
      - apply Z.div_lt_upper_bound. all: lia. }
    lia. }
  destruct Hq as [-> | ->].
  - apply Z.land_0_r.
  - assert (E : uint32 (Z.shiftl c 1) = 2 * (c mod 2 ^ 31)).
    { unfold uint32. rewrite Z.shiftl_mul_pow2 by lia.
      change (2 ^ 32) with (2 * 2 ^ 31). change (2 ^ 1) with 2.
      rewrite (Z.mul_comm c 2). apply Z.mul_mod_distr_l; lia. }
    rewrite E. generalize (c mod 2 ^ 31). intros k.
    change (Z.land (2 * k) 1) with (Z.land (2 * k) (Z.ones 1)).
    rewrite Z.land_ones by lia.
    change (2 ^ 1) with 2. rewrite Z.mul_comm. apply Z.mod_mul. lia.
Qed.

Lemma crc_fold_is_rotl (c c1 : Z) :
  0 <= c < 2 ^ 32 ->
  crc_fold c c1 = Z.lxor (rotl32 c 1) c1.
Proof.
  intros Hc. unfold crc_fold, rotl32. f_equal.
  change (32 - 1) with 31.
  apply Z.lxor_lor, crc_halves_disjoint, Hc.
Qed.

(** ** The muxer's inner loop *)

Section MuxFacts.

Variable isz : Z.

Lemma mux_emit_needed (st st' : mux_st) (b : w2m_blk) :
  mux_emit isz st b = Ok st' -> reord_needed st' = reord_needed st.
Proof.
  unfold mux_emit, mux_block_end, mux_stream_end, mux_progress, mux_xwrite.
  intros H.
  repeat match type of H with
         | context [if ?c then _ else _] => destruct c; cbn in H
         end;
    try discriminate; injection H as <-; reflexivity.
Qed.

Lemma mux_consume_needed (st st' : mux_st) (b : w2m_blk) :
  mux_consume isz st b = Ok st' ->
  reord_needed st' = mux_next_needed (reord_needed st) (w2m_id b)
  /\ consumed st' = b :: consumed st.
Proof.
  unfold mux_consume. intros H.
  destruct (mux_emit isz st b) as [st1 | e] eqn:E; cbn in H; [| discriminate].
  injection H as <-. cbn.
  rewrite (mux_emit_needed _ _ _ E). split; [reflexivity |].
  f_equal.
  revert E. unfold mux_emit, mux_block_end, mux_stream_end, mux_progress,
    mux_xwrite. intros E.
  repeat match type of E with
         | context [if ?c then _ else _] => destruct c; cbn in E
         end;
    try discriminate; injection E as <-; reflexivity.
Qed.

(** What the inner loop consumes is added in front of [consumed], and the
    oldest addition is the block that was needed when the loop began. *)
Lemma mux_drain_from_consumed (q : list w2m_blk) :
  forall st st',
    mux_drain_from isz q st = Ok st' ->
    exists l,
      consumed st' = l ++ consumed st
      /\ (l = []
          \/ exists b l', l = l' ++ [b]
                          /\ w2m_blk_id_eq (w2m_id b) (reord_needed st) = true).
Proof.
  induction q as [| b q IH]; intros st st' H; cbn in H.
  - injection H as <-. exists []. split; [reflexivity | left; reflexivity].
  - destruct (w2m_blk_id_eq (w2m_id b) (reord_needed st)) eqn:E.
    + destruct (mux_consume isz st b) as [st1 | e] eqn:C; cbn in H;
        [| discriminate].
      destruct (mux_consume_needed _ _ _ C) as [_ Hc].
      destruct (IH _ _ H) as [l [Hl _]].
      exists (l ++ [b]). split.
      * rewrite Hl, Hc, <- app_assoc. reflexivity.
      * right. exists b, l. split; [reflexivity | exact E].
    + injection H as <-. exists []. split; [reflexivity | left; reflexivity].
Qed.

End MuxFacts.

(** ** C2: the triple the muxer starts from *)

(** C2, counterexample.  The claim says the triple is initialised to
    (1, 0, 0) and that the first sub-block emitted is (1, 0, 0).  Both
    copies of the triple start at (0, 0, 0), and a muxer that is offered
    the sub-block (1, 0, 0) alone, with all workers gone, emits nothing. *)
Lemma mux_needed_not_one_zero_zero :
  ~ (reord_needed mux_init = mk_w2m_blk_nid 1 0 0
     \/ needed (w2m_q_init 1) = mk_w2m_blk_nid 1 0 0
     \/ exists st q m,
          mux_loop 0 [mk_wakeup [first_real_sub_block 0] 0 0] mux_init
            (w2m_q_init 1) (m2s_q_init 1) = MuxEnded st q m
          /\ consumed st <> []).
Proof.
  intros [H | [H | [st [q [m [H Hc]]]]]].
  - discriminate H.
  - discriminate H.
  - cbn in H. injection H as <- _ _. apply Hc. reflexivity.
Qed.

(** C2, amended.  When the muxer starts, its next-needed triple is
    (0, 0, 0), in its private copy and in the WM queue alike; the first
    sub-block it emits has the identity (0, 0, 0); and once it has consumed
    the sub-block made of the decoderless stream-header block, the triple is
    (1, 0, 0). *)
Theorem mux_starts_at_zero_triple :
  forall (isz num_worker : Z),
    reord_needed mux_init = mk_w2m_blk_nid 0 0 0
    /\ needed (w2m_q_init num_worker) = mk_w2m_blk_nid 0 0 0
    /\ (forall fetched st',
           mux_drain isz (mux_merge mux_init fetched) = Ok st' ->
           consumed st' = []
           \/ exists b l,
                consumed st' = l ++ [b]
                /\ s2w_blk_id (w2w_id_of (w2m_id b)) = 0
                /\ bzip2_blk_id (w2w_id_of (w2m_id b)) = 0
                /\ decompr_blk_id (w2m_id b) = 0)
    /\ (forall bs,
           exists st',
             mux_consume isz mux_init (header_sub_block bs) = Ok st'
             /\ reord_needed st' = mk_w2m_blk_nid 1 0 0).
Proof.
  intros isz num_worker.
  split; [reflexivity |]. split; [reflexivity |]. split.
  - intros fetched st' H. unfold mux_drain in H.
    destruct (mux_drain_from_consumed isz _ _ _ H) as [l [Hl Hcase]].
    cbn in Hl. rewrite app_nil_r in Hl. subst l.
    destruct Hcase as [-> | [b [l' [-> Hb]]]]; [left; reflexivity |].
    right. exists b, l'. split; [reflexivity |].
    cbn in Hb. unfold w2m_blk_id_eq in Hb. cbn in Hb.
    apply andb_prop in Hb as [Hb H3]. apply andb_prop in Hb as [H1 H2].
    apply Z.eqb_eq in H1, H2, H3. auto.
  - intros bs.
    destruct (mux_consume isz mux_init (header_sub_block bs)) as [st' | e]
      eqn:E.
    + exists st'. split; [reflexivity |].
      destruct (mux_consume_needed _ _ _ _ E) as [-> _]. reflexivity.
    + exfalso. revert E.
      unfold mux_consume, mux_emit, mux_block_end, mux_stream_end. cbn.
      destruct (bs =? 0); cbn; discriminate.
Qed.

(** ** C6: how the triple advances *)

(** C6.  After the muxer has emitted the sub-block it needed, the triple
    becomes (chunk + 1, 0, 0) when the sub-block is the last of its block
    and the block the last of its chunk, (chunk, block + 1, 0) when only
    the sub-block is the last of its block, and (chunk, block, sub + 1)
    otherwise, as long as the counters stay below the top of uintmax_t. *)
Theorem mux_advances_needed :
  forall (isz : Z) (st st' : mux_st) (b : w2m_blk),
    w2m_blk_id_eq (w2m_id b) (reord_needed st) = true ->
    mux_consume isz st b = Ok st' ->
    0 <= s2w_blk_id (w2w_id_of (w2m_id b)) < 2 ^ 64 - 1 ->
    0 <= bzip2_blk_id (w2w_id_of (w2m_id b)) < 2 ^ 64 - 1 ->
    0 <= decompr_blk_id (w2m_id b) < 2 ^ 64 - 1 ->
    let chunk := s2w_blk_id (w2w_id_of (w2m_id b)) in
    let block := bzip2_blk_id (w2w_id_of (w2m_id b)) in
    let sub := decompr_blk_id (w2m_id b) in
    reord_needed st' =
      if last_decompr (w2m_id b) && last_bzip2 (w2w_id_of (w2m_id b))
      then mk_w2m_blk_nid (chunk + 1) 0 0
      else if last_decompr (w2m_id b)
           then mk_w2m_blk_nid chunk (block + 1) 0
           else mk_w2m_blk_nid chunk block (sub + 1).
Proof.
  intros isz st st' b Heq Hc H1 H2 H3 chunk block sub.
  destruct (mux_consume_needed _ _ _ _ Hc) as [-> _].
  unfold w2m_blk_id_eq in Heq.
  apply andb_prop in Heq as [Heq E3]. apply andb_prop in Heq as [E1 E2].
  apply Z.eqb_eq in E1, E2, E3.
  unfold mux_next_needed. rewrite <- E1, <- E2, <- E3.
  fold chunk block sub.
  destruct (last_decompr (w2m_id b)), (last_bzip2 (w2w_id_of (w2m_id b)));
    cbn; rewrite uintmax_small by (subst chunk block sub; lia); reflexivity.
Qed.

(** C6, witness: the sub-block (0, 0, 0) of the stream-header block, from
    the muxer's initial state. *)
Lemma mux_advances_needed_witness :
  reord_needed
    (mk_mux_st [] (mk_w2m_blk_nid 1 0 0) 9 0 true false 0 [] []
       [header_sub_block 9])
  = mk_w2m_blk_nid 1 0 0.
Proof.
  exact (mux_advances_needed 0 mux_init _ (header_sub_block 9)
           eq_refl eq_refl
           (conj (Z.le_refl 0) eq_refl) (conj (Z.le_refl 0) eq_refl)
           (conj (Z.le_refl 0) eq_refl)).
Defined.

(** ** C7: the stream CRC and the block size check *)

(** C7.  While the last stream is not finished, consuming a sub-block that
    is the last of its block folds the block CRC into the accumulator as
    rotl(crc, 1) xor block_crc, and the muxer dies of "block overrun"
    exactly when the block's bs100k1 exceeds the stream's bs100k.  The
    folded value is what is then compared with the stored stream CRC when
    the block ends a stream, and what the accumulator keeps otherwise. *)
Theorem mux_folds_block_crc :
  forall (isz : Z) (st : mux_st) (b : w2m_blk),
    finished st = false ->
    last_decompr (w2m_id b) = true ->
    0 <= crc st < 2 ^ 32 ->
    let folded := Z.lxor (rotl32 (crc st) 1) (crc1 b) in
    (mux_consume isz st b = Fatal BlockOverrun <-> bs100k st < bs100k1 b)
    /\ fatal_msg BlockOverrun = "block overrun"%string
    /\ (bs100k1 b <= bs100k st ->
        exists st1, mux_block_end st b = Ok st1 /\ crc st1 = folded)
    /\ (bs100k1 b <= bs100k st -> w2m_bs100k b = 0 ->
        exists st', mux_consume isz st b = Ok st' /\ crc st' = folded)
    /\ (bs100k1 b <= bs100k st -> w2m_bs100k b <> 0 ->
        (mux_consume isz st b = Fatal StreamCrcMismatch
         <-> folded <> w2m_crc b)).
Proof.
  intros isz st b Hfin Hlast Hcrc folded.
  assert (Hfold : crc_fold (crc st) (crc1 b) = folded)
    by (apply crc_fold_is_rotl; exact Hcrc).
  unfold mux_consume, mux_emit, mux_block_end. rewrite Hfin, Hlast, Hfold.
  destruct (Z.ltb_spec (bs100k st) (bs100k1 b)) as [Hlt | Hge].
  - cbn. repeat split; try lia; intros; try reflexivity; try lia.
  - unfold mux_stream_end. cbn.
    destruct (Z.eqb_spec (w2m_bs100k b) 0) as [Ez | Ez];
      [| destruct (Z.eqb_spec folded (w2m_crc b)) as [Ec | Ec]]; cbn.
    + split; [split; [discriminate | lia] |].
      split; [reflexivity |].
      split; [intros _; eexists; split; reflexivity |].
      split; [| intros _ Hnz; contradiction].
      intros _ _. eexists. split; [reflexivity |].
      unfold mux_progress, mux_xwrite.
      destruct (0 <? produced b); cbn; rewrite ?Hfin, ?Hlast; cbn;
        destruct (last_offs st <? w2m_end_offs b); reflexivity.
    + split; [split; [discriminate | lia] |].
      split; [reflexivity |].
      split; [intros _; eexists; split; reflexivity |].
      split; [intros _ Hz; contradiction |].
      intros _ _. split; [discriminate | intros H; contradiction].
    + split; [split; [discriminate | lia] |].
      split; [reflexivity |].
      split; [intros _; eexists; split; reflexivity |].
      split; [intros _ Hz; contradiction |].
      intros _ _. split; [intros _; exact Ec | reflexivity].
Qed.

(** C7, witness: the last block of a "BZh9" stream, whose stored stream CRC
    is the fold of its own. *)
Lemma mux_folds_block_crc_witness :
  mux_consume 16 mux_after_header sample_sub_block <> Fatal BlockOverrun
  /\ mux_consume 16 mux_after_header sample_sub_block
     <> Fatal StreamCrcMismatch.
Proof.
  pose proof (mux_folds_block_crc 16 mux_after_header sample_sub_block
                eq_refl eq_refl (conj (Z.le_refl 0) eq_refl)) as H.
  destruct H as [H1 [_ [_ [_ H2]]]]. split.
  - intros E. apply H1 in E. cbn in E. lia.
  - intros E. apply H2 in E.
    + apply E. vm_compute. reflexivity.
    + cbn. lia.
    + vm_compute. discriminate.
Defined.

(** ** The splitter *)

Lemma MX_SPLIT_value : MX_SPLIT = 262144.
Proof. reflexivity. Qed.

Lemma xread_spec (input : list Byte.byte) (v : Z) :
  0 <= v ->
  forall got rest v',
    xread input v = (got, rest, v') ->
    input = got ++ rest
    /\ Z.of_nat (length got) <= v
    /\ v' = v - Z.of_nat (length got).
Proof.
  intros Hv got rest v' H. unfold xread in H. injection H as <- <- <-.
  split; [symmetry; apply firstn_skipn |].
  split; [| reflexivity].
  pose proof (firstn_le_length (Z.to_nat v) input). lia.
Qed.

(** What one read leaves: the bytes taken off the input, the buffer they
    were padded into and the words still vacant. *)
Lemma split_fill_spec (input : list Byte.byte) :
  forall buf rest vacant,
    split_fill input = (buf, rest, vacant) ->
    exists got,
      input = got ++ rest
      /\ Z.of_nat (length got) <= 4 * MX_SPLIT
      /\ firstn (length got) buf = got
      /\ 0 <= vacant <= MX_SPLIT
      /\ Z.of_nat (length buf) = 4 * (MX_SPLIT - vacant)
      /\ (vacant = MX_SPLIT <-> got = [])
      /\ (vacant = 0 <-> 4 * MX_SPLIT - 4 < Z.of_nat (length got)).
Proof.
  intros buf rest vacant H. unfold split_fill in H.
  destruct (xread input (4 * MX_SPLIT)) as [[got rest0] v0] eqn:Ex.
  injection H as <- <- <-.
  apply xread_spec in Ex; [| rewrite MX_SPLIT_value; lia].
  destruct Ex as [Hin [Hlen Hv0]].
  exists got.
  assert (Hland : Z.land v0 3 = v0 mod 4).
  { change 3 with (Z.ones 2). apply Z.land_ones. lia. }
  rewrite Hland.
  assert (Hshift : Z.shiftr (v0 - v0 mod 4) 2 = v0 / 4).
  { rewrite Z.shiftr_div_pow2 by lia. change (2 ^ 2) with 4.
    rewrite (Z.div_mod v0 4) at 1 by lia.
    replace (4 * (v0 / 4) + v0 mod 4 - v0 mod 4) with (v0 / 4 * 4) by lia.
    apply Z.div_mul. lia. }
  rewrite Hshift.
  pose proof (Z.div_mod v0 4 ltac:(lia)) as Hdm.
  pose proof (Z.mod_pos_bound v0 4 ltac:(lia)) as Hmb.
  pose proof (Nat2Z.is_nonneg (length got)) as Hnn.
  rewrite MX_SPLIT_value in *.
  split; [exact Hin |].
  split; [exact Hlen |].
  split; [rewrite firstn_app, Nat.sub_diag, firstn_all, firstn_O;
          apply app_nil_r |].
  split; [lia |].
  split; [rewrite length_app, repeat_length; lia |].
  split.
  - split; intros H.
    + destruct got as [| x got']; [reflexivity |].
      cbn [length] in *. lia.
    + subst got. cbn [length] in *. lia.
  - lia.
Qed.

Lemma nth_error_set_next (h : chunk_heap) (a i : nat) (n : option nat)
    (c : s2w_blk) :
  nth_error (set_next h a n) i = Some c ->
  exists c0,
    nth_error h i = Some c0
    /\ s2w_id c = s2w_id c0 /\ refno c = refno c0
    /\ loaded c = loaded c0 /\ compr c = compr c0
    /\ s2w_next c = (if Nat.eqb i a then n else s2w_next c0).
Proof.
  unfold set_next. destruct (nth_error h a) as [ca |] eqn:Ea.
  - pose proof (firstn_skipn_middle a h Ea) as Hmid.
    assert (Hla : (a < length h)%nat)
      by (apply nth_error_Some; rewrite Ea; discriminate).
    assert (Hfl : length (firstn a h) = a)
      by (apply firstn_length_le; lia).
    intros H.
    destruct (Nat.eqb_spec i a) as [-> | Hne].
    + rewrite nth_error_app2 in H by lia.
      rewrite Hfl, Nat.sub_diag in H. cbn in H. injection H as <-.
      exists ca. cbn. repeat split; assumption || reflexivity.
    + exists c. split; [| repeat split; reflexivity].
      rewrite <- Hmid.
      destruct (Nat.ltb_spec i a) as [Hlt | Hge].
      * rewrite nth_error_app1 in H |- * by lia. exact H.
      * rewrite nth_error_app2 in H |- * by lia.
        rewrite Hfl in *.
        destruct (i - a)%nat as [| k] eqn:Ek; [lia |]. exact H.
  - intros H. exists c. rewrite H.
    destruct (Nat.eqb_spec i a) as [-> | _];
      [congruence | repeat split; reflexivity].
Qed.

Lemma length_set_next (h : chunk_heap) (a : nat) (n : option nat) :
  length (set_next h a n) = length h.
Proof.
  unfold set_next. destruct (nth_error h a) as [ca |] eqn:Ea;
    [| reflexivity].
  pose proof (firstn_skipn_middle a h Ea) as Hmid.
  apply (f_equal (@length _)) in Hmid.
  rewrite length_app in Hmid |- *. cbn [length] in *. exact Hmid.
Qed.


(** A turn that is not blocked reads once, allocates at most one chunk at
    the next free address and links it behind [atch_scan]. *)
Lemma split_turn_inv {D : Type} (l : split_locals) (w : world D) :
  forall l' w',
    split_turn_result (split_turn l w) = Some (l', w') ->
    exists buf vacant,
      split_fill (sp_input l) = (buf, sp_input l', vacant)
      /\ sp_vacant l' = vacant
      /\ let chunk := fst (split_alloc l buf vacant) in
         let ptr := match chunk with
                    | Some _ => Some (length (w_heap w))
                    | None => None
                    end in
         let h1 := match chunk with
                   | Some c => w_heap w ++ [c]
                   | None => w_heap w
                   end in
         w_heap w' = match atch_scan l with
                     | Some a => set_next h1 a ptr
                     | None => h1
                     end
         /\ (next_scan (w_sw2w w) = None -> next_scan (w_sw2w w') = ptr)
         /\ (vacant = 0 -> atch_scan l' = ptr).
Proof.
  intros l' w' H. unfold split_turn in H.
  destruct (num_free (w_m2s w) =? 0); [discriminate |].
  destruct (split_fill (sp_input l)) as [[buf rest] vacant] eqn:Ef.
  destruct (split_alloc l buf vacant) as [chunk id] eqn:Ea.
  exists buf, vacant. rewrite Ea. cbn [fst].
  destruct (Z.eqb_spec vacant 0) as [Hz | Hz]; cbn in H;
    injection H as <- <-; cbn.
  - repeat split; try reflexivity.
    intros Hn. rewrite Hn. reflexivity.
  - repeat split; try reflexivity.
    + intros Hn. rewrite Hn. reflexivity.
    + intros Hv. contradiction.
Qed.


(** ** C3: the size of a chunk *)

(** C3, counterexample.  The claim gives the buffer 1,048,576 words and
    the read 4,194,304 bytes; the buffer has a quarter of that. *)
Lemma chunk_is_not_four_mebibytes :
  ~ (MX_SPLIT = 1048576 /\ 4 * MX_SPLIT = 4194304).
Proof. intros [H _]. discriminate H. Qed.

(** C3, amended.  Every InputChunk has a fixed buffer of MX_SPLIT = 262,144
    32-bit words (1 MiB), and on each turn the splitter reads up to
    4 * MX_SPLIT = 1,048,576 bytes from the input into that buffer: the
    bytes it takes off the input are the front of the chunk's data, which
    is padded with zeros to whole words, [loaded] of them. *)
Theorem split_reads_one_mebibyte :
  forall (D : Type) (l l' : split_locals) (w w' : world D),
    split_turn_result (split_turn l w) = Some (l', w') ->
    MX_SPLIT = 262144
    /\ 4 * MX_SPLIT = 1048576
    /\ exists got,
         sp_input l = got ++ sp_input l'
         /\ Z.of_nat (length got) <= 4 * MX_SPLIT
         /\ forall c,
              nth_error (w_heap w') (length (w_heap w)) = Some c ->
              0 < loaded c <= MX_SPLIT
              /\ Z.of_nat (length (compr c)) = 4 * loaded c
              /\ firstn (length got) (compr c) = got.
Proof.
  intros D l l' w w' H.
  split; [reflexivity |]. split; [reflexivity |].
  destruct (split_turn_inv l w l' w' H) as [buf [vacant [Hf [_ [Hh _]]]]].
  destruct (split_fill_spec _ _ _ _ Hf) as [got [Hin [Hlen [Hfst [Hv [Hb [He _]]]]]]].
  exists got. split; [exact Hin |]. split; [exact Hlen |].
  intros c Hc.
  assert (Hnew : exists c0,
             nth_error (match fst (split_alloc l buf vacant) with
                        | Some c1 => w_heap w ++ [c1]
                        | None => w_heap w
                        end) (length (w_heap w)) = Some c0
             /\ loaded c = loaded c0 /\ compr c = compr c0).
  { rewrite Hh in Hc. destruct (atch_scan l) as [a |].
    - apply nth_error_set_next in Hc.
      destruct Hc as [c0 [Hc0 [_ [_ [Hl [Hcm _]]]]]]. eauto.
    - eauto. }
  destruct Hnew as [c0 [Hc0 [-> ->]]].
  clear H Hf Hh Hc Hin He.
  unfold split_alloc in Hc0.
  destruct (Z.eqb_spec MX_SPLIT vacant) as [Hm | Hm]; cbn [fst] in Hc0.
  - assert (nth_error (w_heap w) (length (w_heap w)) = None)
      by (apply nth_error_None; apply Nat.le_refl).
    congruence.
  - rewrite nth_error_app2 in Hc0 by apply Nat.le_refl.
    rewrite Nat.sub_diag in Hc0.
    cbn [nth_error] in Hc0.
    assert (Hc1 : c0 = {|
             s2w_id := uintmax (sp_id l + 1);
             s2w_next := None;
             refno := 1 + match atch_scan l with
                          | Some _ => 1
                          | None => 0
                          end;
             loaded := MX_SPLIT - vacant;
             compr := buf
           |}) by congruence.
    rewrite Hc1. cbn [loaded compr].
    split; [lia |]. (split; [lia | exact Hfst]).
Qed.

(** C3, witness: the first turn of the splitter on the 16-byte sample. *)
Lemma split_reads_one_mebibyte_witness :
  MX_SPLIT = 262144 /\ 4 * MX_SPLIT = 1048576.
Proof.
  destruct (split_turn (YBdec_t := unit) (split_begin sample_file)
              (mk_world (m2s_q_init 1) (sw2w_q_init 1) [])) as [| l' w' | l' w']
    eqn:E.
  - vm_compute in E. discriminate E.
  - vm_compute in E. discriminate E.
  - destruct (split_reads_one_mebibyte unit (split_begin sample_file) l'
                (mk_world (m2s_q_init 1) (sw2w_q_init 1) []) w')
      as [H1 [H2 _]].
    + rewrite E. reflexivity.
    + exact (conj H1 H2).
Defined.

(** ** C5: the reference count of a chunk at publish time *)

(** C5, counterexample.  When the splitter publishes the second chunk of a
    file, the chunk has no successor yet (its [next] is null) and its
    reference count is 2, not 1 + 0. *)
Lemma split_refno_not_by_successor :
  ~ (forall w' c,
       split_turn_result (split_turn second_turn_locals second_turn_world)
         = Some w' ->
       nth_error (w_heap (snd w')) 1 = Some c ->
       refno c = 1 + (if has_successor c then 1 else 0)).
Proof.
  intros H.
  specialize (H _ _ eq_refl eq_refl). vm_compute in H. discriminate H.
Qed.

(** C5, amended.  At the moment the splitter publishes an InputChunk, the
    chunk's refcount equals 1 + (has_predecessor ? 1 : 0): one reference for
    the scan chain, plus one more exactly when a previous chunk exists
    ([atch_scan] is not null), whose [next] pointer the splitter sets to the
    new chunk in the same turn.  The new chunk itself has no successor yet,
    and every chunk published after a full one has a predecessor. *)
Theorem split_refno_at_publish :
  forall (D : Type) (l l' : split_locals) (w w' : world D) (c : s2w_blk),
    split_turn_result (split_turn l w) = Some (l', w') ->
    (forall a, atch_scan l = Some a -> (a < length (w_heap w))%nat) ->
    nth_error (w_heap w') (length (w_heap w)) = Some c ->
    refno c = 1 + (match atch_scan l with Some _ => 1 | None => 0 end)
    /\ has_successor c = false
    /\ (forall a, atch_scan l = Some a ->
          exists p, nth_error (w_heap w') a = Some p
                    /\ s2w_next p = Some (length (w_heap w)))
    /\ (next_scan (w_sw2w w) = None ->
          next_scan (w_sw2w w') = Some (length (w_heap w)))
    /\ (sp_vacant l' = 0 -> atch_scan l' = Some (length (w_heap w))).
Proof.
  intros D l l' w w' c H Hat Hc.
  destruct (split_turn_inv l w l' w' H)
    as [buf [vacant [_ [Hvac [Hh [Hns Hnext]]]]]].
  unfold split_alloc in Hh, Hns, Hnext.
  destruct (Z.eqb_spec MX_SPLIT vacant) as [Hm | Hm]; cbn [fst] in *.
  - (* an empty read publishes nothing *)
    exfalso.
    assert (Hlen : length (w_heap w') = length (w_heap w)).
    { rewrite Hh. destruct (atch_scan l); [apply length_set_next |
                                           reflexivity]. }
    assert (Hnone : nth_error (w_heap w') (length (w_heap w)) = None)
      by (apply nth_error_None; rewrite Hlen; apply Nat.le_refl).
    congruence.
  - set (c1 := {| s2w_id := uintmax (sp_id l + 1);
                  s2w_next := None;
                  refno := 1 + match atch_scan l with
                               | Some _ => 1
                               | None => 0
                               end;
                  loaded := MX_SPLIT - vacant;
                  compr := buf |}) in *.
    assert (Hlast : nth_error (w_heap w ++ [c1]) (length (w_heap w))
                    = Some c1).
    { rewrite nth_error_app2 by apply Nat.le_refl.
      rewrite Nat.sub_diag. reflexivity. }
    destruct (atch_scan l) as [a |] eqn:Ea.
    + specialize (Hat a eq_refl).
      rewrite Hh in Hc. apply nth_error_set_next in Hc.
      destruct Hc as [c0 [Hc0 [_ [Hr [_ [_ Hn]]]]]].
      rewrite Hlast in Hc0. injection Hc0 as <-.
      destruct (Nat.eqb_spec (length (w_heap w)) a) as [E | _]; [lia |].
      split; [exact Hr |].
      split; [unfold has_successor; rewrite Hn; reflexivity |].
      split.
      * intros a' Ha'. injection Ha' as <-.
        destruct (nth_error (w_heap w) a) as [p |] eqn:Ep.
        -- rewrite Hh. unfold set_next.
           rewrite nth_error_app1 by exact Hat. rewrite Ep.
           eexists. split.
           ++ rewrite nth_error_app2
                by (rewrite firstn_length_le
                      by (rewrite length_app; cbn; lia); apply Nat.le_refl).
              rewrite firstn_length_le by (rewrite length_app; cbn; lia).
              rewrite Nat.sub_diag. reflexivity.
           ++ reflexivity.
        -- apply nth_error_None in Ep. lia.
      * split; [exact Hns |].
        intros Hv. apply Hnext. rewrite <- Hvac. exact Hv.
    + rewrite Hh, Hlast in Hc. injection Hc as <-.
      split; [reflexivity |]. split; [reflexivity |].
      split; [intros a Ha; discriminate Ha |].
      split; [exact Hns |].
      intros Hv. apply Hnext. rewrite <- Hvac. exact Hv.
Qed.

(** C5, witness: the second chunk of a file, published behind the first. *)
Lemma split_refno_at_publish_witness :
  exists c,
    nth_error
      (w_heap (snd (match split_turn second_turn_locals second_turn_world with
                    | SplitDone l' w' => (l', w')
                    | _ => (second_turn_locals, second_turn_world)
                    end))) 1 = Some c
    /\ refno c = 2.
Proof.
  destruct (split_turn second_turn_locals second_turn_world)
    as [| l' w' | l' w'] eqn:E;
    [vm_compute in E; discriminate E | vm_compute in E; discriminate E |].
  cbn [snd].
  destruct (nth_error (w_heap w') 1) as [c |] eqn:Ec.
  - exists c. split; [reflexivity |].
    destruct (split_refno_at_publish unit second_turn_locals l'
                second_turn_world w' c) as [Hr _].
    + rewrite E. reflexivity.
    + intros a Ha. injection Ha as <-. cbn. lia.
    + exact Ec.
    + exact Hr.
  - exfalso. vm_compute in E. injection E as _ <-. discriminate Ec.
Defined.

(** ** The scanner: what its events look like *)

Section ScannerFacts.

Context {YBdec_t : Type} {dec : YBdec YBdec_t} {tab : scantab}.

Local Abbreviation scan_st := (@scan_st YBdec_t).
Local Abbreviation event := (@event YBdec_t).
Local Abbreviation w2w_blk := (w2w_blk YBdec_t).

Variable h : chunk_heap.
Variable fid : Z.

Lemma flushed_app (evs1 evs2 : list event) :
  flushed (evs1 ++ evs2) = flushed evs1 ++ flushed evs2.
Proof.
  induction evs1 as [| ev evs1 IH]; [reflexivity |].
  destruct ev; cbn; rewrite IH; reflexivity.
Qed.

(** A property of every event of a run follows from the same property of
    every turn, along an invariant of the locals. *)
Lemma work_retrieve_from_events
    (E : event -> Prop) (I : phase -> scan_st -> Prop) :
  (forall ph s,
      I ph s ->
      match work_retrieve_step h fid ph s with
      | Stop evs _ => Forall E evs
      | Next evs ph' s' => Forall E evs /\ I ph' s'
      end) ->
  forall fuel ph s,
    I ph s -> Forall E (fst (work_retrieve_from h fid fuel ph s)).
Proof.
  intros Hstep. induction fuel as [| fuel IH]; intros ph s HI; cbn.
  - constructor.
  - specialize (Hstep ph s HI).
    destruct (work_retrieve_step h fid ph s) as [evs o | evs ph' s'].
    + exact Hstep.
    + destruct Hstep as [Hevs HI']. cbn.
      apply Forall_app. split; [exact Hevs | apply IH; exact HI'].
Qed.

(** *** The end offset of a flushed block *)






End ScannerFacts.


(** ** C4: the end offset of a published block *)

Section EndOffs.

Context {YBdec_t : Type} {dec : YBdec YBdec_t} {tab : scantab}.


End EndOffs.




(** ** C9: a chunk without a block header *)

(** C9.  When the two DFA passes of [work_scan] over a chunk with id > 1
    end without a match: a full chunk is the fatal error "missing bzip2
    block header in full first input block"; any other chunk is released
    and the scan returns without publishing a block. *)
Theorem work_scan_without_header :
  forall (D : Type) (dec : YBdec D) (tab : scantab) (h : chunk_heap)
         (junk : Z) (fuel : nat) (c : s2w_blk),
    1 < s2w_id c ->
    scan_end_state c <> scan_ACCEPT ->
    (loaded c = MX_SPLIT ->
     work_scan h junk fuel c = ([], Aborted MissingHeaderFullFirst)
     /\ fatal_msg MissingHeaderFullFirst
        = "missing bzip2 block header in full first input block"%string)
    /\ (loaded c <> MX_SPLIT ->
        work_scan h junk fuel c = ([EvRelease c], Returned)
        /\ flushed (fst (work_scan h junk fuel c)) = []).
Proof.
  intros D dec tab h junk fuel c Hid Hno.
  unfold work_scan. unfold scan_end_state in Hno.
  assert (Hlt : (1 <? s2w_id c) = true) by (apply Z.ltb_lt; exact Hid).
  rewrite Hlt.
  destruct (big_scan (Z.to_nat (loaded c - 1)) c 0 0) as [[[bt buf] st] ip].
  destruct (mini_scan 32 buf bt) as [st' bits]. cbn [fst] in Hno.
  assert (Hne : negb (st' =? scan_ACCEPT) = true)
    by (apply negb_true_iff, Z.eqb_neq; exact Hno).
  rewrite Hne. split.
  - intros Hfull. rewrite Hfull, Z.eqb_refl. split; reflexivity.
  - intros Hshort.
    assert (Hs : (MX_SPLIT =? loaded c) = false)
      by (apply Z.eqb_neq; congruence).
    rewrite Hs. split; reflexivity.
Qed.

(** C9, witness: a short second chunk of zeros, scanned with the sample
    tables. *)
Lemma work_scan_without_header_witness :
  work_scan (dec := rejecting_decoder) (tab := sample_scantab)
    [sample_chunk; zero_chunk] 0 8 zero_chunk
  = ([EvRelease zero_chunk], Returned).
Proof.
  destruct (work_scan_without_header unit rejecting_decoder sample_scantab
              [sample_chunk; zero_chunk] 0 8 zero_chunk) as [_ H].
  - reflexivity.
  - vm_compute. discriminate.
  - destruct H as [H _]; [vm_compute; discriminate | exact H].
Defined.


(** ** The scanner: which blocks have a decoder *)

Section DecoderFacts.

Context {YBdec_t : Type} {dec : YBdec YBdec_t} {tab : scantab}.

Local Abbreviation scan_st := (@scan_st YBdec_t).
Local Abbreviation event := (@event YBdec_t).
Local Abbreviation w2w_blk := (w2w_blk YBdec_t).

Variable h : chunk_heap.
Variable fid : Z.

Lemma Forall_flushed (P : w2w_blk -> Prop) (evs : list event) :
  Forall (flush_ok P) evs <-> Forall P (flushed evs).
Proof.
  induction evs as [| ev evs IH]; cbn.
  - split; constructor.
  - destruct ev as [b p | c | c]; cbn; split; intros H.
    + inversion H; subst. constructor; [assumption | apply IH; assumption].
    + inversion H; subst. constructor; [assumption | apply IH; assumption].
    + inversion H; subst. apply IH; assumption.
    + constructor; [exact I | apply IH; assumption].
    + inversion H; subst. apply IH; assumption.
    + constructor; [exact I | apply IH; assumption].
Qed.

Lemma magic_switch_ybdec (m m' : magic_state) (word bits bits' : Z)
    (b b' : w2w_blk) :
  magic_switch m word b bits = Some (m', b', bits') ->
  ybdec b' = ybdec b.
Proof.
  intros H. destruct m; cbn in H;
    repeat match type of H with
           | context [if ?c then _ else _] => destruct c
           end;
    try discriminate; injection H as <- <- <-; reflexivity.
Qed.

(** The digit of a stream header is between 1 and 9. *)
Lemma stream_digit (word : Z) :
  (26681 <? word) || (word <? 26673) = false ->
  1 <= Z.land word 15 <= 9.
Proof.
  intros H. apply orb_false_iff in H as [H1 H2].
  apply Z.ltb_ge in H1, H2.
  assert (Hw : word = 26673 \/ word = 26674 \/ word = 26675 \/ word = 26676
               \/ word = 26677 \/ word = 26678 \/ word = 26679
               \/ word = 26680 \/ word = 26681) by lia.
  repeat (destruct Hw as [-> | Hw]; [cbn; lia |]). subst word. cbn. lia.
Qed.

(** The magic machine reaches the states after a stream header, and
    [ACCEPT], only with a bs100k between 1 and 9 in the block. *)
Lemma magic_switch_bs100k (m m' : magic_state) (word bits bits' : Z)
    (b b' : w2w_blk) :
  magic_switch m word b bits = Some (m', b', bits') ->
  0 <= w2w_bs100k b ->
  (after_stream_magic m = true -> 1 <= w2w_bs100k b <= 9) ->
  0 <= w2w_bs100k b'
  /\ (after_stream_magic m' = true -> 1 <= w2w_bs100k b' <= 9).
Proof.
  intros H Hnn Hin. destruct m; cbn in H.
  all: repeat match type of H with
              | context [if ?c then _ else _] => destruct c eqn:?
              end.
  all: try discriminate.
  all: injection H as <- <- <-; cbn.
  all: try (split; [exact Hnn | intros; try discriminate;
                                try (apply Hin; reflexivity)]).
  pose proof (stream_digit word ltac:(assumption)). split; [lia | intros _; lia].
Qed.

(** *** Runs that start with a decoder *)

Lemma work_oflush_id_real (b : w2w_blk) (idx : Z) (l : bool) :
  has_decoder b = true ->
  real_block fid (fst (work_oflush_id b fid idx l)).
Proof.
  unfold work_oflush_id, real_block, has_decoder.
  destruct (ybdec b) eqn:E; [| discriminate].
  intros _. cbn. rewrite E. split; reflexivity.
Qed.

Lemma flush_real (s : scan_st) (l : bool) :
  has_decoder (sc_w2w s) = true ->
  flush_ok (real_block fid) (fst (flush fid s l)).
Proof.
  intros Hd. unfold flush.
  pose proof (work_oflush_id_real
                (set_end_offs (sc_w2w s) (end_offs_at (sc_blk s) (ipos s)))
                (sc_bzip2_blk_id s) l Hd) as H.
  destruct (work_oflush_id _ fid (sc_bzip2_blk_id s) l) as [b' idx].
  exact H.
Qed.

Lemma flush_w2w_fresh (s : scan_st) (l : bool) :
  has_decoder (sc_w2w (with_w2w s (snd (flush fid s l)) fresh_w2w)) = true.
Proof. reflexivity. Qed.

Lemma magic_refill_real (s : scan_st) :
  has_decoder (sc_w2w s) = true ->
  match magic_refill h fid s with
  | RfStop evs _ => Forall (flush_ok (real_block fid)) evs
  | RfReady s1 _ evs =>
      Forall (flush_ok (real_block fid)) evs
      /\ has_decoder (sc_w2w s1) = true
  end.
Proof.
  intros Hd. unfold magic_refill, load_word.
  destruct (ibits_left s <? 16); [| split; [constructor | exact Hd]].
  destruct (loaded (sc_blk s) =? ipos s);
    [| split; [constructor | exact Hd]].
  assert (Hd1 : has_decoder
                  (if w2w_bs100k (sc_w2w s) =? 0
                   then set_bs100k (sc_w2w s) UINT_MAX
                   else sc_w2w s) = true)
    by (destruct (w2w_bs100k (sc_w2w s) =? 0); exact Hd).
  destruct (first s); cbn [negb].
  - assert (Hlast : forall p,
               flush_ok (real_block fid)
                 (EvFlush
                    (fst (work_oflush_id
                            (set_end_offs
                               (if w2w_bs100k (sc_w2w s) =? 0
                                then set_bs100k (sc_w2w s) UINT_MAX
                                else sc_w2w s)
                               (end_offs_at (sc_blk s) (ipos s)))
                            fid (sc_bzip2_blk_id s) true)) p)).
    { intros p. apply work_oflush_id_real. exact Hd1. }
    destruct (loaded (sc_blk s) <? MX_SPLIT).
    + apply Forall_cons; [exact I |].
      apply Forall_cons; [apply Hlast | apply Forall_nil].
    + destruct (work_get_second h (sc_blk s)).
      * split; [apply Forall_cons; [exact I | apply Forall_nil] | exact Hd1].
      * apply Forall_cons; [exact I |].
        apply Forall_cons; [apply Hlast | apply Forall_nil].
  - destruct (MX_SPLIT =? loaded (sc_blk s)); [apply Forall_nil |].
    apply Forall_cons; [exact I |].
    apply Forall_cons; [apply flush_real; exact Hd1 | apply Forall_nil].
Qed.

Lemma step_real (ph : phase) (s : scan_st) :
  has_decoder (sc_w2w s) = true ->
  match work_retrieve_step h fid ph s with
  | Stop evs _ => Forall (flush_ok (real_block fid)) evs
  | Next evs _ s' =>
      Forall (flush_ok (real_block fid)) evs
      /\ has_decoder (sc_w2w s') = true
  end.
Proof.
  intros Hd.
  assert (Hturn : forall f,
             match retrieve_turn h fid f s with
             | Stop evs _ => Forall (flush_ok (real_block fid)) evs
             | Next evs _ s' =>
                 Forall (flush_ok (real_block fid)) evs
                 /\ has_decoder (sc_w2w s') = true
             end).
  { intros f. unfold retrieve_turn.
    destruct (ybdec (sc_w2w s)) as [d |]; [| apply Forall_nil].
    destruct (YBdec_retrieve d (compr (sc_blk s)) (ipos s)
                (loaded (sc_blk s)) (ibitbuf s) (ibits_left s))
      as [[[[r d'] ipos'] ibitbuf'] ibits_left'].
    destruct r.
    - match goal with
      | |- context [if ?c then _ else _] => destruct c
      end.
      + apply Forall_cons; [exact I |].
        apply Forall_cons; [apply flush_real; reflexivity | apply Forall_nil].
      + match goal with
        | |- context [flush fid ?s1 false] =>
            pose proof (flush_real s1 false eq_refl) as Hf;
            destruct (flush fid s1 false) as [ev idx]
        end.
        split; [apply Forall_cons; [exact Hf | apply Forall_nil]
               | reflexivity].
    - destruct f.
      + match goal with
        | |- context [if ?c then _ else _] => destruct c
        end; [apply Forall_nil |].
        match goal with
        | |- context [work_get_second h ?c] => destruct (work_get_second h c)
        end.
        * split; [apply Forall_cons; [exact I | apply Forall_nil]
                 | reflexivity].
        * apply Forall_cons; [exact I | apply Forall_nil].
      + apply Forall_nil.
    - split; [apply Forall_nil | reflexivity].
    - apply Forall_nil. }
  destruct ph as [| | m]; cbn [work_retrieve_step]; [apply Hturn .. |].
  unfold magic_turn.
  pose proof (magic_refill_real s Hd) as Hr.
  destruct (magic_refill h fid s) as [s1 buf64 evs | evs o]; [| exact Hr].
  destruct Hr as [Hevs Hd1].
  destruct (magic_switch m _ (sc_w2w s1) _) as [[[m' b'] bits'] |] eqn:Esw;
    [| split; [exact Hevs | exact Hd1]].
  assert (Hd' : has_decoder b' = true).
  { unfold has_decoder in *. rewrite (magic_switch_ybdec _ _ _ _ _ _ _ Esw).
    exact Hd1. }
  destruct (is_ACCEPT m'); [| split; [exact Hevs | exact Hd']].
  match goal with
  | |- context [if ?c then _ else _] => destruct c
  end.
  - apply Forall_app. split; [exact Hevs |].
    apply Forall_cons; [exact I |].
    apply Forall_cons; [apply flush_real; exact Hd' | apply Forall_nil].
  - match goal with
    | |- context [flush fid ?s2 false] =>
        pose proof (flush_real s2 false Hd') as Hf;
        destruct (flush fid s2 false) as [ev idx]
    end.
    split; [| reflexivity].
    apply Forall_app. split; [exact Hevs |].
    apply Forall_cons; [exact Hf | apply Forall_nil].
Qed.

(** A run whose block has a decoder flushes only blocks with a decoder,
    named after the chunk the scan began in. *)
Lemma work_retrieve_from_real (fuel : nat) (ph : phase) (s : scan_st) :
  has_decoder (sc_w2w s) = true ->
  Forall (real_block fid) (flushed (fst (work_retrieve_from h fid fuel ph s))).
Proof.
  intros Hd. apply Forall_flushed.
  apply (work_retrieve_from_events h fid (flush_ok (real_block fid))
           (fun _ s0 => has_decoder (sc_w2w s0) = true));
    [| exact Hd].
  intros ph0 s0 Hd0. apply step_real. exact Hd0.
Qed.

(** *** Runs that start without a decoder *)

Lemma headerless_intro (m : magic_state) (s : scan_st) :
  ybdec (sc_w2w s) = None ->
  0 <= w2w_bs100k (sc_w2w s) ->
  (after_stream_magic m = true -> 1 <= w2w_bs100k (sc_w2w s) <= 9) ->
  headerless m s.
Proof. intros H1 H2 H3. split; [exact H1 | split; [exact H2 | exact H3]]. Qed.

Lemma work_oflush_id_header (b : w2w_blk) (i idx : Z) (l : bool) :
  ybdec b = None ->
  1 <= w2w_bs100k b ->
  header_block (fst (work_oflush_id b i idx l)).
Proof.
  intros Hn Hbs. unfold work_oflush_id, header_block. rewrite Hn. cbn.
  split; [exact Hn | split; [reflexivity | exact Hbs]].
Qed.

Lemma flush_header (s : scan_st) (l : bool) :
  ybdec (sc_w2w s) = None ->
  1 <= w2w_bs100k (sc_w2w s) ->
  exists b p, fst (flush fid s l) = EvFlush b p /\ header_block b.
Proof.
  intros Hn Hbs. unfold flush.
  pose proof (work_oflush_id_header
                (set_end_offs (sc_w2w s) (end_offs_at (sc_blk s) (ipos s)))
                fid (sc_bzip2_blk_id s) l Hn Hbs) as H.
  destruct (work_oflush_id _ fid (sc_bzip2_blk_id s) l) as [b' idx].
  exists b', (cursor_of s). split; [reflexivity | exact H].
Qed.

Lemma flush_bs100k (s : scan_st) (l : bool) (b : w2w_blk) (p : cursor) :
  fst (flush fid s l) = EvFlush b p ->
  w2w_bs100k b = w2w_bs100k (sc_w2w s).
Proof.
  unfold flush, work_oflush_id. cbn.
  destruct (ybdec (sc_w2w s)); cbn; intros H; injection H as <- _;
    reflexivity.
Qed.

Lemma magic_refill_header (m : magic_state) (s : scan_st) :
  headerless m s ->
  match magic_refill h fid s with
  | RfStop evs _ =>
      flushed evs = [] \/ exists b, flushed evs = [b] /\ header_block b
  | RfReady s1 _ evs => flushed evs = [] /\ headerless m s1
  end.
Proof.
  intros [Hn [Hnn Haft]]. unfold magic_refill, load_word.
  destruct (ibits_left s <? 16);
    [| split; [reflexivity | apply headerless_intro; assumption]].
  destruct (loaded (sc_blk s) =? ipos s);
    [| split; [reflexivity | apply headerless_intro; assumption]].
  set (b1 := if w2w_bs100k (sc_w2w s) =? 0
             then set_bs100k (sc_w2w s) UINT_MAX
             else sc_w2w s).
  assert (Hn1 : ybdec b1 = None)
    by (subst b1; destruct (w2w_bs100k (sc_w2w s) =? 0); exact Hn).
  assert (Hbs1 : 1 <= w2w_bs100k b1).
  { subst b1. destruct (Z.eqb_spec (w2w_bs100k (sc_w2w s)) 0) as [E | E].
    - cbn. unfold UINT_MAX. lia.
    - lia. }
  assert (Haft1 : after_stream_magic m = true -> 1 <= w2w_bs100k b1 <= 9).
  { intros Ha. specialize (Haft Ha). subst b1.
    destruct (Z.eqb_spec (w2w_bs100k (sc_w2w s)) 0) as [E | E]; [lia |].
    exact Haft. }
  destruct (first s); cbn [negb].
  - pose proof (work_oflush_id_header
                  (set_end_offs b1 (end_offs_at (sc_blk s) (ipos s)))
                  fid (sc_bzip2_blk_id s) true Hn1 Hbs1) as Hlast.
    destruct (loaded (sc_blk s) <? MX_SPLIT).
    + right. eexists. split; [reflexivity | exact Hlast].
    + destruct (work_get_second h (sc_blk s)).
      * split; [reflexivity |].
        apply headerless_intro; [exact Hn1 | cbn; lia | exact Haft1].
      * right. eexists. split; [reflexivity | exact Hlast].
  - destruct (MX_SPLIT =? loaded (sc_blk s)); [left; reflexivity |].
    right.
    destruct (flush_header (with_w2w s (sc_bzip2_blk_id s) b1) true Hn1 Hbs1)
      as [b [p [Hf Hb]]].
    exists b. cbn [flushed]. rewrite Hf. split; [reflexivity | exact Hb].
Qed.

Lemma magic_turn_header (m : magic_state) (s : scan_st) :
  headerless m s ->
  match magic_turn h fid m s with
  | Stop evs _ =>
      flushed evs = [] \/ exists b, flushed evs = [b] /\ header_block b
  | Next evs ph' s' =>
      (flushed evs = [] /\ exists m', ph' = PhMagic m' /\ headerless m' s')
      \/ (exists b,
            flushed evs = [b] /\ header_block b
            /\ 1 <= w2w_bs100k b <= 9
            /\ has_decoder (sc_w2w s') = true)
  end.
Proof.
  intros Hs. unfold magic_turn.
  pose proof (magic_refill_header m s Hs) as Hr.
  destruct (magic_refill h fid s) as [s1 buf64 evs | evs o]; [| exact Hr].
  destruct Hr as [Hevs [Hn [Hnn Haft]]].
  destruct (magic_switch m _ (sc_w2w s1) _) as [[[m' b'] bits'] |] eqn:Esw.
  - pose proof (magic_switch_ybdec _ _ _ _ _ _ _ Esw) as Hy.
    pose proof (magic_switch_bs100k _ _ _ _ _ _ _ Esw Hnn Haft)
      as [Hnn' Haft'].
    rewrite Hn in Hy.
    destruct m'; cbn [is_ACCEPT];
      try (left; split; [exact Hevs |];
           eexists; split; [reflexivity |];
           apply headerless_intro; assumption).
    (* ACCEPT: the block is flushed *)
    specialize (Haft' eq_refl).
    match goal with
    | |- context [if ?c then _ else _] => destruct c
    end.
    + right.
      match goal with
      | |- context [flush fid ?s2 true] =>
          destruct (flush_header s2 true Hy ltac:(cbn; lia))
            as [b [p [Hf Hb]]]
      end.
      exists b. rewrite flushed_app, Hevs. cbn [flushed app].
      rewrite Hf. split; [reflexivity | exact Hb].
    + match goal with
      | |- context [flush fid ?s2 false] =>
          destruct (flush_header s2 false Hy ltac:(cbn; lia))
            as [b [p [Hf Hb]]];
          pose proof (flush_bs100k s2 false b p Hf) as Hbs;
          destruct (flush fid s2 false) as [ev idx]
      end.
      cbn [fst] in Hf. subst ev. right. exists b.
      rewrite flushed_app, Hevs. cbn in Hbs |- *.
      split; [reflexivity |]. split; [exact Hb |].
      split; [lia | reflexivity].
  - left. split; [exact Hevs |]. eexists. split; [reflexivity |].
    apply headerless_intro; assumption.
Qed.

(** The run of the magic machine on the decoderless block flushes that
    block first, if anything, under the id (0, 0); whatever follows has a
    decoder; and nothing follows when the block carries no bs100k between 1
    and 9. *)
Lemma work_retrieve_from_header (fuel : nat) :
  forall (m : magic_state) (s : scan_st),
    headerless m s ->
    let fl := flushed (fst (work_retrieve_from h fid fuel (PhMagic m) s)) in
    fl = []
    \/ exists b rest,
         fl = b :: rest
         /\ header_block b
         /\ Forall (real_block fid) rest
         /\ (~ 1 <= w2w_bs100k b <= 9 -> rest = []).
Proof.
  induction fuel as [| fuel IH]; intros m s Hs; cbn zeta.
  - left. reflexivity.
  - cbn [work_retrieve_from work_retrieve_step].
    pose proof (magic_turn_header m s Hs) as Ht.
    destruct (magic_turn h fid m s) as [evs o | evs ph' s']; cbn [fst].
    + destruct Ht as [-> | [b [-> Hb]]]; [left; reflexivity |].
      right. exists b, []. repeat split; try apply Hb.
      * constructor.
    + rewrite flushed_app.
      destruct Ht as [[-> [m' [-> Hs']]] | [b [-> [Hb [Hbs Hd]]]]].
      * cbn [app]. apply IH. exact Hs'.
      * right. exists b, (flushed (fst (work_retrieve_from h fid fuel ph' s'))).
        split; [reflexivity |]. split; [exact Hb |].
        split; [apply work_retrieve_from_real; exact Hd |].
        intros Hno. contradiction.
Qed.

End DecoderFacts.


(** ** The scanner: the magic machine on the first chunk comes to an end *)

Section MagicProgress.

Context {YBdec_t : Type} {dec : YBdec YBdec_t} {tab : scantab}.

Local Abbreviation scan_st := (@scan_st YBdec_t).
Local Abbreviation event := (@event YBdec_t).
Local Abbreviation w2w_blk := (w2w_blk YBdec_t).

Variable h : chunk_heap.
Variable fid : Z.
Hypothesis Hheap : chunks_loaded h.

Local Arguments Z.mul : simpl never.
Local Arguments Z.add : simpl never.
Local Arguments Z.sub : simpl never.







End MagicProgress.


(** ** The blocks a scan publishes *)

Section ScanFacts.

Context {YBdec_t : Type} {dec : YBdec YBdec_t} {tab : scantab}.

Local Abbreviation w2w_blk := (w2w_blk YBdec_t).

Variable h : chunk_heap.
Variable junk : Z.

Lemma work_retrieve_first_chunk (fuel : nat) (c : s2w_blk) :
  s2w_id c = 1 ->
  work_scan h junk fuel c
  = work_retrieve_from h 1 fuel (PhMagic STREAM_MAGIC_1)
      (first_chunk_start junk c).
Proof.
  intros Hid. unfold work_scan, work_retrieve. rewrite Hid. reflexivity.
Qed.

Lemma first_chunk_start_headerless (c : s2w_blk) :
  headerless STREAM_MAGIC_1 (@first_chunk_start YBdec_t junk c).
Proof.
  apply headerless_intro; cbn.
  - reflexivity.
  - unfold uint32. apply Z.mod_pos_bound. reflexivity.
  - discriminate.
Qed.

(** The scan of any chunk but the first publishes only blocks with a
    decoder, under the chunk's id. *)
Lemma work_scan_real (fuel : nat) (c : s2w_blk) :
  s2w_id c <> 1 ->
  Forall (real_block (s2w_id c)) (flushed (fst (work_scan h junk fuel c))).
Proof.
  intros Hid. unfold work_scan, work_retrieve.
  assert (Hne : (1 =? s2w_id c) = false) by (apply Z.eqb_neq; congruence).
  rewrite Hne.
  destruct (1 <? s2w_id c).
  - destruct (big_scan _ c 0 0) as [[[bt buf] st] ip].
    destruct (mini_scan 32 buf bt) as [st' bits].
    destruct (negb (st' =? scan_ACCEPT)).
    + destruct (MX_SPLIT =? loaded c); constructor.
    + apply work_retrieve_from_real. reflexivity.
  - apply work_retrieve_from_real. reflexivity.
Qed.

(** The scan of the first chunk publishes the decoderless block first, if
    anything. *)
Lemma work_scan_header (fuel : nat) (c : s2w_blk) :
  s2w_id c = 1 ->
  let fl := flushed (fst (work_scan h junk fuel c)) in
  fl = []
  \/ exists b rest,
       fl = b :: rest
       /\ header_block b
       /\ Forall (real_block 1) rest
       /\ (~ 1 <= w2w_bs100k b <= 9 -> rest = []).
Proof.
  intros Hid. rewrite (work_retrieve_first_chunk fuel c Hid).
  apply work_retrieve_from_header, first_chunk_start_headerless.
Qed.

Lemma real_block_decoder (fid : Z) (b : w2w_blk) :
  real_block fid b -> ybdec b <> None.
Proof.
  intros [Hd _] Hn. unfold has_decoder in Hd. rewrite Hn in Hd.
  discriminate Hd.
Qed.




End ScanFacts.

(** ** Chunk ids *)


Lemma chunk_ids_In (h : chunk_heap) (c : s2w_blk) :
  chunk_ids h -> In c h -> 1 <= s2w_id c.
Proof.
  intros H Hin. apply In_nth_error in Hin as [i Hi].
  rewrite (H i c Hi). lia.
Qed.

Lemma chunk_ids_first (h : chunk_heap) (c c' : s2w_blk) :
  chunk_ids h -> In c h -> In c' h -> s2w_id c = 1 -> s2w_id c' = 1 ->
  c = c'.
Proof.
  intros H Hc Hc' H1 H1'.
  apply In_nth_error in Hc as [i Hi]. apply In_nth_error in Hc' as [j Hj].
  pose proof (H i c Hi). pose proof (H j c' Hj).
  assert (i = j) by lia. subst j. congruence.
Qed.

(** ** The chunks the splitter leaves *)

Section SplitChunks.

Context {D : Type}.

Lemma split_turn_id (l l' : split_locals) (w w' : world D) :
  split_turn_result (split_turn l w) = Some (l', w') ->
  exists buf vacant rest,
    split_fill (sp_input l) = (buf, rest, vacant)
    /\ sp_id l' = snd (split_alloc l buf vacant).
Proof.
  intros H. unfold split_turn in H.
  destruct (num_free (w_m2s w) =? 0); [discriminate |].
  destruct (split_fill (sp_input l)) as [[buf rest] vacant] eqn:Ef.
  destruct (split_alloc l buf vacant) as [chunk id] eqn:Ea.
  exists buf, vacant, rest. split; [reflexivity |]. rewrite Ea.
  destruct (vacant =? 0); cbn in H; injection H as <- _; reflexivity.
Qed.

Lemma split_alloc_none (l : split_locals) (buf : list Byte.byte) :
  split_alloc l buf MX_SPLIT = (None, sp_id l).
Proof. unfold split_alloc. rewrite Z.eqb_refl. reflexivity. Qed.

Lemma split_alloc_some (l : split_locals) (buf : list Byte.byte)
    (vacant : Z) :
  vacant <> MX_SPLIT ->
  exists c,
    split_alloc l buf vacant = (Some c, uintmax (sp_id l + 1))
    /\ s2w_id c = uintmax (sp_id l + 1)
    /\ loaded c = MX_SPLIT - vacant.
Proof.
  intros Hv. unfold split_alloc.
  replace (MX_SPLIT =? vacant) with false.
  - eexists. split; [reflexivity |]. split; reflexivity.
  - symmetry. apply Z.eqb_neq. intros E. apply Hv. symmetry. exact E.
Qed.

(** A turn keeps the chunks numbered from 1 in the order of their addresses
    and between one word and [MX_SPLIT] words long. *)
Lemma split_turn_chunks (l l' : split_locals) (w w' : world D) :
  split_turn_result (split_turn l w) = Some (l', w') ->
  chunk_ids (w_heap w) ->
  chunks_loaded (w_heap w) ->
  sp_id l = Z.of_nat (length (w_heap w)) ->
  Z.of_nat (length (w_heap w)) + 1 < 2 ^ 64 ->
  chunk_ids (w_heap w')
  /\ chunks_loaded (w_heap w')
  /\ sp_id l' = Z.of_nat (length (w_heap w'))
  /\ (length (w_heap w') <= S (length (w_heap w)))%nat.
Proof.
  intros H Hids Hld Hid Hbound.
  destruct (split_turn_inv l w l' w' H) as [buf [vacant [Hf [_ [Hh _]]]]].
  destruct (split_turn_id l l' w w' H) as [buf' [vacant' [rest' [Hf' Hid']]]].
  rewrite Hf in Hf'. injection Hf' as <- _ <-.
  destruct (split_fill_spec _ _ _ _ Hf) as [got [_ [_ [_ [Hv _]]]]].
  clear Hf H.
  assert (H1 : exists h1,
             w_heap w' = match atch_scan l with
                         | Some a =>
                             set_next h1 a
                               match fst (split_alloc l buf vacant) with
                               | Some _ => Some (length (w_heap w))
                               | None => None
                               end
                         | None => h1
                         end
             /\ (forall i c, nth_error h1 i = Some c ->
                             s2w_id c = Z.of_nat i + 1
                             /\ 0 < loaded c <= MX_SPLIT)
             /\ sp_id l' = Z.of_nat (length h1)
             /\ (length h1 <= S (length (w_heap w)))%nat).
  { destruct (Z.eq_dec vacant MX_SPLIT) as [Hm | Hm].
    - subst vacant. rewrite split_alloc_none in Hh, Hid' |- *.
      cbn [fst snd] in Hh, Hid' |- *. exists (w_heap w).
      split; [exact Hh |]. split; [| split; [congruence | lia]].
      intros i c Hc. split; [apply Hids; exact Hc |].
      apply Hld. apply (nth_error_In _ _ Hc).
    - destruct (split_alloc_some l buf vacant Hm) as [c0 [Ea [Hc0 Hl0]]].
      rewrite Ea in Hh, Hid' |- *. cbn [fst snd] in Hh, Hid' |- *.
      assert (Eid : uintmax (sp_id l + 1)
                    = Z.of_nat (length (w_heap w)) + 1).
      { rewrite Hid. apply uintmax_small. lia. }
      rewrite Eid in Hc0, Hid'. eexists. split; [exact Hh |].
      split; [| split].
      + intros i c Hc.
        destruct (Nat.ltb_spec i (length (w_heap w))) as [Hlt | Hge].
        * rewrite nth_error_app1 in Hc by exact Hlt.
          split; [apply Hids; exact Hc |].
          apply Hld. apply (nth_error_In _ _ Hc).
        * rewrite nth_error_app2 in Hc by exact Hge.
          destruct (i - length (w_heap w))%nat as [| k] eqn:Ek.
          -- cbn [nth_error] in Hc. injection Hc as <-.
             rewrite Hc0, Hl0. clear Hbound. split; lia.
          -- destruct k; discriminate Hc.
      + rewrite Hid', length_app. cbn [length]. lia.
      + rewrite length_app. cbn [length]. lia. }
  clear Hh. destruct H1 as [h1 [Hh H1]].
  destruct H1 as [Hall [Hlen Hle]].
  assert (Hall' : forall i c, nth_error (w_heap w') i = Some c ->
                              s2w_id c = Z.of_nat i + 1
                              /\ 0 < loaded c <= MX_SPLIT).
  { rewrite Hh. destruct (atch_scan l) as [a |]; [| exact Hall].
    intros i c Hc.
    destruct (nth_error_set_next h1 a i _ c Hc)
      as [c0 [Hc0 [Hi [_ [Hl _]]]]].
    rewrite Hi, Hl. apply (Hall i c0 Hc0). }
  assert (Hlen' : length (w_heap w') = length h1).
  { rewrite Hh. destruct (atch_scan l); [apply length_set_next |
                                         reflexivity]. }
  split; [intros i c Hc; apply (Hall' i c Hc) |].
  split; [| split; [congruence | lia]].
  intros c Hc. apply In_nth_error in Hc as [i Hi]. apply (Hall' i c Hi).
Qed.

Lemma split_loop_chunks (fuel : nat) :
  forall (l l' : split_locals) (w w' : world D),
    split_loop fuel l w = Some (l', w') ->
    chunk_ids (w_heap w) ->
    chunks_loaded (w_heap w) ->
    sp_id l = Z.of_nat (length (w_heap w)) ->
    Z.of_nat (length (w_heap w)) + Z.of_nat fuel < 2 ^ 64 ->
    chunk_ids (w_heap w') /\ chunks_loaded (w_heap w').
Proof.
  induction fuel as [| fuel IH]; intros l l' w w' H Hids Hld Hid Hbound;
    cbn [split_loop] in H; [discriminate H |].
  destruct (split_turn l w) as [| l1 w1 | l1 w1] eqn:Et; [discriminate H | |].
  - destruct (split_turn_chunks l l1 w w1) as [Hids1 [Hld1 [Hid1 Hle]]];
      [rewrite Et; reflexivity | assumption .. | lia |].
    apply (IH l1 l' w1 w' H Hids1 Hld1 Hid1). lia.
  - injection H as <- <-.
    destruct (split_turn_chunks l l1 w w1) as [Hids1 [Hld1 _]];
      [rewrite Et; reflexivity | assumption .. | lia |].
    split; assumption.
Qed.

(** The chunks [split] leaves are numbered from 1 and loaded. *)
Lemma split_chunks (num_worker num_slot : Z) (input : list Byte.byte)
    (l : split_locals) (w : world D) :
  Z.of_nat (length input) + 1 < 2 ^ 64 ->
  split num_worker num_slot input = Some (l, w) ->
  chunk_ids (w_heap w) /\ chunks_loaded (w_heap w).
Proof.
  intros Hlen H. unfold split in H.
  apply (split_loop_chunks _ _ _ _ _ H).
  - intros i c Hc. destruct i; discriminate Hc.
  - intros c [].
  - reflexivity.
  - cbn [w_heap length]. lia.
Qed.

End SplitChunks.


(** ** C10: the decoderless block *)

Section HeaderBlock.

Context {YBdec_t : Type} {dec : YBdec YBdec_t} {tab : scantab}.

Local Abbreviation w2w_blk := (w2w_blk YBdec_t).





End HeaderBlock.





(** ** What the workers push *)

Section Pushed.

Context {YBdec_t : Type} {dec : YBdec YBdec_t} {tab : scantab}.

Local Abbreviation w2w_blk := (w2w_blk YBdec_t).

Variable h : chunk_heap.
Variable junk : Z.
Variable fuel_of : s2w_blk -> nat.
Hypothesis Hids : chunk_ids h.

Lemma work_emit_ids (fuel : nat) (b : w2w_blk) :
  forall (d : YBdec_t) (bs k : Z) (sb : w2m_blk),
    In sb (fst (work_emit fuel b d bs k)) ->
    w2w_id_of (w2m_id sb) = w2w_id b /\ w2m_bs100k sb = w2w_bs100k b.
Proof.
  induction fuel as [| fuel IH]; intros d bs k sb Hin;
    cbn [work_emit] in Hin.
  - destruct Hin.
  - destruct (YBdec_emit d MX_DECOMPR) as [[[[r d'] data] oleft] c].
    destruct r; cbn [fst In] in Hin.
    + destruct Hin as [<- | []]. split; reflexivity.
    + destruct Hin as [<- | Hin]; [split; reflexivity |].
      apply (IH _ _ _ _ Hin).
    + destruct Hin.
    + destruct Hin.
Qed.

Lemma work_decompr_ids (fuel : nat) (b : w2w_blk) (sb : w2m_blk) :
  In sb (fst (work_decompr fuel b)) ->
  w2w_id_of (w2m_id sb) = w2w_id b
  /\ w2m_bs100k sb = w2w_bs100k b
  /\ (ybdec b = None ->
      decompr_blk_id (w2m_id sb) = 0 /\ last_decompr (w2m_id sb) = true).
Proof.
  unfold work_decompr. destruct (ybdec b) as [d |].
  - destruct (YBdec_work d) as [[r d'] bs].
    destruct r; cbn [fst In]; intros Hin; try destruct Hin.
    destruct (work_emit_ids _ _ _ _ _ _ Hin) as [H1 H2].
    split; [exact H1 |]. split; [exact H2 | discriminate].
  - cbn [fst In]. intros [<- | []]. cbn [w2m_id w2w_id_of w2m_bs100k].
    split; [reflexivity |]. split; [reflexivity |].
    intros _. split; reflexivity.
Qed.

Lemma In_flushed_flat_map (f : s2w_blk -> list (@event YBdec_t))
    (l : list s2w_blk) (b : w2w_blk) :
  In b (flushed (flat_map f l)) ->
  exists c, In c l /\ In b (flushed (f c)).
Proof.
  induction l as [| c l IH]; cbn [flat_map]; intros Hin.
  - cbn in Hin. destruct Hin.
  - rewrite flushed_app in Hin. apply in_app_or in Hin as [Hin | Hin].
    + exists c. split; [left; reflexivity | exact Hin].
    + destruct (IH Hin) as [c' [Hc' Hb]].
      exists c'. split; [right; exact Hc' | exact Hb].
Qed.

Lemma published_scan (b : w2w_blk) :
  published h junk fuel_of b ->
  exists c, In c h /\ In b (flushed (fst (work_scan h junk (fuel_of c) c))).
Proof.
  unfold published, scan_all. intros Hin.
  apply In_flushed_flat_map in Hin. exact Hin.
Qed.

(** A published block is the decoderless block of the first chunk's scan,
    or a block with a decoder under the id of its chunk. *)
Lemma published_cases (b : w2w_blk) :
  published h junk fuel_of b ->
  header_block b \/ (ybdec b <> None /\ 1 <= s2w_blk_id (w2w_id b)).
Proof.
  intros Hp. destruct (published_scan b Hp) as [c [Hc Hb]].
  pose proof (chunk_ids_In h c Hids Hc) as Hge.
  destruct (Z.eq_dec (s2w_id c) 1) as [Hid | Hid].
  - destruct (work_scan_header h junk (fuel_of c) c Hid)
      as [E | [b0 [rest [E [Hb0 [Hrest _]]]]]]; rewrite E in Hb.
    + destruct Hb.
    + destruct Hb as [<- | Hb]; [left; exact Hb0 |].
      rewrite Forall_forall in Hrest. specialize (Hrest b Hb).
      right. split; [apply (real_block_decoder 1 b Hrest) |].
      destruct Hrest as [_ ->]. lia.
  - pose proof (work_scan_real h junk (fuel_of c) c Hid) as Hreal.
    rewrite Forall_forall in Hreal. specialize (Hreal b Hb).
    right. split; [apply (real_block_decoder _ b Hreal) |].
    destruct Hreal as [_ ->]. exact Hge.
Qed.

(** When the decoderless block carries no bs100k between 1 and 9, the scan
    of the first chunk has published nothing else: no block has the chunk
    id 1. *)
Lemma published_after_bad_header (b0 : w2w_blk) :
  published h junk fuel_of b0 ->
  header_block b0 ->
  ~ 1 <= w2w_bs100k b0 <= 9 ->
  forall b, published h junk fuel_of b -> s2w_blk_id (w2w_id b) <> 1.
Proof.
  intros Hp0 Hh0 Hbad b Hp Hs.
  destruct (published_scan b0 Hp0) as [c0 [Hc0 Hb0]].
  destruct (published_scan b Hp) as [c [Hc Hb]].
  assert (Hn0 : ybdec b0 = None) by apply Hh0.
  assert (Hid0 : s2w_id c0 = 1).
  { destruct (Z.eq_dec (s2w_id c0) 1) as [E | E]; [exact E |].
    pose proof (work_scan_real h junk (fuel_of c0) c0 E) as Hreal.
    rewrite Forall_forall in Hreal.
    destruct (real_block_decoder _ b0 (Hreal b0 Hb0) Hn0). }
  assert (Hfl0 : flushed (fst (work_scan h junk (fuel_of c0) c0)) = [b0]).
  { destruct (work_scan_header h junk (fuel_of c0) c0 Hid0)
      as [E | [b1 [rest [E [Hb1 [Hrest Hnone]]]]]]; rewrite E in Hb0.
    - destruct Hb0.
    - destruct Hb0 as [<- | Hb0].
      + rewrite E, (Hnone Hbad). reflexivity.
      + rewrite Forall_forall in Hrest.
        destruct (real_block_decoder 1 b0 (Hrest b0 Hb0) Hn0). }
  destruct (published_cases b Hp) as [[_ [Hid _]] | [Hd _]].
  - rewrite Hid in Hs. discriminate Hs.
  - assert (Hidc : s2w_id c = 1).
    { destruct (Z.eq_dec (s2w_id c) 1) as [E | E]; [exact E |].
      pose proof (work_scan_real h junk (fuel_of c) c E) as Hreal.
      rewrite Forall_forall in Hreal.
      destruct (Hreal b Hb) as [_ Hsc]. congruence. }
    pose proof (chunk_ids_first h c c0 Hids Hc Hc0 Hidc Hid0). subst c0.
    rewrite Hfl0 in Hb. destruct Hb as [<- | []]. contradiction.
Qed.

(** The sub-block the muxer consumes under the id (0, 0, 0) is the one made
    of the decoderless block. *)
Lemma pushed_zero (sb : w2m_blk) :
  pushed h junk fuel_of sb ->
  s2w_blk_id (w2w_id_of (w2m_id sb)) = 0 ->
  exists b,
    published h junk fuel_of b /\ header_block b
    /\ w2m_bs100k sb = w2w_bs100k b
    /\ last_decompr (w2m_id sb) = true
    /\ last_bzip2 (w2w_id_of (w2m_id sb)) = true.
Proof.
  intros [b [fuel [Hp Hin]]] Hs.
  destruct (work_decompr_ids fuel b sb Hin) as [Hid [Hbs Hhdr]].
  destruct (published_cases b Hp) as [Hh | [_ Hge]].
  - exists b. split; [exact Hp |]. split; [exact Hh |].
    split; [exact Hbs |].
    destruct Hh as [Hn [Hi _]]. destruct (Hhdr Hn) as [_ Hl].
    split; [exact Hl |]. rewrite Hid, Hi. reflexivity.
  - rewrite Hid in Hs. lia.
Qed.

Lemma pushed_one (sb : w2m_blk) :
  pushed h junk fuel_of sb ->
  exists b,
    published h junk fuel_of b
    /\ s2w_blk_id (w2w_id b) = s2w_blk_id (w2w_id_of (w2m_id sb)).
Proof.
  intros [b [fuel [Hp Hin]]].
  destruct (work_decompr_ids fuel b sb Hin) as [Hid _].
  exists b. split; [exact Hp | rewrite Hid; reflexivity].
Qed.

End Pushed.

(** ** C8: the muxer's verdict on the file *)

Section MuxVerdict.

Context {YBdec_t : Type} {dec : YBdec YBdec_t} {tab : scantab}.

Variable isz : Z.
Variable h : chunk_heap.
Variable junk : Z.
Variable fuel_of : s2w_blk -> nat.
Hypothesis Hids : chunk_ids h.

Local Abbreviation inv := (mux_inv h junk fuel_of).
Local Abbreviation pushed := (pushed h junk fuel_of).

Lemma mux_block_end_frame (st st' : mux_st) (b : w2m_blk) :
  mux_block_end st b = Ok st' ->
  reord st' = reord st /\ consumed st' = consumed st
  /\ any st' = any st /\ finished st' = finished st.
Proof.
  unfold mux_block_end.
  destruct (last_decompr (w2m_id b));
    [destruct (bs100k st <? bs100k1 b); [discriminate |] |];
    intros H; injection H as <-; repeat split; reflexivity.
Qed.

Lemma mux_stream_end_effect (st st' : mux_st) (b : w2m_blk) :
  mux_stream_end st b = Ok st' ->
  reord st' = reord st /\ consumed st' = consumed st
  /\ (if w2m_bs100k b =? 0
      then any st' = any st /\ finished st' = finished st
      else any st' = (any st || (w2m_bs100k b <=? 9))
           /\ finished st' = (9 <? w2m_bs100k b)).
Proof.
  unfold mux_stream_end. destruct (w2m_bs100k b =? 0).
  - intros H. injection H as <-. repeat split; reflexivity.
  - destruct (negb (crc st =? w2m_crc b)); [discriminate |].
    intros H. injection H as <-. repeat split; reflexivity.
Qed.

Lemma mux_write_frame (st : mux_st) (b : w2m_blk) :
  let st' := mux_progress isz (mux_xwrite st b) b in
  reord st' = reord st /\ consumed st' = consumed st
  /\ any st' = any st /\ finished st' = finished st.
Proof.
  unfold mux_progress, mux_xwrite.
  destruct (0 <? produced b); cbn [finished last_offs];
    destruct (finished st) eqn:Ef;
    try destruct (last_decompr (w2m_id b) && (last_offs st <? w2m_end_offs b));
    cbn [reord consumed any finished]; rewrite ?Ef;
    repeat split; reflexivity.
Qed.

(** What [mux_emit] leaves alone, and what it does to the two flags. *)
Lemma mux_emit_effect (st st' : mux_st) (b : w2m_blk) :
  mux_emit isz st b = Ok st' ->
  reord st' = reord st
  /\ consumed st' = consumed st
  /\ (if finished st then any st' = any st /\ finished st' = true
      else if w2m_bs100k b =? 0
           then any st' = any st /\ finished st' = false
           else any st' = (any st || (w2m_bs100k b <=? 9))
                /\ finished st' = (9 <? w2m_bs100k b)).
Proof.
  unfold mux_emit. destruct (finished st) eqn:Ef.
  - intros H. injection H as <-. rewrite Ef. repeat split; reflexivity.
  - destruct (mux_block_end st b) as [st1 | e] eqn:E1; cbn [bind];
      [| discriminate].
    destruct (mux_stream_end st1 b) as [st2 | e] eqn:E2; cbn [bind];
      [| discriminate].
    intros H. injection H as <-.
    destruct (mux_block_end_frame _ _ _ E1) as [R1 [C1 [A1 F1]]].
    destruct (mux_stream_end_effect _ _ _ E2) as [R2 [C2 Hfl]].
    destruct (mux_write_frame st2 b) as [R3 [C3 [A3 F3]]].
    cbn zeta in R3, C3, A3, F3.
    rewrite R3, C3, A3, F3, R2, C2, R1, C1.
    split; [reflexivity |]. split; [reflexivity |].
    destruct (w2m_bs100k b =? 0); destruct Hfl as [Ha Hf];
      rewrite Ha, Hf, ?A1, ?F1, ?Ef; split; reflexivity.
Qed.

Lemma mux_consume_effect (st st' : mux_st) (b : w2m_blk) :
  mux_consume isz st b = Ok st' ->
  exists st1,
    mux_emit isz st b = Ok st1
    /\ any st' = any st1 /\ finished st' = finished st1
    /\ consumed st' = b :: consumed st
    /\ reord st' = pqueue_pop (reord st)
    /\ reord_needed st' = mux_next_needed (reord_needed st) (w2m_id b).
Proof.
  intros Hc. destruct (mux_consume_needed isz st st' b Hc) as [Hneed Hcons].
  unfold mux_consume in Hc.
  destruct (mux_emit isz st b) as [st1 | e] eqn:Ee; cbn [bind] in Hc;
    [| discriminate Hc].
  exists st1. destruct (mux_emit_effect st st1 b Ee) as [Hr _].
  injection Hc as <-. cbn [any finished reord].
  rewrite Hr. repeat split; assumption || reflexivity.
Qed.

Lemma mux_consume_inv (st st' : mux_st) (b : w2m_blk) :
  inv st ->
  pushed b ->
  w2m_blk_id_eq (w2m_id b) (reord_needed st) = true ->
  mux_consume isz st b = Ok st' ->
  (any st' = true
   <-> exists sb, In sb (consumed st') /\ 1 <= w2m_bs100k sb <= 9)
  /\ (any st' = false -> finished st' = false ->
      reord_needed st' = mk_w2m_blk_nid 0 0 0)
  /\ (any st' = false -> finished st' = true ->
      reord_needed st' = mk_w2m_blk_nid 1 0 0
      /\ forall b0, published h junk fuel_of b0 ->
                    s2w_blk_id (w2w_id b0) <> 1).
Proof.
  intros [I1 [I2 [I3 _]]] Hp Heq Hc.
  destruct (mux_consume_effect st st' b Hc)
    as [st1 [Ee [Ha [Hf [Hcons [_ Hneed]]]]]].
  destruct (mux_emit_effect st st1 b Ee) as [_ [_ Hflags]].
  rewrite Ha, Hf, Hcons, Hneed. clear Ha Hf Hcons Hneed Hc st'.
  unfold w2m_blk_id_eq in Heq.
  apply andb_prop in Heq as [Heq E3]. apply andb_prop in Heq as [E1 E2].
  apply Z.eqb_eq in E1, E2, E3.
  assert (Hnone : any st = false ->
                  forall sb, In sb (consumed st) ->
                             ~ 1 <= w2m_bs100k sb <= 9).
  { intros Hfalse sb Hin Hr.
    assert (Ht : any st = true) by (apply I1; exists sb; split; assumption).
    congruence. }
  destruct (any st) eqn:Ea.
  - (* a valid stream was seen before *)
    assert (Ha1 : any st1 = true).
    { destruct (finished st); [apply Hflags |].
      destruct (w2m_bs100k b =? 0); apply Hflags. }
    rewrite Ha1. split; [| split; discriminate].
    split; [intros _ | reflexivity].
    destruct (proj1 I1 eq_refl) as [sb [Hin Hr]].
    exists sb. split; [right; exact Hin | exact Hr].
  - specialize (Hnone eq_refl).
    destruct (finished st) eqn:Ef.
    + (* the last stream has ended: nothing can be needed any more *)
      exfalso. destruct (I3 eq_refl eq_refl) as [Hn Hnot].
      rewrite Hn in E1. cbn in E1.
      destruct (pushed_one h junk fuel_of b Hp) as [b0 [Hp0 Hs0]].
      apply (Hnot b0 Hp0). congruence.
    + (* nothing was consumed yet: this is the stream-header sub-block *)
      rewrite (I2 eq_refl eq_refl) in E1 |- *. cbn in E1.
      destruct (pushed_zero h junk fuel_of Hids b Hp E1)
        as [b0 [Hp0 [Hh0 [Hbs [Hld Hlb]]]]].
      assert (Hge : 1 <= w2m_bs100k b) by (rewrite Hbs; apply Hh0).
      assert (Hnz : (w2m_bs100k b =? 0) = false) by (apply Z.eqb_neq; lia).
      rewrite Hnz in Hflags. destruct Hflags as [Ha1 Hf1].
      rewrite Ha1, Hf1. cbn [orb].
      unfold mux_next_needed. rewrite Hld, Hlb.
      destruct (Z.leb_spec (w2m_bs100k b) 9) as [Hle | Hgt].
      * split; [| split; discriminate].
        split; [intros _ | reflexivity].
        exists b. split; [left; reflexivity | lia].
      * assert (Hlt : (9 <? w2m_bs100k b) = true) by (apply Z.ltb_lt; lia).
        rewrite Hlt.
        split; [| split; [discriminate |]].
        -- split; [discriminate |].
           intros [sb [[<- | Hin] Hr]]; [lia |].
           destruct (Hnone sb Hin Hr).
        -- intros _ _. split; [reflexivity |].
           apply (published_after_bad_header h junk fuel_of Hids b0 Hp0 Hh0).
           rewrite <- Hbs. lia.
Qed.

Lemma mux_drain_from_inv (q : list w2m_blk) :
  forall st st',
    inv st ->
    (forall sb, In sb q -> pushed sb) ->
    mux_drain_from isz q st = Ok st' ->
    inv st'.
Proof.
  induction q as [| b q IH]; intros st st' Hinv Hq H; cbn [mux_drain_from] in H.
  - injection H as <-. exact Hinv.
  - destruct (w2m_blk_id_eq (w2m_id b) (reord_needed st)) eqn:E.
    + destruct (mux_consume isz st b) as [st1 | e] eqn:C; cbn [bind] in H;
        [| discriminate H].
      apply (IH st1 st'); [| intros sb Hsb; apply Hq; right; exact Hsb
                           | exact H].
      destruct (mux_consume_inv st st1 b Hinv (Hq b (or_introl eq_refl)) E C)
        as [J1 [J2 J3]].
      split; [exact J1 |]. split; [exact J2 |]. split; [exact J3 |].
      (* the queue only loses its head *)
      intros sb Hsb. destruct Hinv as [_ [_ [_ I4]]]. apply I4.
      destruct (mux_consume_effect st st1 b C) as [_ [_ [_ [_ [_ [Hr _]]]]]].
      rewrite Hr in Hsb.
      unfold pqueue_pop in Hsb. destruct (reord st); [destruct Hsb |].
      right. exact Hsb.
    + injection H as <-. exact Hinv.
Qed.

Lemma In_pqueue_insert {A : Type} (cmp : A -> A -> Z) (q : list A) (x y : A) :
  In y (pqueue_insert cmp q x) -> y = x \/ In y q.
Proof.
  induction q as [| z q IH]; cbn [pqueue_insert].
  - intros [<- | []]. left. reflexivity.
  - destruct (cmp x z <? 0).
    + intros [<- | Hin]; [left; reflexivity | right; exact Hin].
    + intros [<- | Hin]; [right; left; reflexivity |].
      destruct (IH Hin) as [-> | Hq]; [left; reflexivity |].
      right. right. exact Hq.
Qed.

Lemma In_merge (fetched : list w2m_blk) :
  forall (q : list w2m_blk) (y : w2m_blk),
    In y (fold_left (pqueue_insert w2m_blk_cmp) fetched q) ->
    In y fetched \/ In y q.
Proof.
  induction fetched as [| x fetched IH]; intros q y Hin; cbn [fold_left] in Hin.
  - right. exact Hin.
  - destruct (IH _ _ Hin) as [Hf | Hq]; [left; right; exact Hf |].
    destruct (In_pqueue_insert _ _ _ _ Hq) as [-> | Hq'];
      [left; left; reflexivity | right; exact Hq'].
Qed.

Lemma mux_turn_inv (st st' : mux_st) (q q' : w2m_q) (m m' : m2s_q) :
  inv st ->
  (forall sb, In sb (head q) -> pushed sb) ->
  mux_turn isz st q m = Ok (st', q', m') ->
  inv st'.
Proof.
  intros Hinv Hq H. unfold mux_turn in H.
  destruct (mux_drain isz (mux_merge st (head q))) as [st1 | e] eqn:Ed;
    cbn [bind] in H; [| discriminate H].
  injection H as <- _ _.
  unfold mux_drain in Ed.
  assert (Hall : forall sb, In sb (reord (mux_merge st (head q))) ->
                            pushed sb).
  { intros sb Hsb. cbn [mux_merge reord] in Hsb.
    destruct (In_merge _ _ _ Hsb) as [Hf | Hr]; [apply Hq; exact Hf |].
    destruct Hinv as [_ [_ [_ I4]]]. apply I4. exact Hr. }
  assert (Hm : inv (mux_merge st (head q))).
  { destruct Hinv as [I1 [I2 [I3 _]]].
    split; [exact I1 |]. split; [exact I2 |]. split; [exact I3 | exact Hall]. }
  exact (mux_drain_from_inv _ _ _ Hm Hall Ed).
Qed.

Lemma mux_loop_inv (ws : list wakeup) :
  forall (st st' : mux_st) (q q' : w2m_q) (m m' : m2s_q),
    inv st ->
    (forall w sb, In w ws -> In sb (wk_head w) -> pushed sb) ->
    mux_loop isz ws st q m = MuxEnded st' q' m' ->
    inv st'.
Proof.
  induction ws as [| w ws IH]; intros st st' q q' m m' Hinv Hws H;
    cbn [mux_loop] in H.
  - discriminate H.
  - assert (Hws' : forall w0 sb, In w0 ws -> In sb (wk_head w0) -> pushed sb)
      by (intros w0 sb Hw0; apply Hws; right; exact Hw0).
    match type of H with
    | context [if mux_can_proceed ?q1 then _ else _] =>
        destruct (mux_can_proceed q1);
        [destruct (mux_turn isz st q1 m) as [[[st1 q2] m2] | e] eqn:Et |]
    end.
    + assert (Hinv1 : inv st1).
      { refine (mux_turn_inv _ _ _ _ _ _ Hinv _ Et).
        cbn [head]. intros sb Hsb.
        apply (Hws w sb (or_introl eq_refl) Hsb). }
      destruct (0 <? wk_working w).
      * apply (IH _ _ _ _ _ _ Hinv1 Hws' H).
      * injection H as <- _ _. exact Hinv1.
    + discriminate H.
    + apply (IH _ _ _ _ _ _ Hinv Hws' H).
Qed.

Lemma mux_init_inv : inv mux_init.
Proof.
  split; [| split; [| split]].
  - split; [discriminate | intros [sb [[] _]]].
  - reflexivity.
  - discriminate.
  - intros sb [].
Qed.

Lemma mux_finish_fatal (st : mux_st) :
  mux_finish isz st = Fatal NotValidBzip2 <-> any st = false.
Proof.
  unfold mux_finish. destruct (any st); cbn [negb].
  - destruct (negb (finished st)); split; discriminate.
  - split; reflexivity.
Qed.

(** With nothing pushed, the muxer stays in its initial state until the
    workers are gone; then it dies of "not a valid bzip2 file". *)
Lemma mux_loop_idle (ws : list wakeup) :
  forall (q : w2m_q) (m : m2s_q),
    (forall w, In w ws -> wk_head w = []) ->
    (exists w, In w ws /\ wk_working w = 0) ->
    exists q' m', mux_loop isz ws mux_init q m = MuxEnded mux_init q' m'.
Proof.
  induction ws as [| w ws IH]; intros q m Hhd [w0 [Hin Hw0]].
  - destruct Hin.
  - cbn [mux_loop]. rewrite (Hhd w (or_introl eq_refl)).
    unfold mux_turn, mux_drain, mux_merge. cbn [head fold_left reord].
    cbn [mux_drain_from bind].
    assert (Hrest : forall w1, In w1 ws -> wk_head w1 = [])
      by (intros w1 Hw1; apply Hhd; right; exact Hw1).
    unfold mux_can_proceed. cbn [head working num_rel pqueue_empty negb orb].
    destruct (Z.eqb_spec (wk_working w) 0) as [Ez | Enz]; cbn [orb].
    + rewrite Ez. cbn. eexists. eexists. reflexivity.
    + destruct Hin as [<- | Hin]; [contradiction |].
      destruct (0 <? wk_num_rel w).
      * destruct (0 <? wk_working w); [| eexists; eexists; reflexivity].
        apply IH; [exact Hrest | exists w0; split; assumption].
      * apply IH; [exact Hrest | exists w0; split; assumption].
Qed.

End MuxVerdict.



(** The splitter on a 0-byte input: nothing to publish, end of input. *)
Lemma split_empty_input (D : Type) (num_worker num_slot : Z) :
  0 < num_slot ->
  exists l w,
    split (YBdec_t := D) num_worker num_slot [] = Some (l, w)
    /\ w_heap w = []
    /\ eof (w_sw2w w) = true
    /\ next_scan (w_sw2w w) = None
    /\ deco_q (w_sw2w w) = [].
Proof.
  intros Hs. unfold split. cbn [length split_loop].
  unfold split_turn. cbn [w_m2s m2s_q_init num_free split_begin sp_input].
  assert (Hnz : (num_slot =? 0) = false) by (apply Z.eqb_neq; lia).
  rewrite Hnz.
  assert (Hf : split_fill [] = ([], [], MX_SPLIT)) by (vm_compute; reflexivity).
  rewrite Hf. unfold split_alloc. rewrite Z.eqb_refl.
  cbn [w_heap w_sw2w sw2w_q_init next_scan atch_scan deco_q pqueue_empty].
  assert (Hm : (MX_SPLIT =? 0) = false) by reflexivity.
  rewrite Hm. eexists. eexists. split; [reflexivity |].
  cbn. repeat split; reflexivity.
Qed.

(** ** Workers with nothing to do *)

(** After the end of input, with nothing to scan and nothing to decode, a
    turn of [work_get_first] hands out no work: the worker leaves when no
    scan is running, and waits otherwise. *)
Lemma work_get_first_after_eof {D : Type} (loop_ : bool) (q : sw2w_q D) :
  next_scan q = None ->
  deco_q q = [] ->
  eof q = true ->
  (scanning q = 0 -> exists q', work_get_first_turn loop_ q = GfExit q')
  /\ (scanning q <> 0 -> work_get_first_turn loop_ q = GfWait q).
Proof.
  intros Hn Hd He. unfold work_get_first_turn. rewrite Hn, Hd, He.
  cbn [pqueue_peek hd_error andb]. split.
  - intros Hs. rewrite Hs. cbn. eexists. reflexivity.
  - intros Hs. apply Z.eqb_neq in Hs. rewrite Hs. reflexivity.
Qed.

Lemma nothing_pushed_without_chunks {D : Type} {dec : YBdec D}
    {tab : scantab} (junk : Z) (fuel_of : s2w_blk -> nat) (sb : w2m_blk) :
  ~ pushed [] junk fuel_of sb.
Proof. intros [b [fuel [Hp _]]]. destruct Hp. Qed.

(** C8.  After the muxer's loop has ended, the program dies of "not a valid
    bzip2 file" if and only if no sub-block carrying a new stream's bs100k
    between 1 and 9 was consumed, whatever the workers pushed of what the
    scanners published and in whatever batches the muxer found it.  A
    0-byte input reaches this error: the splitter publishes no chunk, so
    nothing is ever pushed, and once the workers are gone the muxer ends
    its loop in its initial state. *)
Theorem mux_not_valid_verdict :
  forall (D : Type) (dec : YBdec D) (tab : scantab) (isz : Z)
         (h : chunk_heap) (junk : Z) (fuel_of : s2w_blk -> nat)
         (num_worker num_slot : Z) (ws : list wakeup)
         (st : mux_st) (q : w2m_q) (m : m2s_q),
    chunk_ids h ->
    (forall w sb, In w ws -> In sb (wk_head w) -> pushed h junk fuel_of sb) ->
    mux_loop isz ws mux_init (w2m_q_init num_worker) (m2s_q_init num_slot)
      = MuxEnded st q m ->
    (mux isz num_worker num_slot ws = MuxFatal NotValidBzip2
     <-> forall sb, In sb (consumed st) -> ~ 1 <= w2m_bs100k sb <= 9)
    /\ fatal_msg NotValidBzip2 = "not a valid bzip2 file"%string
    /\ (0 < num_slot ->
        exists l w,
          split (YBdec_t := D) num_worker num_slot [] = Some (l, w)
          /\ w_heap w = []
          /\ (forall sb, ~ pushed (w_heap w) junk fuel_of sb)
          /\ forall ws0,
               idle_wakeups ws0 ->
               mux isz num_worker num_slot ws0 = MuxFatal NotValidBzip2).
Proof.
  intros D dec tab isz h junk fuel_of num_worker num_slot ws st q m
    Hids Hws Hloop.
  split; [| split; [reflexivity |]].
  - pose proof (mux_loop_inv isz h junk fuel_of Hids ws _ _ _ _ _ _
                  (mux_init_inv h junk fuel_of) Hws Hloop) as [I1 _].
    unfold mux. rewrite Hloop.
    assert (Hfin : mux_finish isz st = Fatal NotValidBzip2
                   <-> forall sb, In sb (consumed st) ->
                                  ~ 1 <= w2m_bs100k sb <= 9).
    { rewrite mux_finish_fatal. split.
      - intros Hfalse sb Hin Hr.
        assert (any st = true) by (apply I1; exists sb; split; assumption).
        congruence.
      - intros Hnone. destruct (any st) eqn:Ea; [| reflexivity].
        destruct (proj1 I1 eq_refl) as [sb [Hin Hr]].
        destruct (Hnone sb Hin Hr). }
    destruct (mux_finish isz st) as [st' | e] eqn:Ef.
    + split; [discriminate |]. intros Hnone.
      apply Hfin in Hnone. discriminate Hnone.
    + split.
      * intros He. injection He as ->. apply Hfin. reflexivity.
      * intros Hnone. apply Hfin in Hnone. injection Hnone as ->.
        reflexivity.
  - intros Hslot.
    destruct (split_empty_input D num_worker num_slot Hslot)
      as [l [w [Hsp [Hh _]]]].
    exists l, w. split; [exact Hsp |]. split; [exact Hh |].
    split; [rewrite Hh; intros sb; apply nothing_pushed_without_chunks |].
    intros ws0 [Hhd Hgone].
    destruct (mux_loop_idle isz ws0 (w2m_q_init num_worker)
                (m2s_q_init num_slot) Hhd Hgone) as [q' [m' Hl]].
    unfold mux. rewrite Hl. reflexivity.
Qed.

(** C8, witness: a muxer that finds the stream-header sub-block of the
    16-byte sample, all workers gone. *)
Lemma mux_not_valid_verdict_witness :
  mux 16 1 1 sample_wakeups <> MuxFatal NotValidBzip2.
Proof.
  destruct (mux_loop 16 sample_wakeups mux_init (w2m_q_init 1) (m2s_q_init 1))
    as [st q m | e | st q m] eqn:E;
    [| vm_compute in E; discriminate E | vm_compute in E; discriminate E].
  destruct (mux_not_valid_verdict unit rejecting_decoder sample_scantab 16
              [sample_chunk] 0 (fun _ => 8%nat) 1 1 sample_wakeups st q m)
    as [H _].
  - intros i c Hi. destruct i as [| i]; cbn in Hi.
    + injection Hi as <-. reflexivity.
    + destruct i; discriminate Hi.
  - intros w sb [<- | []] [<- | []].
    exists sample_header_block, 0%nat. split.
    + vm_compute. left. reflexivity.
    + left. reflexivity.
  - exact E.
  - intros Hf. pose proof (proj1 H Hf) as Hn.
    vm_compute in E. injection E as <- _ _.
    apply (Hn (header_sub_block 9)); [left; reflexivity |].
    vm_compute. split; discriminate.
Defined.

(* ================================================================== *)
(** * Part III: further properties of the code *)
(* ================================================================== *)

(** ** The muxer: facts that hold along its loop *)

Section MuxInvariant.

Variable isz : Z.
Variable P : mux_st -> Prop.

(** [P] does not look at the reordering queue, and a turn of the inner loop
    keeps it. *)
Hypothesis P_reord :
  forall st r,
    P st ->
    P (mk_mux_st r (reord_needed st) (bs100k st) (crc st) (any st)
         (finished st) (last_offs st) (written st) (progr st) (consumed st)).
Hypothesis P_consume :
  forall st b st',
    P st ->
    w2m_blk_id_eq (w2m_id b) (reord_needed st) = true ->
    mux_consume isz st b = Ok st' ->
    P st'.

Lemma mux_drain_from_keeps (q : list w2m_blk) :
  forall st st', P st -> mux_drain_from isz q st = Ok st' -> P st'.
Proof.
  induction q as [| b q IH]; intros st st' HP H; cbn [mux_drain_from] in H.
  - injection H as <-. exact HP.
  - destruct (w2m_blk_id_eq (w2m_id b) (reord_needed st)) eqn:Eq.
    + destruct (mux_consume isz st b) as [st1 | e] eqn:Ec; cbn [bind] in H;
        [| discriminate H].
      apply (IH st1 st' (P_consume st b st1 HP Eq Ec) H).
    + injection H as <-. exact HP.
Qed.

Lemma mux_turn_keeps (st st' : mux_st) (q q' : w2m_q) (m m' : m2s_q) :
  P st -> mux_turn isz st q m = Ok (st', q', m') -> P st'.
Proof.
  intros HP H. unfold mux_turn in H.
  destruct (mux_drain isz (mux_merge st (head q))) as [st1 | e] eqn:Ed;
    cbn [bind] in H; [| discriminate H].
  injection H as <- _ _.
  unfold mux_drain in Ed.
  apply (mux_drain_from_keeps _ _ _ (P_reord st _ HP) Ed).
Qed.

Lemma mux_loop_keeps (ws : list wakeup) :
  forall (st st' : mux_st) (q q' : w2m_q) (m m' : m2s_q),
    P st ->
    mux_loop isz ws st q m = MuxEnded st' q' m'
    \/ mux_loop isz ws st q m = MuxWaiting st' q' m' ->
    P st'.
Proof.
  induction ws as [| w ws IH]; intros st st' q q' m m' HP H;
    cbn [mux_loop] in H.
  - destruct H as [H | H]; [discriminate H |]. injection H as <- _ _.
    exact HP.
  - destruct (mux_can_proceed _); [| apply (IH _ _ _ _ _ _ HP H)].
    destruct (mux_turn isz st _ m) as [[[st1 q1] m1] | e] eqn:Et;
      [| destruct H as [H | H]; discriminate H].
    pose proof (mux_turn_keeps _ _ _ _ _ _ HP Et) as HP1.
    destruct (0 <? wk_working w); [apply (IH _ _ _ _ _ _ HP1 H) |].
    destruct H as [H | H]; [| discriminate H]. injection H as <- _ _.
    exact HP1.
Qed.

End MuxInvariant.

(** ** The muxer: the order of consumption *)

Lemma needed_after_snoc (n : w2m_blk_nid) (bs : list w2m_blk) (b : w2m_blk) :
  needed_after n (bs ++ [b]) = mux_next_needed (needed_after n bs) (w2m_id b).
Proof. unfold needed_after. rewrite fold_left_app. reflexivity. Qed.

Lemma in_needed_order_snoc (bs : list w2m_blk) :
  forall (n : w2m_blk_nid) (b : w2m_blk),
    in_needed_order n (bs ++ [b])
    = in_needed_order n bs && w2m_blk_id_eq (w2m_id b) (needed_after n bs).
Proof.
  induction bs as [| a bs IH]; intros n b; cbn [app in_needed_order].
  - cbn. rewrite andb_true_r. reflexivity.
  - rewrite IH. rewrite andb_assoc. reflexivity.
Qed.

(** X: the muxer consumes in the order of the triple. *)
Theorem mux_consumes_in_needed_order :
  forall (isz num_worker num_slot : Z) (ws : list wakeup)
         (st : mux_st) (q : w2m_q) (m : m2s_q),
    mux_loop isz ws mux_init (w2m_q_init num_worker) (m2s_q_init num_slot)
      = MuxEnded st q m
    \/ mux_loop isz ws mux_init (w2m_q_init num_worker) (m2s_q_init num_slot)
       = MuxWaiting st q m ->
    in_needed_order (mk_w2m_blk_nid 0 0 0) (rev (consumed st)) = true
    /\ reord_needed st
       = needed_after (mk_w2m_blk_nid 0 0 0) (rev (consumed st)).
Proof.
  intros isz nw ns ws st q m H.
  refine (mux_loop_keeps isz
            (fun st =>
               in_needed_order (mk_w2m_blk_nid 0 0 0) (rev (consumed st))
               = true
               /\ reord_needed st
                  = needed_after (mk_w2m_blk_nid 0 0 0) (rev (consumed st)))
            _ _ ws mux_init st _ q _ m _ H).
  - intros st0 r HP. exact HP.
  - intros st0 b st1 [Ho Hn] Heq Hc.
    destruct (mux_consume_needed _ _ _ _ Hc) as [Hn1 Hc1].
    rewrite Hc1. cbn [rev].
    rewrite in_needed_order_snoc, needed_after_snoc, Ho, <- Hn, Heq, Hn1.
    split; reflexivity.
  - split; reflexivity.
Qed.

Lemma mux_consumes_in_needed_order_witness :
  exists st q m,
    mux_loop 16 sample_run mux_init (w2m_q_init 1) (m2s_q_init 1)
      = MuxEnded st q m
    /\ in_needed_order (mk_w2m_blk_nid 0 0 0) (rev (consumed st)) = true
    /\ reord_needed st = mk_w2m_blk_nid 2 0 0.
Proof.
  destruct (mux_loop 16 sample_run mux_init (w2m_q_init 1) (m2s_q_init 1))
    as [st q m | e | st q m] eqn:E; try (vm_compute in E; discriminate E).
  exists st, q, m. split; [reflexivity |].
  destruct (mux_consumes_in_needed_order 16 1 1 sample_run st q m
              (or_introl E)) as [Ho Hn].
  split; [exact Ho |]. rewrite Hn.
  vm_compute in E. injection E as <- _ _. vm_compute. reflexivity.
Defined.

(** ** The muxer: what it writes *)

Lemma until_finished_snoc (bs : list w2m_blk) (b : w2m_blk) :
  until_finished (bs ++ [b])
  = if existsb ends_last_stream bs then until_finished bs
    else until_finished bs ++ [b].
Proof.
  induction bs as [| a bs IH]; cbn [app until_finished existsb].
  - destruct (ends_last_stream b); reflexivity.
  - destruct (ends_last_stream a); cbn [orb]; [reflexivity |].
    rewrite IH. destruct (existsb ends_last_stream bs); reflexivity.
Qed.

Lemma mux_block_end_written (st st' : mux_st) (b : w2m_blk) :
  mux_block_end st b = Ok st' ->
  written st' = written st /\ progr st' = progr st
  /\ last_offs st' = last_offs st.
Proof.
  unfold mux_block_end.
  destruct (last_decompr (w2m_id b));
    [destruct (bs100k st <? bs100k1 b); [discriminate |] |];
    intros H; injection H as <-; repeat split; reflexivity.
Qed.

Lemma mux_stream_end_written (st st' : mux_st) (b : w2m_blk) :
  mux_stream_end st b = Ok st' ->
  written st' = written st /\ progr st' = progr st
  /\ last_offs st' = last_offs st.
Proof.
  unfold mux_stream_end.
  destruct (w2m_bs100k b =? 0);
    [| destruct (negb (crc st =? w2m_crc b)); [discriminate |]];
    intros H; injection H as <-; repeat split; reflexivity.
Qed.

Lemma mux_xwrite_effect (st : mux_st) (b : w2m_blk) :
  written (mux_xwrite st b) = written st ++ payload b
  /\ finished (mux_xwrite st b) = finished st
  /\ progr (mux_xwrite st b) = progr st
  /\ last_offs (mux_xwrite st b) = last_offs st.
Proof.
  unfold mux_xwrite, payload. destruct (0 <? produced b);
    cbn [written finished progr last_offs]; rewrite ?app_nil_r;
    repeat split; reflexivity.
Qed.

Lemma mux_progress_written (isz : Z) (st : mux_st) (b : w2m_blk) :
  written (mux_progress isz st b) = written st
  /\ finished (mux_progress isz st b) = finished st.
Proof.
  unfold mux_progress. destruct (finished st) eqn:Ef;
    [| destruct (last_decompr (w2m_id b) && (last_offs st <? w2m_end_offs b))];
    cbn [written finished]; rewrite ?Ef; split; reflexivity.
Qed.

Lemma ends_last_stream_nonzero (b : w2m_blk) :
  w2m_bs100k b = 0 -> ends_last_stream b = false.
Proof. intros H. unfold ends_last_stream. rewrite H. reflexivity. Qed.

(** What [mux_emit] writes, and when it turns [finished] on. *)
Lemma mux_emit_written (isz : Z) (st st' : mux_st) (b : w2m_blk) :
  mux_emit isz st b = Ok st' ->
  written st'
  = (if finished st then written st else written st ++ payload b)
  /\ finished st' = finished st || ends_last_stream b.
Proof.
  unfold mux_emit. destruct (finished st) eqn:Ef.
  - intros H. injection H as <-. rewrite Ef. split; reflexivity.
  - destruct (mux_block_end st b) as [st1 | e] eqn:E1; cbn [bind];
      [| discriminate].
    destruct (mux_stream_end st1 b) as [st2 | e] eqn:E2; cbn [bind];
      [| discriminate].
    intros H. injection H as <-.
    destruct (mux_block_end_written _ _ _ E1) as [W1 _].
    destruct (mux_block_end_frame _ _ _ E1) as [_ [_ [_ F1]]].
    destruct (mux_stream_end_written _ _ _ E2) as [W2 _].
    destruct (mux_stream_end_effect _ _ _ E2) as [_ [_ Hfl]].
    destruct (mux_progress_written isz (mux_xwrite st2 b) b) as [W3 F3].
    destruct (mux_xwrite_effect st2 b) as [W4 [F4 _]].
    rewrite W3, F3, W4, F4, W2, W1. split; [reflexivity |].
    cbn [orb]. destruct (Z.eqb_spec (w2m_bs100k b) 0) as [Ez | Ez];
      destruct Hfl as [_ Hf]; rewrite Hf.
    + rewrite F1, Ef. symmetry. apply ends_last_stream_nonzero. exact Ez.
    + reflexivity.
Qed.

Lemma mux_consume_written (isz : Z) (st st' : mux_st) (b : w2m_blk) :
  mux_consume isz st b = Ok st' ->
  written st'
  = (if finished st then written st else written st ++ payload b)
  /\ finished st' = finished st || ends_last_stream b
  /\ consumed st' = b :: consumed st.
Proof.
  intros H. unfold mux_consume in H.
  destruct (mux_emit isz st b) as [st1 | e] eqn:Ee; cbn [bind] in H;
    [| discriminate H].
  injection H as <-. cbn [written finished consumed].
  destruct (mux_emit_written _ _ _ _ Ee) as [Hw Hf].
  destruct (mux_emit_effect _ _ _ _ Ee) as [_ [Hc _]].
  rewrite Hw, Hf, Hc. repeat split; reflexivity.
Qed.

(** X: the output is the data of the sub-blocks in the order of
    consumption, up to the end of the last stream. *)
Theorem mux_writes_in_order :
  forall (isz num_worker num_slot : Z) (ws : list wakeup)
         (st : mux_st) (q : w2m_q) (m : m2s_q),
    mux_loop isz ws mux_init (w2m_q_init num_worker) (m2s_q_init num_slot)
      = MuxEnded st q m
    \/ mux_loop isz ws mux_init (w2m_q_init num_worker) (m2s_q_init num_slot)
       = MuxWaiting st q m ->
    written st = flat_map payload (until_finished (rev (consumed st)))
    /\ finished st = existsb ends_last_stream (rev (consumed st)).
Proof.
  intros isz nw ns ws st q m H.
  refine (mux_loop_keeps isz
            (fun st =>
               written st
               = flat_map payload (until_finished (rev (consumed st)))
               /\ finished st = existsb ends_last_stream (rev (consumed st)))
            _ _ ws mux_init st _ q _ m _ H).
  - intros st0 r HP. exact HP.
  - intros st0 b st1 [Hw Hf] _ Hc.
    destruct (mux_consume_written _ _ _ _ Hc) as [Hw1 [Hf1 Hc1]].
    rewrite Hw1, Hf1, Hc1. cbn [rev].
    rewrite until_finished_snoc, existsb_app, <- Hf. cbn [existsb].
    rewrite orb_false_r.
    destruct (finished st0); [split; [exact Hw | reflexivity] |].
    rewrite flat_map_app. cbn [flat_map]. rewrite app_nil_r, Hw.
    split; reflexivity.
  - split; reflexivity.
Qed.

Lemma mux_writes_in_order_witness :
  exists st q m,
    mux_loop 16 sample_run mux_init (w2m_q_init 1) (m2s_q_init 1)
      = MuxEnded st q m
    /\ written st
       = [Byte.x68; Byte.x65; Byte.x6c; Byte.x6c; Byte.x6f; Byte.x0a].
Proof.
  destruct (mux_loop 16 sample_run mux_init (w2m_q_init 1) (m2s_q_init 1))
    as [st q m | e | st q m] eqn:E; try (vm_compute in E; discriminate E).
  exists st, q, m. split; [reflexivity |].
  destruct (mux_writes_in_order 16 1 1 sample_run st q m (or_introl E))
    as [Hw _].
  rewrite Hw. vm_compute in E. injection E as <- _ _. reflexivity.
Defined.

(** ** The muxer: the progress meter *)

Lemma uintmax_add_sub (total from to : Z) :
  uintmax total = uintmax from ->
  uintmax (uintmax (to - from) + total) = uintmax to.
Proof.
  unfold uintmax. intros H.
  rewrite Zplus_mod_idemp_l, Zplus_mod, H, <- Zplus_mod.
  f_equal. lia.
Qed.

Lemma uintmax_idem (x : Z) : uintmax (uintmax x) = uintmax x.
Proof. unfold uintmax. apply Zmod_mod. Qed.

Lemma size_words_range (isz : Z) :
  uintmax (uintmax (isz + 3) / 4) = uintmax (isz + 3) / 4.
Proof.
  apply uintmax_small. unfold uintmax.
  pose proof (Z.mod_pos_bound (isz + 3) (2 ^ 64) ltac:(lia)) as Hb.
  split; [apply Z.div_pos; lia |].
  apply Z.div_lt_upper_bound; lia.
Qed.

Lemma mux_progress_sound (isz : Z) (st : mux_st) (b : w2m_blk) :
  uintmax (progress_total (progr st)) = uintmax (last_offs st) ->
  progress_sound isz (mux_progress isz st b).
Proof.
  intros H. unfold progress_sound, mux_progress.
  destruct (finished st) eqn:Ef.
  - cbn [progr finished]. rewrite ?Ef. cbn [progress_total fold_right].
    fold (progress_total (progr st)).
    rewrite (uintmax_add_sub _ _ _ H). apply size_words_range.
  - destruct (last_decompr (w2m_id b) && (last_offs st <? w2m_end_offs b)).
    + cbn [progr finished last_offs]. rewrite ?Ef.
      cbn [progress_total fold_right]. fold (progress_total (progr st)).
      apply (uintmax_add_sub _ _ _ H).
    + rewrite Ef. exact H.
Qed.

Lemma mux_emit_progress (isz : Z) (st st' : mux_st) (b : w2m_blk) :
  progress_sound isz st ->
  mux_emit isz st b = Ok st' ->
  progress_sound isz st'.
Proof.
  intros HP. unfold mux_emit. destruct (finished st) eqn:Ef.
  - intros H. injection H as <-. exact HP.
  - destruct (mux_block_end st b) as [st1 | e] eqn:E1; cbn [bind];
      [| discriminate].
    destruct (mux_stream_end st1 b) as [st2 | e] eqn:E2; cbn [bind];
      [| discriminate].
    intros H. injection H as <-.
    destruct (mux_block_end_written _ _ _ E1) as [_ [P1 L1]].
    destruct (mux_stream_end_written _ _ _ E2) as [_ [P2 L2]].
    destruct (mux_xwrite_effect st2 b) as [_ [_ [P4 L4]]].
    apply mux_progress_sound. rewrite P4, L4, P2, L2, P1, L1.
    unfold progress_sound in HP. rewrite Ef in HP. exact HP.
Qed.

Lemma mux_consume_progress (isz : Z) (st st' : mux_st) (b : w2m_blk) :
  progress_sound isz st ->
  mux_consume isz st b = Ok st' ->
  progress_sound isz st'.
Proof.
  intros HP H. unfold mux_consume in H.
  destruct (mux_emit isz st b) as [st1 | e] eqn:Ee; cbn [bind] in H;
    [| discriminate H].
  injection H as <-. apply (mux_emit_progress _ _ _ _ HP Ee).
Qed.

(** X: the progress meter is told, in all, the size of the input in
    words. *)
Theorem mux_progress_adds_up :
  forall (isz num_worker num_slot : Z) (ws : list wakeup)
         (st : mux_st) (q : w2m_q) (m : m2s_q),
    mux isz num_worker num_slot ws = MuxEnded st q m ->
    uintmax (progress_total (progr st)) = uintmax (isz + 3) / 4.
Proof.
  intros isz nw ns ws st q m H. unfold mux in H.
  destruct (mux_loop isz ws mux_init (w2m_q_init nw) (m2s_q_init ns))
    as [st0 q0 m0 | e | st0 q0 m0] eqn:El; try discriminate H.
  assert (HP : progress_sound isz st0).
  { refine (mux_loop_keeps isz (progress_sound isz) _ _ ws mux_init st0 _ q0
              _ m0 _ (or_introl El)).
    - intros st1 r HP1. exact HP1.
    - intros st1 b st2 HP1 _ Hc. apply (mux_consume_progress _ _ _ _ HP1 Hc).
    - reflexivity. }
  unfold mux_finish in H. destruct (negb (any st0)); [discriminate H |].
  unfold progress_sound in HP.
  destruct (finished st0) eqn:Ef; cbn [negb] in H; injection H as <- _ _.
  - exact HP.
  - cbn [progr progress_total fold_right]. fold (progress_total (progr st0)).
    rewrite (uintmax_add_sub _ _ _ HP). apply size_words_range.
Qed.

Lemma mux_progress_adds_up_witness :
  exists st q m,
    mux 16 1 1 sample_run = MuxEnded st q m
    /\ uintmax (progress_total (progr st)) = uintmax (16 + 3) / 4.
Proof.
  destruct (mux 16 1 1 sample_run) as [st q m | e | st q m] eqn:E;
    try (vm_compute in E; discriminate E).
  exists st, q, m. split; [reflexivity |].
  exact (mux_progress_adds_up 16 1 1 sample_run st q m E).
Defined.

(** ** The muxer: after the last stream *)

Lemma mux_drain_from_finished (isz : Z) (q : list w2m_blk) :
  forall st,
    finished st = true ->
    exists st',
      mux_drain_from isz q st = Ok st'
      /\ finished st' = true
      /\ written st' = written st
      /\ progr st' = progr st
      /\ any st' = any st.
Proof.
  induction q as [| b q IH]; intros st Hf; cbn [mux_drain_from].
  - exists st. repeat split; [exact Hf].
  - destruct (w2m_blk_id_eq (w2m_id b) (reord_needed st)).
    + unfold mux_consume, mux_emit. rewrite Hf. cbn [bind].
      match goal with
      | |- context [mux_drain_from isz q ?s] =>
          destruct (IH s Hf) as [st' [Hd [Hf' [Hw [Hp Ha]]]]]
      end.
      exists st'. split; [exact Hd |]. split; [exact Hf' |].
      split; [exact Hw |]. split; [exact Hp | exact Ha].
    + exists st. repeat split; exact Hf.
Qed.

(** X: once the last stream has ended, whatever the workers still push is
    consumed without a write, without a report to the progress meter and
    without a fatal error. *)
Theorem mux_ignores_trailing_garbage :
  forall (isz : Z) (ws : list wakeup) (st : mux_st) (q : w2m_q) (m : m2s_q),
    finished st = true ->
    exists st' q' m',
      (mux_loop isz ws st q m = MuxEnded st' q' m'
       \/ mux_loop isz ws st q m = MuxWaiting st' q' m')
      /\ finished st' = true
      /\ written st' = written st
      /\ progr st' = progr st
      /\ any st' = any st.
Proof.
  intros isz ws. induction ws as [| w ws IH]; intros st q m Hf;
    cbn [mux_loop].
  - exists st, q, m. split; [right; reflexivity |]. repeat split; exact Hf.
  - destruct (mux_can_proceed _); [| apply (IH st q m Hf)].
    unfold mux_turn, mux_drain.
    destruct (mux_drain_from_finished isz
                (reord (mux_merge st (wk_head w))) (mux_merge st (wk_head w))
                Hf) as [st1 [Hd [Hf1 [Hw1 [Hp1 Ha1]]]]].
    cbn [head num_rel working w2m_signals needed]. rewrite Hd. cbn [bind].
    cbn [written progr any mux_merge] in Hw1, Hp1, Ha1.
    destruct (0 <? wk_working w).
    + match goal with
      | |- context [mux_loop isz ws st1 ?q1 ?m1] =>
          destruct (IH st1 q1 m1 Hf1) as [st' [q' [m' [Hl [Hf' [Hw [Hp Ha]]]]]]]
      end.
      exists st', q', m'. split; [exact Hl |]. split; [exact Hf' |].
      split; [congruence |]. split; congruence.
    + eexists. eexists. eexists. split; [left; reflexivity |].
      split; [exact Hf1 |]. split; [exact Hw1 |]. split; assumption.
Qed.

Lemma mux_ignores_trailing_garbage_witness :
  exists st' q' m',
    mux_loop 16 [mk_wakeup [garbage_sub_block] 0 0] mux_after_stream
      (w2m_q_init 1) (m2s_q_init 1) = MuxEnded st' q' m'
    /\ written st' = written mux_after_stream
    /\ consumed st' = garbage_sub_block :: consumed mux_after_stream.
Proof.
  destruct (mux_ignores_trailing_garbage 16 [mk_wakeup [garbage_sub_block] 0 0]
              mux_after_stream (w2m_q_init 1) (m2s_q_init 1) eq_refl)
    as [st' [q' [m' [[Hl | Hl] [_ [Hw _]]]]]].
  - exists st', q', m'. split; [exact Hl |]. split; [exact Hw |].
    vm_compute in Hl. injection Hl as <- _ _. reflexivity.
  - vm_compute in Hl. discriminate Hl.
Defined.

(** ** The comparison functions of the two priority queues *)

Ltac cmp_cases :=
  repeat match goal with
    | |- context [?a <? ?b] => destruct (Z.ltb_spec a b)
    | H : context [?a <? ?b] |- _ => destruct (Z.ltb_spec a b)
    | |- context [?a =? ?b] => destruct (Z.eqb_spec a b)
    | H : context [?a =? ?b] |- _ => destruct (Z.eqb_spec a b)
    end.

Ltac cmp_solve :=
  intros;
  try match goal with
    | H : mk_w2m_blk_nid _ _ _ = mk_w2m_blk_nid _ _ _ |- _ =>
        injection H as ? ? ?
    | H : mk_w2w_blk_id _ _ _ = mk_w2w_blk_id _ _ _ |- _ =>
        injection H as ? ? ?
    | H : _ /\ _ |- _ => destruct H
    end;
  cmp_cases; cbn [andb] in *;
  first [ reflexivity | lia | discriminate
        | left; reflexivity | right; left; reflexivity
        | right; right; reflexivity
        | f_equal; lia
        | split; lia ].

(** X: [w2m_blk_cmp] is a total order on the triples that name sub-blocks,
    and two sub-blocks compare equal exactly when [w2m_blk_id_eq] takes the
    one for the triple of the other. *)
Theorem w2m_blk_cmp_total_order :
  forall x y z : w2m_blk,
    (w2m_blk_cmp x y = -1 \/ w2m_blk_cmp x y = 0 \/ w2m_blk_cmp x y = 1)
    /\ w2m_blk_cmp y x = - w2m_blk_cmp x y
    /\ (w2m_blk_cmp x y = 0
        <-> w2m_blk_id_eq (w2m_id x) (w2m_blk_nid_of (w2m_id y)) = true)
    /\ (w2m_blk_cmp x y = 0 <-> w2m_blk_nid_of (w2m_id x)
                                = w2m_blk_nid_of (w2m_id y))
    /\ (w2m_blk_cmp x y = -1 -> w2m_blk_cmp y z = -1 ->
        w2m_blk_cmp x z = -1)
    /\ (w2m_blk_cmp x y = 0 -> w2m_blk_cmp x z = w2m_blk_cmp y z).
Proof.
  intros [[[xa xb xl] xc xd] ? ? ? ? ? ? ?] [[[ya yb yl] yc yd] ? ? ? ? ? ? ?]
         [[[za zb zl] zc zd] ? ? ? ? ? ? ?].
  unfold w2m_blk_cmp, w2m_blk_id_eq, w2m_blk_nid_of.
  cbn [w2m_id w2w_id_of s2w_blk_id bzip2_blk_id decompr_blk_id
       nid_s2w_blk_id nid_bzip2_blk_id nid_decompr_blk_id].
  split; [cmp_solve |]. split; [cmp_solve |].
  split; [split; cmp_solve |]. split; [split; cmp_solve |].
  split; cmp_solve.
Qed.

(** X: [w2w_blk_cmp] is a total order on the chunk and block numbers of
    compressed blocks; it looks at nothing else, and puts the decoderless
    block before every block of a chunk. *)
Theorem w2w_blk_cmp_total_order :
  forall (D : Type) (x y z : w2w_blk D),
    (w2w_blk_cmp x y = -1 \/ w2w_blk_cmp x y = 0 \/ w2w_blk_cmp x y = 1)
    /\ w2w_blk_cmp y x = - w2w_blk_cmp x y
    /\ (w2w_blk_cmp x y = 0
        <-> s2w_blk_id (w2w_id x) = s2w_blk_id (w2w_id y)
            /\ bzip2_blk_id (w2w_id x) = bzip2_blk_id (w2w_id y))
    /\ (w2w_blk_cmp x y = -1 -> w2w_blk_cmp y z = -1 ->
        w2w_blk_cmp x z = -1)
    /\ (w2w_blk_cmp x y = 0 -> w2w_blk_cmp x z = w2w_blk_cmp y z)
    /\ (w2w_id x = mk_w2w_blk_id 0 0 true -> 1 <= s2w_blk_id (w2w_id y) ->
        w2w_blk_cmp x y = -1).
Proof.
  intros D [[xa xb xl] ? ? ? ?] [[ya yb yl] ? ? ? ?] [[za zb zl] ? ? ? ?].
  unfold w2w_blk_cmp, w2w_blk_id_cmp.
  cbn [w2w_id s2w_blk_id bzip2_blk_id].
  split; [cmp_solve |]. split; [cmp_solve |].
  split; [split; cmp_solve |]. split; [cmp_solve |].
  split; cmp_solve.
Qed.

(** ** The decoding driver: the sub-blocks of a block *)

Section Decompr.

Context {YBdec_t : Type} {dec : YBdec YBdec_t}.

Local Abbreviation w2w_blk := (w2w_blk YBdec_t).

Lemma uintmax_succ (k : Z) (i : nat) :
  uintmax (uintmax (k + 1) + Z.of_nat i) = uintmax (k + Z.of_nat (S i)).
Proof.
  unfold uintmax. rewrite Zplus_mod_idemp_l. f_equal. lia.
Qed.

(** The sub-blocks of [work_emit], counted from [k]. *)
Lemma work_emit_numbers (fuel : nat) (b : w2w_blk) :
  forall (d : YBdec_t) (bs k : Z) (sbs : list w2m_blk) (o : outcome),
    uintmax k = k ->
    work_emit fuel b d bs k = (sbs, o) ->
    (forall i sb,
        nth_error sbs i = Some sb ->
        w2m_id sb
        = mk_w2m_blk_id (w2w_id b) (uintmax (k + Z.of_nat i))
            (match o with Returned => Nat.eqb (S i) (length sbs) | _ => false end)
        /\ w2m_bs100k sb = w2w_bs100k b
        /\ bs100k1 sb = bs
        /\ w2m_crc sb = w2w_crc b
        /\ w2m_end_offs sb = w2w_end_offs b)
    /\ (o = Returned -> sbs <> [])
    /\ (forall e, o = Aborted e -> exists r, e = DataErrEmit r
                                            /\ r <> YB_OK /\ r <> YB_UNDERFLOW).
Proof.
  induction fuel as [| fuel IH]; intros d bs k sbs o Hk H;
    cbn [work_emit] in H.
  - apply pair_equal_spec in H as [<- <-]. split; [| split].
    + intros i sb Hi. destruct i; discriminate Hi.
    + discriminate.
    + discriminate.
  - destruct (YBdec_emit d MX_DECOMPR) as [[[[r d'] data] oleft] c].
    revert H. generalize (uintmax (MX_DECOMPR - oleft)). intros prod H.
    destruct r as [| | | code].
    + apply pair_equal_spec in H as [<- <-]. split; [| split].
      * intros [| i] sb Hi; [| destruct i; discriminate Hi].
        cbn [nth_error] in Hi. injection Hi as <-.
        cbn [w2m_id w2m_bs100k bs100k1 w2m_crc w2m_end_offs length Nat.eqb].
        rewrite Z.add_0_r, Hk. repeat split; reflexivity.
      * discriminate.
      * discriminate.
    + destruct (work_emit fuel b d' bs (uintmax (k + 1))) as [rest o']
        eqn:Er.
      cbn [fst snd] in H. apply pair_equal_spec in H as [<- <-].
      destruct (IH d' bs (uintmax (k + 1)) rest o' (uintmax_idem _) Er)
        as [Hn [Hr Ha]].
      split; [| split; [discriminate | exact Ha]].
      intros [| i] sb Hi; cbn [nth_error] in Hi.
      * injection Hi as <-.
        cbn [w2m_id w2m_bs100k bs100k1 w2m_crc w2m_end_offs length].
        rewrite Z.add_0_r, Hk.
        assert (Hl : match o' with
                     | Returned => Nat.eqb 1 (S (length rest))
                     | _ => false
                     end = false).
        { destruct o'; try reflexivity.
          destruct rest; [exfalso; apply Hr; reflexivity | reflexivity]. }
        rewrite Hl. repeat split; reflexivity.
      * destruct (Hn i sb Hi) as [Hid Hrest]. split; [| exact Hrest].
        rewrite Hid, uintmax_succ. cbn [length Nat.eqb]. reflexivity.
    + apply pair_equal_spec in H as [<- <-]. split; [| split].
      * intros i sb Hi. destruct i; discriminate Hi.
      * discriminate.
      * intros e He. injection He as <-. exists YB_DONE.
        repeat split; discriminate.
    + apply pair_equal_spec in H as [<- <-]. split; [| split].
      * intros i sb Hi. destruct i; discriminate Hi.
      * discriminate.
      * intros e He. injection He as <-. exists (YB_ERR code).
        repeat split; discriminate.
Qed.

End Decompr.

(** X: the sub-blocks work_decompr pushes for a block are numbered 0, 1,
    2, ... in the order it pushes them; they all carry the block's identity
    and its new bs100k; the last-sub-block flag is on the final one of a
    run that returned and on no other. *)
Theorem work_decompr_numbers_sub_blocks :
  forall (D : Type) (dec : YBdec D) (fuel : nat) (b : w2w_blk D)
         (sbs : list w2m_blk) (o : outcome),
    work_decompr fuel b = (sbs, o) ->
    (forall i sb,
        nth_error sbs i = Some sb ->
        w2w_id_of (w2m_id sb) = w2w_id b
        /\ decompr_blk_id (w2m_id sb) = uintmax (Z.of_nat i)
        /\ w2m_bs100k sb = w2w_bs100k b
        /\ (last_decompr (w2m_id sb) = true
            <-> o = Returned /\ S i = length sbs))
    /\ (o = Returned -> sbs <> [])
    /\ (ybdec b <> None ->
        forall sb, In sb sbs ->
                   w2m_crc sb = w2w_crc b
                   /\ w2m_end_offs sb = w2w_end_offs b).
Proof.
  intros D dec fuel b sbs o H. unfold work_decompr in H.
  destruct (ybdec b) as [d |] eqn:Ed.
  - destruct (YBdec_work d) as [[r d'] bs].
    assert (Hnone : ([] : list w2m_blk, Aborted (DataErrDecompress r))
                    = (sbs, o) ->
                    (forall i sb,
                        nth_error sbs i = Some sb ->
                        w2w_id_of (w2m_id sb) = w2w_id b
                        /\ decompr_blk_id (w2m_id sb) = uintmax (Z.of_nat i)
                        /\ w2m_bs100k sb = w2w_bs100k b
                        /\ (last_decompr (w2m_id sb) = true
                            <-> o = Returned /\ S i = length sbs))
                    /\ (o = Returned -> sbs <> [])
                    /\ (Some d <> None ->
                        forall sb, In sb sbs ->
                                   w2m_crc sb = w2w_crc b
                                   /\ w2m_end_offs sb = w2w_end_offs b)).
    { intros H0. apply pair_equal_spec in H0 as [<- <-]. split; [| split].
      - intros i sb Hi. destruct i; discriminate Hi.
      - discriminate.
      - intros _ sb []. }
    destruct r; try (apply Hnone; exact H). clear Hnone.
    destruct (work_emit_numbers fuel b d' bs 0 sbs o eq_refl H)
      as [Hn [Hr _]].
    split; [| split; [exact Hr |]].
    + intros i sb Hi. destruct (Hn i sb Hi) as [Hid [Hbs _]].
      rewrite Hid. cbn [w2w_id_of decompr_blk_id last_decompr].
      split; [reflexivity |]. split; [reflexivity |].
      split; [exact Hbs |].
      destruct o; try (split; [discriminate | intros [Hx _]; discriminate]).
      split.
      * intros He. apply Nat.eqb_eq in He. split; [reflexivity | exact He].
      * intros [_ He]. apply Nat.eqb_eq. exact He.
    + intros _ sb Hin. apply In_nth_error in Hin as [i Hi].
      destruct (Hn i sb Hi) as [_ [_ [_ [Hc He]]]]. split; assumption.
  - apply pair_equal_spec in H as [<- <-]. split; [| split].
    + intros [| i] sb Hi; [| destruct i; discriminate Hi].
      cbn [nth_error] in Hi. injection Hi as <-.
      cbn [w2m_id w2w_id_of decompr_blk_id w2m_bs100k last_decompr length].
      repeat split; reflexivity.
    + discriminate.
    + intros Hx. exfalso. apply Hx. reflexivity.
Qed.

Lemma work_decompr_numbers_sub_blocks_witness :
  w2w_id_of (w2m_id (header_sub_block 9)) = w2w_id sample_header_block
  /\ decompr_blk_id (w2m_id (header_sub_block 9)) = uintmax (Z.of_nat 0)
  /\ w2m_bs100k (header_sub_block 9) = w2w_bs100k sample_header_block
  /\ (last_decompr (w2m_id (header_sub_block 9)) = true
      <-> Returned = Returned /\ 1%nat = length [header_sub_block 9]).
Proof.
  exact (proj1 (work_decompr_numbers_sub_blocks unit rejecting_decoder 1
                  sample_header_block [header_sub_block 9] Returned
                  eq_refl) 0%nat (header_sub_block 9) eq_refl).
Defined.

(** X: work_decompr dies of two errors only, both data errors reported by
    the inner decoder: one from YBdec_work, before anything is pushed, and
    one from YBdec_emit, after sub-blocks none of which is flagged as the
    last of its block.  A block without a decoder never fails. *)
Theorem work_decompr_fatal_errors :
  forall (D : Type) (dec : YBdec D) (fuel : nat) (b : w2w_blk D)
         (sbs : list w2m_blk) (e : fatal),
    work_decompr fuel b = (sbs, Aborted e) ->
    ybdec b <> None
    /\ ((exists r, e = DataErrDecompress r /\ r <> YB_OK /\ sbs = [])
        \/ (exists r, e = DataErrEmit r /\ r <> YB_OK /\ r <> YB_UNDERFLOW))
    /\ (fatal_msg e = "data error while decompressing block"%string
        \/ fatal_msg e = "data error while emitting block"%string)
    /\ forall sb, In sb sbs -> last_decompr (w2m_id sb) = false.
Proof.
  intros D dec fuel b sbs e H. unfold work_decompr in H.
  destruct (ybdec b) as [d |] eqn:Ed;
    [| apply pair_equal_spec in H as [_ H]; discriminate H].
  split; [discriminate |].
  destruct (YBdec_work d) as [[r d'] bs].
  assert (Hwork : r <> YB_OK ->
                  ([] : list w2m_blk, Aborted (DataErrDecompress r))
                  = (sbs, Aborted e) ->
                  ((exists r0, e = DataErrDecompress r0 /\ r0 <> YB_OK
                               /\ sbs = [])
                   \/ (exists r0, e = DataErrEmit r0 /\ r0 <> YB_OK
                                  /\ r0 <> YB_UNDERFLOW))
                  /\ (fatal_msg e = "data error while decompressing block"%string
                      \/ fatal_msg e = "data error while emitting block"%string)
                  /\ forall sb, In sb sbs -> last_decompr (w2m_id sb) = false).
  { intros Hr H0. apply pair_equal_spec in H0 as [<- H0].
    injection H0 as <-. split; [| split].
    - left. exists r. repeat split; [exact Hr].
    - left. reflexivity.
    - intros sb []. }
  destruct r; try (apply Hwork; [discriminate | exact H]). clear Hwork.
  destruct (work_emit_numbers fuel b d' bs 0 sbs (Aborted e) eq_refl H)
    as [Hn [_ Ha]].
  destruct (Ha e eq_refl) as [r [-> [Hr1 Hr2]]].
  split; [| split].
  - right. exists r. repeat split; assumption.
  - right. reflexivity.
  - intros sb Hin. apply In_nth_error in Hin as [i Hi].
    destruct (Hn i sb Hi) as [Hid _]. rewrite Hid. reflexivity.
Qed.

Lemma work_decompr_fatal_errors_witness :
  fatal_msg (DataErrDecompress (YB_ERR 0))
  = "data error while decompressing block"%string
  \/ fatal_msg (DataErrDecompress (YB_ERR 0))
     = "data error while emitting block"%string.
Proof.
  exact (proj1 (proj2 (proj2
           (work_decompr_fatal_errors unit rejecting_decoder 1
              (fresh_w2w (dec := rejecting_decoder)) []
              (DataErrDecompress (YB_ERR 0)) eq_refl)))).
Defined.

(** ** The splitter: what a read leaves *)

Lemma xread_short (input : list Byte.byte) (v : Z) :
  0 <= v ->
  forall got rest v',
    xread input v = (got, rest, v') ->
    Z.of_nat (length got) < v ->
    rest = [].
Proof.
  intros Hv got rest v' H Hlt. unfold xread in H.
  apply pair_equal_spec in H as [H _].
  apply pair_equal_spec in H as [<- <-].
  apply skipn_all2. rewrite length_firstn in Hlt. lia.
Qed.

(** The buffer is what was read and fewer than four bytes of zeros; a read
    that does not fill the buffer has reached the end of the input. *)
Lemma split_fill_padding (input : list Byte.byte) :
  forall buf rest vacant,
    split_fill input = (buf, rest, vacant) ->
    exists got pad,
      input = got ++ rest
      /\ buf = got ++ repeat Byte.x00 pad
      /\ (pad < 4)%nat
      /\ Z.of_nat (length got) + Z.of_nat pad = 4 * (MX_SPLIT - vacant)
      /\ 0 <= vacant <= MX_SPLIT
      /\ (Z.of_nat (length got) < 4 * MX_SPLIT -> rest = []).
Proof.
  intros buf rest vacant H. unfold split_fill in H.
  destruct (xread input (4 * MX_SPLIT)) as [[got rest0] v0] eqn:Ex.
  apply pair_equal_spec in H as [H <-].
  apply pair_equal_spec in H as [<- <-].
  pose proof (xread_short input (4 * MX_SPLIT)
                ltac:(rewrite MX_SPLIT_value; lia) _ _ _ Ex) as Hshort.
  apply xread_spec in Ex; [| rewrite MX_SPLIT_value; lia].
  destruct Ex as [Hin [Hlen Hv0]].
  assert (Hland : Z.land v0 3 = v0 mod 4).
  { change 3 with (Z.ones 2). apply Z.land_ones. lia. }
  rewrite Hland.
  assert (Hshift : Z.shiftr (v0 - v0 mod 4) 2 = v0 / 4).
  { rewrite Z.shiftr_div_pow2 by lia. change (2 ^ 2) with 4.
    rewrite (Z.div_mod v0 4) at 1 by lia.
    replace (4 * (v0 / 4) + v0 mod 4 - v0 mod 4) with (v0 / 4 * 4) by lia.
    apply Z.div_mul. lia. }
  rewrite Hshift.
  pose proof (Z.div_mod v0 4 ltac:(lia)) as Hdm.
  pose proof (Z.mod_pos_bound v0 4 ltac:(lia)) as Hmb.
  pose proof (Nat2Z.is_nonneg (length got)) as Hnn.
  exists got, (Z.to_nat (v0 mod 4)).
  rewrite MX_SPLIT_value in *.
  split; [exact Hin |]. split; [reflexivity |].
  split; [lia |]. split; [lia |]. split; [lia | exact Hshort].
Qed.

(** ** The splitter: what a turn does to the heap and the queues *)

Lemma split_turn_effect {D : Type} (l l' : split_locals) (w w' : world D) :
  split_turn_result (split_turn l w) = Some (l', w') ->
  exists buf vacant chunk id,
    split_fill (sp_input l) = (buf, sp_input l', vacant)
    /\ split_alloc l buf vacant = (chunk, id)
    /\ num_free (w_m2s w) <> 0
    /\ split_turn l w
       = (if vacant =? 0 then SplitAgain l' w' else SplitDone l' w')
    /\ (let ptr := match chunk with
                   | Some _ => Some (length (w_heap w))
                   | None => None
                   end in
        let h1 := match chunk with
                  | Some c => w_heap w ++ [c]
                  | None => w_heap w
                  end in
        w_heap w' = match atch_scan l with
                    | Some a => set_next h1 a ptr
                    | None => h1
                    end
        /\ next_scan (w_sw2w w')
           = match next_scan (w_sw2w w) with
             | None => ptr
             | Some p => Some p
             end
        /\ atch_scan l' = (if vacant =? 0 then ptr else atch_scan l))
    /\ eof (w_sw2w w') = (eof (w_sw2w w) || negb (vacant =? 0))
    /\ deco_q (w_sw2w w') = deco_q (w_sw2w w)
    /\ scanning (w_sw2w w') = scanning (w_sw2w w)
    /\ num_free (w_m2s w')
       = (if negb (vacant =? 0) && (MX_SPLIT =? vacant)
          then num_free (w_m2s w) - 1 + 1
          else num_free (w_m2s w) - 1).
Proof.
  intros H.
  destruct (Z.eqb_spec (num_free (w_m2s w)) 0) as [Hz | Hz];
    [unfold split_turn in H; apply Z.eqb_eq in Hz; rewrite Hz in H;
     discriminate H |].
  destruct (split_fill (sp_input l)) as [[buf rest] vacant] eqn:Ef.
  destruct (split_alloc l buf vacant) as [chunk id] eqn:Ea.
  exists buf, vacant, chunk, id.
  assert (Hturn :
            split_turn l w
            = let ptr := match chunk with
                         | Some _ => Some (length (w_heap w))
                         | None => None
                         end in
              let h1 := match chunk with
                        | Some c => w_heap w ++ [c]
                        | None => w_heap w
                        end in
              let m1 := mk_m2s_q (num_free (w_m2s w) - 1)
                          (m2s_signals (w_m2s w)) in
              let q := w_sw2w w in
              let q1 :=
                match next_scan q with
                | None =>
                    mk_sw2w_q ptr (eof q) (deco_q q) (scanning q)
                      (if pqueue_empty (deco_q q) then broadcasts q + 1
                       else broadcasts q)
                | Some _ => q
                end in
              let h2 := match atch_scan l with
                        | Some a => set_next h1 a ptr
                        | None => h1
                        end in
              if vacant =? 0 then
                SplitAgain (mk_split_locals rest ptr id vacant)
                  (mk_world m1 q1 h2)
              else
                SplitDone (mk_split_locals rest (atch_scan l) id vacant)
                  (mk_world
                     (if MX_SPLIT =? vacant
                      then mk_m2s_q (num_free m1 + 1) (m2s_signals m1)
                      else m1)
                     (mk_sw2w_q (next_scan q1) true (deco_q q1) (scanning q1)
                        (broadcasts q1))
                     h2)).
  { unfold split_turn. apply Z.eqb_neq in Hz. rewrite Hz, Ef, Ea.
    reflexivity. }
  rewrite Hturn in H |- *. cbv zeta in H |- *. clear Hturn.
  destruct (MX_SPLIT =? vacant) eqn:Em;
    destruct (vacant =? 0) eqn:Ev; cbn [split_turn_result] in H;
    injection H as <- <-;
    cbn [sp_input w_heap w_sw2w w_m2s atch_scan num_free eof deco_q scanning
         negb andb orb];
    (split; [reflexivity |]); (split; [exact Ea |]); (split; [exact Hz |]);
    (split; [reflexivity |]);
    (split; [| split; [| split; [| split]]]);
    try (destruct (next_scan (w_sw2w w)) eqn:En; cbn [next_scan eof];
         rewrite ?En, ?orb_false_r, ?orb_true_r;
         repeat split; reflexivity).
Qed.

(** ** The splitter: the heap after a turn *)

Lemma heap_bytes_app (h1 h2 : chunk_heap) :
  heap_bytes (h1 ++ h2) = heap_bytes h1 ++ heap_bytes h2.
Proof. unfold heap_bytes. rewrite map_app, concat_app. reflexivity. Qed.

Lemma heap_bytes_set_next (h : chunk_heap) (a : nat) (n : option nat) :
  heap_bytes (set_next h a n) = heap_bytes h.
Proof.
  unfold set_next. destruct (nth_error h a) as [c |] eqn:Ea; [| reflexivity].
  rewrite <- (firstn_skipn_middle a h Ea) at 3.
  rewrite !heap_bytes_app. reflexivity.
Qed.

Lemma nth_error_set_next_inv (h : chunk_heap) (a i : nat) (n : option nat) :
  (i < length h)%nat ->
  exists c, nth_error (set_next h a n) i = Some c.
Proof.
  intros Hi. rewrite <- (length_set_next h a n) in Hi.
  destruct (nth_error (set_next h a n) i) as [c |] eqn:E;
    [exists c; reflexivity |].
  apply nth_error_None in E. lia.
Qed.

Lemma In_set_next (h : chunk_heap) (a : nat) (n : option nat) (c : s2w_blk) :
  In c (set_next h a n) ->
  exists c0, In c0 h /\ loaded c = loaded c0 /\ s2w_id c = s2w_id c0.
Proof.
  intros Hin. apply In_nth_error in Hin as [i Hi].
  destruct (nth_error_set_next h a i n c Hi) as [c0 [H0 [Hid [_ [Hl _]]]]].
  exists c0. split; [apply (nth_error_In _ _ H0) |]. split; assumption.
Qed.

Lemma length_heap_push (h : chunk_heap) (c : s2w_blk) :
  length (heap_push h c) = S (length h).
Proof.
  unfold heap_push. destruct (length h) eqn:El;
    rewrite ?length_set_next, length_app; cbn [length]; lia.
Qed.

Lemma heap_bytes_push (h : chunk_heap) (c : s2w_blk) :
  heap_bytes (heap_push h c) = heap_bytes h ++ compr c.
Proof.
  unfold heap_push. destruct (length h);
    rewrite ?heap_bytes_set_next, heap_bytes_app; unfold heap_bytes at 2;
    cbn [map concat]; rewrite app_nil_r; reflexivity.
Qed.

Lemma heap_linked_push (h : chunk_heap) (c : s2w_blk) :
  heap_linked h ->
  (forall c0, In c0 h -> loaded c0 = MX_SPLIT) ->
  s2w_next c = None ->
  refno c = 1 + match length h with O => 0 | S _ => 1 end ->
  Z.of_nat (length (compr c)) = 4 * loaded c ->
  0 < loaded c <= MX_SPLIT ->
  heap_linked (heap_push h c).
Proof.
  intros Hl Hfull Hn Hr Hc Hld i c' Hi.
  rewrite length_heap_push.
  assert (Hcase : exists c0,
             nth_error (h ++ [c]) i = Some c0
             /\ refno c' = refno c0 /\ loaded c' = loaded c0
             /\ compr c' = compr c0
             /\ s2w_next c'
                = if (S i =? length h)%nat then Some (length h)
                  else s2w_next c0).
  { unfold heap_push in Hi. destruct (length h) as [| a] eqn:El.
    - exists c'. rewrite Hi. repeat split; reflexivity.
    - destruct (nth_error_set_next _ _ _ _ _ Hi)
        as [c0 [H0 [_ [Hr0 [Hl0 [Hc0 Hn0]]]]]].
      exists c0. split; [exact H0 |]. split; [exact Hr0 |].
      split; [exact Hl0 |]. split; [exact Hc0 |].
      rewrite Hn0. cbn [Nat.eqb]. reflexivity. }
  destruct Hcase as [c0 [H0 [Hr0 [Hl0 [Hc0 Hn0]]]]].
  unfold chunk_linked. rewrite Hr0, Hl0, Hc0, Hn0. clear Hi Hr0 Hl0 Hc0 Hn0.
  destruct (Nat.ltb_spec i (length h)) as [Hlt | Hge].
  - rewrite nth_error_app1 in H0 by exact Hlt.
    destruct (Hl i c0 H0) as [Hx [Hy [Hz [Hw _]]]].
    pose proof (Hfull c0 (nth_error_In _ _ H0)) as Hf.
    split; [| split; [exact Hy | split; [exact Hz | split; [exact Hw |]]]].
    + rewrite Hx.
      destruct (Nat.eqb_spec (S i) (length h)) as [He | He];
        destruct (Nat.ltb_spec (S i) (length h));
        destruct (Nat.ltb_spec (S i) (S (length h))); try lia;
        try reflexivity. rewrite He. reflexivity.
    + intros _. exact Hf.
  - rewrite nth_error_app2 in H0 by exact Hge.
    destruct (i - length h)%nat as [| k] eqn:Ek;
      [| destruct k; discriminate H0].
    cbn [nth_error] in H0. injection H0 as <-.
    assert (Ei : i = length h) by lia. subst i.
    split; [| split; [| split; [exact Hc | split; [exact Hld |]]]].
    + rewrite Hn.
      destruct (Nat.eqb_spec (S (length h)) (length h)); [lia |].
      destruct (Nat.ltb_spec (S (length h)) (S (length h))); [lia |].
      reflexivity.
    + rewrite Hr. destruct (length h); reflexivity.
    + intros Hx. lia.
Qed.

Lemma length_heap_close (h : chunk_heap) : length (heap_close h) = length h.
Proof.
  unfold heap_close. destruct (length h) eqn:El;
    rewrite ?length_set_next; congruence.
Qed.

Lemma heap_bytes_close (h : chunk_heap) :
  heap_bytes (heap_close h) = heap_bytes h.
Proof.
  unfold heap_close. destruct (length h); rewrite ?heap_bytes_set_next;
    reflexivity.
Qed.

Lemma heap_linked_close (h : chunk_heap) :
  heap_linked h -> heap_linked (heap_close h).
Proof.
  intros Hl i c' Hi. rewrite length_heap_close.
  unfold heap_close in Hi. destruct (length h) as [| a] eqn:El;
    [rewrite <- El; apply (Hl i c' Hi) |].
  destruct (nth_error_set_next _ _ _ _ _ Hi)
    as [c0 [H0 [_ [Hr0 [Hl0 [Hc0 Hn0]]]]]].
  destruct (Hl i c0 H0) as [Hx [Hy [Hz [Hw Hv]]]].
  unfold chunk_linked. rewrite Hr0, Hl0, Hc0, Hn0, Hx, El.
  split; [| split; [exact Hy | split; [exact Hz | split; [exact Hw |]]]].
  - destruct (Nat.eqb_spec i a) as [He | He]; [| reflexivity].
    subst i. destruct (Nat.ltb_spec (S a) (S a)); [lia | reflexivity].
  - rewrite <- El. exact Hv.
Qed.

Lemma split_alloc_chunk (l : split_locals) (buf : list Byte.byte)
    (vacant : Z) (chunk : option s2w_blk) (id : Z) :
  split_alloc l buf vacant = (chunk, id) ->
  (vacant = MX_SPLIT /\ chunk = None)
  \/ (vacant <> MX_SPLIT
      /\ exists c,
           chunk = Some c
           /\ s2w_next c = None
           /\ refno c = 1 + match atch_scan l with Some _ => 1 | None => 0 end
           /\ loaded c = MX_SPLIT - vacant
           /\ compr c = buf).
Proof.
  intros H. destruct (Z.eq_dec vacant MX_SPLIT) as [Hm | Hm].
  - left. subst vacant. rewrite split_alloc_none in H.
    apply pair_equal_spec in H as [<- _]. split; reflexivity.
  - right. split; [exact Hm |]. unfold split_alloc in H.
    replace (MX_SPLIT =? vacant) with false in H
      by (symmetry; apply Z.eqb_neq; intros E; apply Hm; symmetry; exact E).
    apply pair_equal_spec in H as [<- _].
    eexists. split; [reflexivity |]. repeat split; reflexivity.
Qed.

Lemma heap_nonempty_next_scan (h : chunk_heap) :
  (0 < length h)%nat ->
  match h with [] => None | _ :: _ => Some 0%nat end = Some 0%nat.
Proof. destruct h; cbn [length]; [lia | reflexivity]. Qed.

Section SplitRun.

Context {D : Type}.
Variables num_worker num_slot : Z.
Variable input : list Byte.byte.

Local Abbreviation inv := (@split_inv D num_worker num_slot input).
Local Abbreviation post := (@split_post D num_worker num_slot input).

(** The heap a turn leaves, in terms of the two ways it changes. *)
Lemma split_turn_heap (l l' : split_locals) (w w' : world D) :
  inv l w ->
  split_turn_result (split_turn l w) = Some (l', w') ->
  exists got pad vacant,
    sp_input l = got ++ sp_input l'
    /\ (pad < 4)%nat
    /\ Z.of_nat (length got) + Z.of_nat pad = 4 * (MX_SPLIT - vacant)
    /\ 0 <= vacant <= MX_SPLIT
    /\ (Z.of_nat (length got) < 4 * MX_SPLIT -> sp_input l' = [])
    /\ split_turn l w
       = (if vacant =? 0 then SplitAgain l' w' else SplitDone l' w')
    /\ ((vacant = MX_SPLIT /\ w_heap w' = heap_close (w_heap w))
        \/ (vacant <> MX_SPLIT
            /\ exists c,
                 w_heap w' = heap_push (w_heap w) c
                 /\ s2w_next c = None
                 /\ refno c = 1 + match length (w_heap w) with
                                  | O => 0
                                  | S _ => 1
                                  end
                 /\ loaded c = MX_SPLIT - vacant
                 /\ compr c = got ++ repeat Byte.x00 pad))
    /\ next_scan (w_sw2w w')
       = match w_heap w' with [] => None | _ :: _ => Some 0%nat end
    /\ atch_scan l' = (if vacant =? 0
                       then match length (w_heap w') with
                            | O => None
                            | S n => Some n
                            end
                       else atch_scan l)
    /\ eof (w_sw2w w') = negb (vacant =? 0)
    /\ deco_q (w_sw2w w') = []
    /\ scanning (w_sw2w w') = num_worker
    /\ num_free (w_m2s w') = num_slot - Z.of_nat (length (w_heap w')).
Proof.
  intros [Hl Hfull Hdata Hatch Heof Hns Hdq Hsc Hfree] H.
  destruct (split_turn_effect l l' w w' H)
    as [buf [vacant [chunk [id [Ef [Ea [Hz [Ht [[Hh [Hn Hat]] [He [Hd
        [Hs Hf]]]]]]]]]]]].
  destruct (split_fill_padding _ _ _ _ Ef)
    as [got [pad [Hin [Hbuf [Hpad [Hlen [Hv Hshort]]]]]]].
  exists got, pad, vacant.
  split; [exact Hin |]. split; [exact Hpad |]. split; [exact Hlen |].
  split; [exact Hv |]. split; [exact Hshort |]. split; [exact Ht |].
  rewrite Hatch in Hh. rewrite Hns in Hn.
  pose proof MX_SPLIT_value as HM.
  destruct (split_alloc_chunk _ _ _ _ _ Ea)
    as [[Hm ->] | [Hm [c [-> [Hcn [Hcr [Hcl Hcc]]]]]]].
  - (* the read was empty: no chunk *)
    assert (Hheap : w_heap w' = heap_close (w_heap w)).
    { rewrite Hh. unfold heap_close. destruct (length (w_heap w));
        reflexivity. }
    assert (Hv0 : (vacant =? 0) = false) by (apply Z.eqb_neq; lia).
    assert (Hmx : (MX_SPLIT =? vacant) = true) by (apply Z.eqb_eq; lia).
    rewrite Hv0, Hmx in Hf. rewrite Hv0 in Hat, He |- *.
    cbn [negb andb orb] in Hf, He |- *.
    split; [left; split; assumption |].
    assert (Hlen' : length (w_heap w') = length (w_heap w))
      by (rewrite Hheap; apply length_heap_close).
    split.
    { rewrite Hn. destruct (w_heap w) as [| c0 h0] eqn:Eh.
      - destruct (w_heap w'); [reflexivity | discriminate Hlen'].
      - symmetry. apply heap_nonempty_next_scan. rewrite Hlen'.
        cbn [length]. lia. }
    split; [exact Hat |]. split; [rewrite He, Heof; reflexivity |].
    split; [congruence |]. split; [congruence |]. rewrite Hf, Hlen'. lia.
  - (* a chunk was allocated *)
    assert (Hheap : w_heap w' = heap_push (w_heap w) c).
    { rewrite Hh. unfold heap_push. destruct (length (w_heap w));
        reflexivity. }
    assert (Hlen' : length (w_heap w') = S (length (w_heap w)))
      by (rewrite Hheap; apply length_heap_push).
    split.
    { right. split; [exact Hm |]. exists c. split; [exact Hheap |].
      split; [exact Hcn |]. split; [rewrite Hcr, Hatch;
                                    destruct (length (w_heap w)); reflexivity |].
      split; [exact Hcl |]. rewrite Hcc. exact Hbuf. }
    split.
    { rewrite Hn. rewrite (heap_nonempty_next_scan (w_heap w'))
        by (rewrite Hlen'; lia).
      destruct (w_heap w) as [| c0 h0]; reflexivity. }
    split.
    { rewrite Hat, Hlen'. reflexivity. }
    split; [rewrite He, Heof; reflexivity |].
    split; [congruence |]. split; [congruence |].
    assert (Hmx : (MX_SPLIT =? vacant) = false)
      by (apply Z.eqb_neq; intros E; apply Hm; symmetry; exact E).
    rewrite Hmx, andb_false_r in Hf. rewrite Hf, Hlen'. lia.
Qed.

Lemma split_turn_again (l l' : split_locals) (w w' : world D) :
  inv l w ->
  split_turn l w = SplitAgain l' w' ->
  inv l' w' /\ (length (sp_input l') < length (sp_input l))%nat.
Proof.
  intros Hinv H.
  assert (Hr : split_turn_result (split_turn l w) = Some (l', w'))
    by (rewrite H; reflexivity).
  destruct (split_turn_heap l l' w w' Hinv Hr)
    as [got [pad [vacant [Hin [Hpad [Hlen [Hv [Hshort [Ht [Hheap [Hn [Hat
        [He [Hd [Hs Hf]]]]]]]]]]]]]]].
  destruct Hinv as [Hl Hfull Hdata Hatch Heof Hns Hdq Hsc Hfree].
  pose proof MX_SPLIT_value as HM.
  destruct (Z.eqb_spec vacant 0) as [Hv0 | Hv0];
    [| rewrite H in Ht; discriminate Ht].
  subst vacant. cbn [negb] in He.
  destruct Hheap as [[Hm _] | [_ [c [Hh [Hcn [Hcr [Hcl Hcc]]]]]]]; [lia |].
  assert (Hgot : got <> []).
  { intros ->. cbn [length] in Hlen. lia. }
  assert (Hl0 : sp_input l <> []).
  { rewrite Hin. destruct got; [contradiction | discriminate]. }
  split.
  - split.
    + rewrite Hh. apply heap_linked_push; try assumption.
      * rewrite Hcc, length_app, repeat_length, Hcl. lia.
      * rewrite Hcl. lia.
    + intros c0 Hc0. rewrite Hh in Hc0. unfold heap_push in Hc0.
      assert (Hc1 : exists c1, In c1 (w_heap w ++ [c])
                               /\ loaded c0 = loaded c1).
      { destruct (length (w_heap w)).
        - exists c0. split; [exact Hc0 | reflexivity].
        - destruct (In_set_next _ _ _ _ Hc0) as [c1 [H1 [H2 _]]].
          exists c1. split; assumption. }
      destruct Hc1 as [c1 [H1 ->]]. apply in_app_or in H1 as [H1 | H1].
      * apply (Hfull c1 H1).
      * destruct H1 as [<- | []]. rewrite Hcl. lia.
    + destruct Hdata as [pad0 [Hd0 [Hp0 Hp1]]].
      assert (Hz : pad0 = 0%nat).
      { destruct pad0; [reflexivity |]. exfalso. apply Hl0, Hp1. lia. }
      subst pad0. cbn [repeat] in Hd0. rewrite app_nil_r in Hd0.
      exists pad. rewrite Hh, heap_bytes_push, Hcc.
      split; [| split; [exact Hpad |]].
      * destruct (Nat.eq_dec pad 0) as [-> | Hp].
        -- cbn [repeat]. rewrite !app_nil_r, <- app_assoc, <- Hin. exact Hd0.
        -- rewrite (Hshort ltac:(lia)) in Hin |- *.
           rewrite app_nil_r in Hin |- *. rewrite app_assoc, <- Hin, Hd0.
           reflexivity.
      * intros Hp. apply Hshort. lia.
    + exact Hat.
    + exact He.
    + exact Hn.
    + exact Hd.
    + exact Hs.
    + exact Hf.
  - rewrite Hin, length_app. destruct got; [contradiction |].
    cbn [length]. lia.
Qed.

Lemma split_turn_done (l l' : split_locals) (w w' : world D) :
  inv l w ->
  split_turn l w = SplitDone l' w' ->
  post l' w'.
Proof.
  intros Hinv H.
  assert (Hr : split_turn_result (split_turn l w) = Some (l', w'))
    by (rewrite H; reflexivity).
  destruct (split_turn_heap l l' w w' Hinv Hr)
    as [got [pad [vacant [Hin [Hpad [Hlen [Hv [Hshort [Ht [Hheap [Hn [Hat
        [He [Hd [Hs Hf]]]]]]]]]]]]]]].
  destruct Hinv as [Hl Hfull Hdata Hatch Heof Hns Hdq Hsc Hfree].
  pose proof MX_SPLIT_value as HM.
  destruct (Z.eqb_spec vacant 0) as [Hv0 | Hv0];
    [rewrite H in Ht; discriminate Ht |].
  cbn [negb] in He.
  assert (Hrest : sp_input l' = []) by (apply Hshort; lia).
  rewrite Hrest, app_nil_r in Hin.
  destruct Hdata as [pad0 [Hd0 [Hp0 Hp1]]].
  destruct Hheap as [[Hm Hh] | [Hm [c [Hh [Hcn [Hcr [Hcl Hcc]]]]]]].
  - assert (Hg : got = []).
    { destruct got; [reflexivity |]. cbn [length] in Hlen. lia. }
    rewrite Hg in Hin. rewrite Hin, app_nil_r in Hd0.
    split; try assumption.
    + rewrite Hh. apply heap_linked_close. exact Hl.
    + exists pad0. rewrite Hh, heap_bytes_close. split; assumption.
  - assert (Hgot : got <> []).
    { intros ->. cbn [length] in Hlen. lia. }
    assert (Hz : pad0 = 0%nat).
    { destruct pad0; [reflexivity |]. exfalso. apply Hgot.
      rewrite <- Hin. apply Hp1. lia. }
    subst pad0. cbn [repeat] in Hd0. rewrite app_nil_r in Hd0.
    split; try assumption.
    + rewrite Hh. apply heap_linked_push; try assumption.
      * rewrite Hcc, length_app, repeat_length, Hcl. lia.
      * rewrite Hcl. lia.
    + exists pad. rewrite Hh, heap_bytes_push, Hcc, app_assoc, <- Hin, Hd0.
      split; [reflexivity | exact Hpad].
Qed.

(** [split] run alone: what it leaves when it returns. *)
Lemma split_loop_post (fuel : nat) :
  forall (l l' : split_locals) (w w' : world D),
    inv l w ->
    split_loop fuel l w = Some (l', w') ->
    post l' w'.
Proof.
  induction fuel as [| fuel IH]; intros l l' w w' Hinv H;
    cbn [split_loop] in H; [discriminate H |].
  destruct (split_turn l w) as [| l1 w1 | l1 w1] eqn:Et; [discriminate H | |].
  - destruct (split_turn_again _ _ _ _ Hinv Et) as [Hinv1 _].
    apply (IH _ _ _ _ Hinv1 H).
  - injection H as <- <-. apply (split_turn_done _ _ _ _ Hinv Et).
Qed.

Lemma split_begin_inv :
  inv (split_begin input)
    (mk_world (m2s_q_init num_slot) (sw2w_q_init num_worker) []).
Proof.
  split; cbn [w_heap w_sw2w w_m2s split_begin sp_input atch_scan length
              sw2w_q_init m2s_q_init eof next_scan deco_q scanning num_free];
    try reflexivity.
  - intros i c Hc. destruct i; discriminate Hc.
  - intros c [].
  - exists 0%nat. cbn [repeat heap_bytes map concat app].
    rewrite app_nil_r. split; [reflexivity |]. split; [lia |].
    intros Hx. contradiction.
  - lia.
Qed.

Lemma split_post_holds (l : split_locals) (w : world D) :
  split num_worker num_slot input = Some (l, w) -> post l w.
Proof.
  intros H. unfold split in H.
  apply (split_loop_post _ _ _ _ _ split_begin_inv H).
Qed.

End SplitRun.

(** ** The splitter: how many reads, how many chunks *)

Lemma split_reads_full (n m : nat) :
  Z.of_nat n = 4 * MX_SPLIT ->
  split_reads (n + m) = split_reads m + 1.
Proof.
  intros Hn. unfold split_reads. rewrite Nat2Z.inj_add, Hn.
  replace (4 * MX_SPLIT + Z.of_nat m + 3)
    with (Z.of_nat m + 3 + 1 * (4 * MX_SPLIT)) by lia.
  rewrite Z.div_add by (rewrite MX_SPLIT_value; lia). lia.
Qed.

Lemma split_reads_short (n : nat) :
  Z.of_nat n + 3 < 4 * MX_SPLIT -> split_reads n = 1.
Proof.
  intros Hn. unfold split_reads. rewrite Z.div_small by lia. reflexivity.
Qed.

Lemma split_reads_padded (n : nat) :
  4 * MX_SPLIT <= Z.of_nat n + 3 ->
  Z.of_nat n < 4 * MX_SPLIT ->
  split_reads n = 2.
Proof.
  intros H1 H2. unfold split_reads.
  replace (Z.of_nat n + 3)
    with (Z.of_nat n + 3 - 4 * MX_SPLIT + 1 * (4 * MX_SPLIT)) by lia.
  rewrite Z.div_add by (rewrite MX_SPLIT_value; lia).
  rewrite Z.div_small by (rewrite MX_SPLIT_value in *; lia). reflexivity.
Qed.

Lemma split_reads_pos (n : nat) : 1 <= split_reads n.
Proof.
  unfold split_reads.
  pose proof (Z.div_pos (Z.of_nat n + 3) (4 * MX_SPLIT) ltac:(lia)
                ltac:(rewrite MX_SPLIT_value; lia)). lia.
Qed.

Lemma split_turn_blocked {D : Type} (l : split_locals) (w : world D) :
  split_turn l w = SplitBlocked <-> num_free (w_m2s w) = 0.
Proof.
  unfold split_turn. destruct (Z.eqb_spec (num_free (w_m2s w)) 0) as [E | E].
  - split; [intros _; exact E | reflexivity].
  - destruct (split_fill (sp_input l)) as [[buf rest] vacant].
    destruct (split_alloc l buf vacant) as [chunk id].
    destruct (vacant =? 0); split; try discriminate; intros Hx; contradiction.
Qed.

Section SplitSlots.

Context {D : Type}.
Variables num_worker num_slot : Z.
Variable input : list Byte.byte.

Local Abbreviation inv := (@split_inv D num_worker num_slot input).

(** Run alone, the splitter returns exactly when it has a slot for every
    read it makes. *)
Lemma split_loop_returns (fuel : nat) :
  forall (l : split_locals) (w : world D),
    inv l w ->
    (length (sp_input l) < fuel)%nat ->
    0 <= num_free (w_m2s w) ->
    (exists l' w', split_loop fuel l w = Some (l', w'))
    <-> split_reads (length (sp_input l)) <= num_free (w_m2s w).
Proof.
  induction fuel as [| fuel IH]; intros l w Hinv Hfuel Hfree; [lia |].
  cbn [split_loop].
  pose proof (split_reads_pos (length (sp_input l))) as Hpos.
  pose proof MX_SPLIT_value as HM.
  destruct (split_turn l w) as [| l1 w1 | l1 w1] eqn:Et.
  - apply split_turn_blocked in Et. split; [| lia].
    intros [l' [w' Hx]]. discriminate Hx.
  - assert (Hr : split_turn_result (split_turn l w) = Some (l1, w1))
      by (rewrite Et; reflexivity).
    destruct (split_turn_heap _ _ _ l l1 w w1 Hinv Hr)
      as [got [pad [vacant [Hin [Hpad [Hlen [Hv [Hshort [Ht [Hheap [_ [_
          [_ [_ [_ Hf]]]]]]]]]]]]]]].
    destruct (split_turn_again _ _ _ _ _ _ _ Hinv Et) as [Hinv1 Hless].
    destruct (Z.eqb_spec vacant 0) as [Hv0 | Hv0];
      [| rewrite Et in Ht; discriminate Ht].
    subst vacant.
    destruct Hheap as [[Hm _] | [_ [c [Hh _]]]]; [lia |].
    assert (Hf1 : num_free (w_m2s w1) = num_free (w_m2s w) - 1).
    { rewrite Hf, Hh, length_heap_push.
      destruct Hinv as [_ _ _ _ _ _ _ _ Hfr]. rewrite Hfr. lia. }
    assert (Hnz : num_free (w_m2s w) <> 0).
    { intros Hz. apply (proj2 (split_turn_blocked l w)) in Hz. congruence. }
    assert (Hreads : split_reads (length (sp_input l))
                     = split_reads (length (sp_input l1)) + 1).
    { rewrite Hin, length_app.
      destruct (Z.eq_dec (Z.of_nat (length got)) (4 * MX_SPLIT)) as [E | E].
      - apply split_reads_full. exact E.
      - rewrite (Hshort ltac:(lia)). cbn [length]. rewrite Nat.add_0_r.
        rewrite split_reads_padded by lia.
        rewrite split_reads_short by (cbn; lia). reflexivity. }
    rewrite Hreads.
    rewrite (IH l1 w1 Hinv1 ltac:(lia) ltac:(lia)), Hf1. lia.
  - assert (Hr : split_turn_result (split_turn l w) = Some (l1, w1))
      by (rewrite Et; reflexivity).
    destruct (split_turn_heap _ _ _ l l1 w w1 Hinv Hr)
      as [got [pad [vacant [Hin [Hpad [Hlen [Hv [Hshort [Ht _]]]]]]]]].
    destruct (Z.eqb_spec vacant 0) as [Hv0 | Hv0];
      [rewrite Et in Ht; discriminate Ht |].
    assert (Hnz : num_free (w_m2s w) <> 0).
    { intros Hz. apply (proj2 (split_turn_blocked l w)) in Hz. congruence. }
    rewrite Hin, (Hshort ltac:(lia)), app_nil_r.
    rewrite split_reads_short by lia.
    split; [intros _; lia |]. intros _. exists l1, w1. reflexivity.
Qed.

End SplitSlots.

Lemma heap_bytes_full (h : chunk_heap) :
  (forall c, In c h -> Z.of_nat (length (compr c)) = 4 * MX_SPLIT) ->
  Z.of_nat (length (heap_bytes h)) = 4 * MX_SPLIT * Z.of_nat (length h).
Proof.
  induction h as [| c h IH]; intros Hc.
  - cbn [heap_bytes map concat length]. lia.
  - unfold heap_bytes in *. cbn [map concat]. rewrite length_app.
    cbn [length]. rewrite Nat2Z.inj_add, (Hc c (or_introl eq_refl)).
    rewrite IH by (intros c0 H0; apply Hc; right; exact H0). lia.
Qed.

(** The bytes of a linked heap: all its chunks but the last are full. *)
Lemma heap_linked_length (h : chunk_heap) (c : s2w_blk) :
  heap_linked (h ++ [c]) ->
  Z.of_nat (length (heap_bytes (h ++ [c])))
  = 4 * MX_SPLIT * Z.of_nat (length h) + 4 * loaded c
  /\ 0 < loaded c <= MX_SPLIT.
Proof.
  intros Hl. rewrite heap_bytes_app, length_app, Nat2Z.inj_add.
  assert (Hlast : chunk_linked (length (h ++ [c])) (length h) c).
  { apply Hl. rewrite nth_error_app2 by lia. rewrite Nat.sub_diag.
    reflexivity. }
  destruct Hlast as [_ [_ [Hc [Hld _]]]].
  split; [| exact Hld].
  rewrite heap_bytes_full.
  - unfold heap_bytes. cbn [map concat]. rewrite app_nil_r. lia.
  - intros c0 H0. apply In_nth_error in H0 as [i Hi].
    assert (Hlt : (i < length h)%nat)
      by (apply nth_error_Some; congruence).
    assert (Hi' : nth_error (h ++ [c]) i = Some c0)
      by (rewrite nth_error_app1 by exact Hlt; exact Hi).
    destruct (Hl i c0 Hi') as [_ [_ [Hc0 [_ Hfull]]]].
    rewrite Hc0, Hfull; [reflexivity |].
    rewrite length_app. cbn [length]. lia.
Qed.

Lemma heap_linked_words (h : chunk_heap) :
  heap_linked h -> Z.of_nat (length (heap_bytes h)) mod 4 = 0.
Proof.
  intros Hl. destruct h as [| c0 h'] eqn:Eh; [reflexivity |].
  rewrite <- Eh in *.
  destruct (exists_last (l := h)) as [h0 [c E]];
    [rewrite Eh; discriminate |].
  rewrite E in Hl |- *.
  destruct (heap_linked_length h0 c Hl) as [Hlen _]. rewrite Hlen.
  replace (4 * MX_SPLIT * Z.of_nat (length h0) + 4 * loaded c)
    with ((MX_SPLIT * Z.of_nat (length h0) + loaded c) * 4) by lia.
  apply Z.mod_mul. lia.
Qed.

(** The chunks of an input of [len] bytes: its size in units of
    [4 * MX_SPLIT] bytes, rounded up. *)
Lemma heap_linked_count (h : chunk_heap) (len pad : nat) :
  heap_linked h ->
  length (heap_bytes h) = (len + pad)%nat ->
  (pad < 4)%nat ->
  Z.of_nat (length h) = (Z.of_nat len + 4 * MX_SPLIT - 1) / (4 * MX_SPLIT).
Proof.
  intros Hl Hlen Hpad. pose proof MX_SPLIT_value as HM.
  destruct h as [| c0 h'] eqn:Eh.
  - cbn [heap_bytes map concat length] in Hlen |- *.
    assert (len = 0%nat) by lia. subst len.
    rewrite HM. reflexivity.
  - rewrite <- Eh in *.
    destruct (exists_last (l := h)) as [h0 [c E]];
      [rewrite Eh; discriminate |].
    rewrite E in Hl, Hlen |- *.
    destruct (heap_linked_length h0 c Hl) as [Hb Hld].
    rewrite Hlen in Hb. rewrite length_app. cbn [length].
    apply Z.div_unique
      with (r := Z.of_nat len + 4 * MX_SPLIT - 1
                 - 4 * MX_SPLIT * Z.of_nat (length h0 + 1)); lia.
Qed.

(** ** The splitter: what it leaves behind *)

(** X: the splitter loses no byte and reorders none.  When it returns it
    has read the whole input, and the buffers of the chunks, in the order of
    allocation, hold the input followed by the fewest zero bytes that fill
    its last 32-bit word. *)
Theorem split_keeps_every_byte :
  forall (D : Type) (num_worker num_slot : Z) (input : list Byte.byte)
         (l : split_locals) (w : world D),
    split num_worker num_slot input = Some (l, w) ->
    sp_input l = []
    /\ exists pad,
         heap_bytes (w_heap w) = input ++ repeat Byte.x00 pad
         /\ (pad < 4)%nat
         /\ (Z.of_nat (length input) + Z.of_nat pad) mod 4 = 0.
Proof.
  intros D nw ns input l w H.
  destruct (split_post_holds nw ns input l w H)
    as [Hl [pad [Hd Hp]] Hall _ _ _ _ _].
  split; [exact Hall |]. exists pad.
  split; [exact Hd |]. split; [exact Hp |].
  pose proof (heap_linked_words _ Hl) as Hw.
  rewrite Hd, length_app, repeat_length, Nat2Z.inj_add in Hw. exact Hw.
Qed.

Lemma split_keeps_every_byte_witness :
  exists l w,
    split (YBdec_t := unit) 1 1 sample_file = Some (l, w)
    /\ sp_input l = []
    /\ exists pad,
         heap_bytes (w_heap w) = sample_file ++ repeat Byte.x00 pad
         /\ (pad < 4)%nat
         /\ (Z.of_nat (length sample_file) + Z.of_nat pad) mod 4 = 0.
Proof.
  destruct (split (YBdec_t := unit) 1 1 sample_file) as [[l w] |] eqn:E;
    [| vm_compute in E; discriminate E].
  exists l, w. split; [reflexivity |].
  exact (split_keeps_every_byte unit 1 1 sample_file l w E).
Defined.

(** X: the chunks the splitter leaves are numbered from 1 in the order of
    allocation and chained by their next pointers, the last pointing
    nowhere; the first has one reference and every other two; every chunk
    but the last is full, and the last holds at least one word. *)
Theorem split_links_chunks :
  forall (D : Type) (num_worker num_slot : Z) (input : list Byte.byte)
         (l : split_locals) (w : world D),
    split num_worker num_slot input = Some (l, w) ->
    Z.of_nat (length input) + 1 < 2 ^ 64 ->
    forall i c,
      nth_error (w_heap w) i = Some c ->
      s2w_id c = Z.of_nat i + 1
      /\ s2w_next c = (if (S i <? length (w_heap w))%nat then Some (S i)
                       else None)
      /\ refno c = (if (i =? 0)%nat then 1 else 2)
      /\ Z.of_nat (length (compr c)) = 4 * loaded c
      /\ 0 < loaded c <= MX_SPLIT
      /\ ((S i < length (w_heap w))%nat -> loaded c = MX_SPLIT).
Proof.
  intros D nw ns input l w H Hlen i c Hi.
  destruct (split_chunks nw ns input l w Hlen H) as [Hids _].
  destruct (split_post_holds nw ns input l w H) as [Hl _ _ _ _ _ _ _].
  split; [apply (Hids i c Hi) |]. apply (Hl i c Hi).
Qed.

Lemma split_links_chunks_witness :
  exists l w,
    split (YBdec_t := unit) 1 1 sample_file = Some (l, w)
    /\ forall i c,
         nth_error (w_heap w) i = Some c ->
         s2w_id c = Z.of_nat i + 1
         /\ s2w_next c = (if (S i <? length (w_heap w))%nat then Some (S i)
                          else None)
         /\ refno c = (if (i =? 0)%nat then 1 else 2)
         /\ Z.of_nat (length (compr c)) = 4 * loaded c
         /\ 0 < loaded c <= MX_SPLIT
         /\ ((S i < length (w_heap w))%nat -> loaded c = MX_SPLIT).
Proof.
  destruct (split (YBdec_t := unit) 1 1 sample_file) as [[l w] |] eqn:E;
    [| vm_compute in E; discriminate E].
  exists l, w. split; [reflexivity |].
  apply (split_links_chunks unit 1 1 sample_file l w E).
  vm_compute. reflexivity.
Defined.

(** X: when the splitter returns, the end of input is flagged, the chunk to
    scan next is the first one (none for an empty input), and it holds one
    slot for every chunk: the read that found the end of the input gave
    its slot back.  The chunks number the size of the input in units of
    [4 * MX_SPLIT] bytes, rounded up. *)
Theorem split_leaves_queues :
  forall (D : Type) (num_worker num_slot : Z) (input : list Byte.byte)
         (l : split_locals) (w : world D),
    split num_worker num_slot input = Some (l, w) ->
    eof (w_sw2w w) = true
    /\ next_scan (w_sw2w w)
       = match w_heap w with [] => None | _ :: _ => Some 0%nat end
    /\ deco_q (w_sw2w w) = []
    /\ scanning (w_sw2w w) = num_worker
    /\ num_free (w_m2s w) = num_slot - Z.of_nat (length (w_heap w))
    /\ Z.of_nat (length (w_heap w))
       = (Z.of_nat (length input) + 4 * MX_SPLIT - 1) / (4 * MX_SPLIT).
Proof.
  intros D nw ns input l w H.
  destruct (split_post_holds nw ns input l w H)
    as [Hl [pad [Hd Hp]] _ He Hn Hq Hs Hf].
  repeat (split; [assumption |]).
  apply (heap_linked_count _ (length input) pad Hl); [| exact Hp].
  rewrite Hd, length_app, repeat_length. reflexivity.
Qed.

Lemma split_leaves_queues_witness :
  exists l w,
    split (YBdec_t := unit) 1 1 sample_file = Some (l, w)
    /\ eof (w_sw2w w) = true
    /\ num_free (w_m2s w) = 1 - Z.of_nat (length (w_heap w))
    /\ length (w_heap w) = 1%nat.
Proof.
  destruct (split (YBdec_t := unit) 1 1 sample_file) as [[l w] |] eqn:E;
    [| vm_compute in E; discriminate E].
  exists l, w. split; [reflexivity |].
  destruct (split_leaves_queues unit 1 1 sample_file l w E)
    as [He [_ [_ [_ [Hf Hc]]]]].
  split; [exact He |]. split; [exact Hf |].
  apply Nat2Z.inj. rewrite Hc. vm_compute. reflexivity.
Defined.

(** X: run alone, the splitter returns exactly when it was given a slot
    for every read it makes: one for every [4 * MX_SPLIT] bytes or part of
    it, and the one that finds the end of the input; with fewer it waits
    for the muxer. *)
Theorem split_returns_with_slots :
  forall (D : Type) (num_worker num_slot : Z) (input : list Byte.byte),
    0 <= num_slot ->
    (exists l w, split (YBdec_t := D) num_worker num_slot input = Some (l, w))
    <-> (Z.of_nat (length input) + 3) / (4 * MX_SPLIT) + 1 <= num_slot.
Proof.
  intros D nw ns input Hns. unfold split.
  apply (split_loop_returns nw ns input (S (length input))
           (split_begin input)
           (mk_world (m2s_q_init ns) (sw2w_q_init nw) [])
           (split_begin_inv nw ns input)).
  - cbn [split_begin sp_input]. lia.
  - exact Hns.
Qed.

Lemma split_returns_with_slots_witness :
  exists l w, split (YBdec_t := unit) 1 1 sample_file = Some (l, w).
Proof.
  apply (split_returns_with_slots unit 1 1 sample_file); [lia |].
  vm_compute. discriminate.
Defined.

(** ** The scanner: the numbers it gives the blocks of a chunk *)

Section Numbering.

Context {YBdec_t : Type} {dec : YBdec YBdec_t} {tab : scantab}.

Variable h : chunk_heap.
Variable fid : Z.

Local Abbreviation w2w_blk := (w2w_blk YBdec_t).
Local Abbreviation scan_st := (@scan_st YBdec_t).
Local Abbreviation event := (@event YBdec_t).

Lemma real_ids_app (evs1 evs2 : list event) :
  real_ids (evs1 ++ evs2) = real_ids evs1 ++ real_ids evs2.
Proof.
  unfold real_ids. rewrite flushed_app, filter_app, map_app. reflexivity.
Qed.

Lemma work_oflush_id_step (b : w2w_blk) (k : Z) (l : bool) (p : cursor) :
  flush_step fid k l (EvFlush (fst (work_oflush_id b fid k l)) p)
    (snd (work_oflush_id b fid k l))
  /\ has_decoder (fst (work_oflush_id b fid k l)) = has_decoder b.
Proof.
  unfold work_oflush_id, flush_step, has_decoder.
  destruct (ybdec b) as [d |] eqn:Ed; cbn [fst snd set_id ybdec w2w_id];
    rewrite Ed; (split; [| reflexivity]); eexists; eexists;
    (split; [reflexivity |]); cbn [ybdec set_id w2w_id]; rewrite Ed.
  - left. repeat split; reflexivity.
  - right. repeat split; reflexivity.
Qed.

Lemma flush_is_step (s : scan_st) (l : bool) :
  flush_step fid (sc_bzip2_blk_id s) l (fst (flush fid s l))
    (snd (flush fid s l)).
Proof.
  unfold flush.
  match goal with
  | |- context [work_oflush_id ?b fid ?k l] =>
      pose proof (work_oflush_id_step b k l (cursor_of s)) as [H _];
      destruct (work_oflush_id b fid k l) as [b' idx]
  end.
  exact H.
Qed.

Lemma magic_refill_numbered (s : scan_st) :
  match magic_refill h fid s with
  | RfStop evs o => stop_flush fid (sc_bzip2_blk_id s) evs o
  | RfReady s1 _ evs =>
      flushed evs = [] /\ sc_bzip2_blk_id s1 = sc_bzip2_blk_id s
  end.
Proof.
  unfold magic_refill, load_word.
  destruct (ibits_left s <? 16); [| repeat split; reflexivity].
  destruct (loaded (sc_blk s) =? ipos s); [| repeat split; reflexivity].
  destruct (first s) eqn:Ef; cbn [negb].
  - match goal with
    | |- context [EvFlush (fst (work_oflush_id ?b fid ?k true)) ?p] =>
        pose proof (work_oflush_id_step b k true p) as [Hstep _]
    end.
    assert (Hstop : forall ev0 : event,
               flushed [ev0] = [] ->
               forall b p k',
                 flush_step fid (sc_bzip2_blk_id s) true (EvFlush b p) k' ->
                 stop_flush fid (sc_bzip2_blk_id s) [ev0; EvFlush b p]
                   Returned).
    { intros ev0 H0 b p k' Hs. right. split; [reflexivity |].
      exists [ev0], (EvFlush b p), k'. repeat split; assumption. }
    destruct (loaded (sc_blk s) <? MX_SPLIT).
    + apply (Hstop (EvRelease (sc_blk s)) eq_refl _ _ _ Hstep).
    + destruct (work_get_second h (sc_blk s)).
      * repeat split; reflexivity.
      * apply (Hstop (EvGetSecond (sc_blk s)) eq_refl _ _ _ Hstep).
  - destruct (MX_SPLIT =? loaded (sc_blk s)).
    + left. split; [reflexivity | discriminate].
    + right. split; [reflexivity |].
      match goal with
      | |- context [flush fid ?s1 true] =>
          pose proof (flush_is_step s1 true) as Hstep;
          exists [EvRelease (sc_blk s)], (fst (flush fid s1 true)),
                 (snd (flush fid s1 true))
      end.
      repeat split; [exact Hstep].
Qed.

Lemma turn_flush_one (s1 : scan_st) (pre : list event) :
  flushed pre = [] ->
  turn_flush fid (sc_bzip2_blk_id s1) false
    (pre ++ [fst (flush fid s1 false)]) (snd (flush fid s1 false)).
Proof.
  intros Hp. right. exists pre, (fst (flush fid s1 false)).
  split; [reflexivity |]. split; [exact Hp | apply flush_is_step].
Qed.

Lemma stop_flush_one (s1 : scan_st) (pre : list event) :
  flushed pre = [] ->
  stop_flush fid (sc_bzip2_blk_id s1) (pre ++ [fst (flush fid s1 true)])
    Returned.
Proof.
  intros Hp. right. split; [reflexivity |].
  exists pre, (fst (flush fid s1 true)), (snd (flush fid s1 true)).
  split; [reflexivity |]. split; [exact Hp | apply flush_is_step].
Qed.

Lemma retrieve_turn_numbered (f : bool) (s : scan_st) :
  match retrieve_turn h fid f s with
  | Stop evs o => stop_flush fid (sc_bzip2_blk_id s) evs o
  | Next evs _ s' =>
      turn_flush fid (sc_bzip2_blk_id s) false evs (sc_bzip2_blk_id s')
  end.
Proof.
  unfold retrieve_turn.
  destruct (ybdec (sc_w2w s)) as [d |];
    [| left; split; [reflexivity | discriminate]].
  destruct (YBdec_retrieve d (compr (sc_blk s)) (ipos s)
              (loaded (sc_blk s)) (ibitbuf s) (ibits_left s))
    as [[[[r d'] ipos'] ibitbuf'] ibits_left'].
  destruct r.
  - match goal with
    | |- context [if ?c then _ else _] => destruct c
    end.
    + match goal with
      | |- context [flush fid ?s1 true] =>
          apply (stop_flush_one s1 [EvRelease (sc_blk s1)] eq_refl)
      end.
    + match goal with
      | |- context [flush fid ?s1 false] =>
          pose proof (turn_flush_one s1 [] eq_refl) as Hf;
          destruct (flush fid s1 false) as [ev idx]
      end.
      exact Hf.
  - destruct f.
    + match goal with
      | |- context [if ?c then _ else _] => destruct c
      end; [left; split; [reflexivity | discriminate] |].
      match goal with
      | |- context [work_get_second h ?c] => destruct (work_get_second h c)
      end.
      * left. split; reflexivity.
      * left. split; [reflexivity | discriminate].
    + left. split; [reflexivity | discriminate].
  - left. split; reflexivity.
  - left. split; [reflexivity | discriminate].
Qed.

Lemma magic_turn_numbered (m : magic_state) (s : scan_st) :
  match magic_turn h fid m s with
  | Stop evs o => stop_flush fid (sc_bzip2_blk_id s) evs o
  | Next evs _ s' =>
      turn_flush fid (sc_bzip2_blk_id s) false evs (sc_bzip2_blk_id s')
  end.
Proof.
  unfold magic_turn. pose proof (magic_refill_numbered s) as Hr.
  destruct (magic_refill h fid s) as [s1 buf64 evs | evs o]; [| exact Hr].
  destruct Hr as [Hevs Hk]. rewrite <- Hk.
  destruct (magic_switch m _ (sc_w2w s1) _) as [[[m' b'] bits'] |];
    [| left; split; [exact Hevs | reflexivity]].
  destruct (is_ACCEPT m'); [| left; split; [exact Hevs | reflexivity]].
  match goal with
  | |- context [if ?c then _ else _] => destruct c
  end.
  - match goal with
    | |- context [flush fid ?s2 true] =>
        pose proof (stop_flush_one s2 (evs ++ [EvRelease (sc_blk s2)])) as Hf
    end.
    rewrite <- app_assoc in Hf. apply Hf.
    rewrite flushed_app, Hevs. reflexivity.
  - match goal with
    | |- context [flush fid ?s2 false] =>
        pose proof (turn_flush_one s2 evs Hevs) as Hf;
        destruct (flush fid s2 false) as [ev idx]
    end.
    exact Hf.
Qed.

Lemma step_numbered (ph : phase) (s : scan_st) :
  match work_retrieve_step h fid ph s with
  | Stop evs o => stop_flush fid (sc_bzip2_blk_id s) evs o
  | Next evs _ s' =>
      turn_flush fid (sc_bzip2_blk_id s) false evs (sc_bzip2_blk_id s')
  end.
Proof.
  destruct ph; cbn [work_retrieve_step];
    [apply retrieve_turn_numbered .. | apply magic_turn_numbered].
Qed.

Lemma real_ids_flush (k : Z) (l : bool) (pre : list event) (ev : event)
    (k' : Z) (ids : list w2w_blk_id) :
  flushed pre = [] ->
  flush_step fid k l ev k' ->
  (l = true -> ids = []) ->
  numbered_from fid k (real_ids (pre ++ [ev]) ++ ids)
  = numbered_from fid k' ids.
Proof.
  intros Hp [b [p [-> Hcase]]] Hl.
  unfold real_ids. rewrite flushed_app, Hp. cbn [app flushed filter].
  destruct Hcase as [[Hd [Hid ->]] | [Hd [_ ->]]]; rewrite Hd;
    cbn [map app]; [| reflexivity].
  cbn [numbered_from]. rewrite Hid. cbn [s2w_blk_id bzip2_blk_id last_bzip2].
  rewrite !Z.eqb_refl. cbn [andb].
  destruct l; [rewrite (Hl eq_refl); reflexivity |].
  destruct ids; reflexivity.
Qed.

(** The trace of a scan from any point of its loops. *)
Lemma work_retrieve_from_numbered (fuel : nat) :
  forall (ph : phase) (s : scan_st),
    let r := work_retrieve_from h fid fuel ph s in
    numbered_from fid (sc_bzip2_blk_id s) (real_ids (fst r)) = true
    /\ (snd r = Returned ->
        exists bs b,
          flushed (fst r) = bs ++ [b] /\ last_bzip2 (w2w_id b) = true).
Proof.
  induction fuel as [| fuel IH]; intros ph s; cbn [work_retrieve_from].
  - split; [reflexivity | discriminate].
  - pose proof (step_numbered ph s) as Hs.
    destruct (work_retrieve_step h fid ph s) as [evs o | evs ph' s'].
    + cbn [fst snd].
      destruct Hs as [[Hf Ho] | [-> [pre [ev [k' [-> [Hp Hst]]]]]]].
      * unfold real_ids. rewrite Hf. split; [reflexivity |].
        intros Hx. contradiction.
      * split.
        -- rewrite <- (app_nil_r (real_ids (pre ++ [ev]))).
           rewrite (real_ids_flush _ true pre ev k' [] Hp Hst);
             [reflexivity | reflexivity].
        -- intros _. destruct Hst as [b [p [-> Hcase]]].
           exists [], b. rewrite flushed_app, Hp. split; [reflexivity |].
           destruct Hcase as [[_ [Hid _]] | [_ [Hid _]]]; rewrite Hid;
             reflexivity.
    + cbn [fst snd]. destruct (IH ph' s') as [Hn Hr].
      cbn zeta in Hn, Hr. rewrite real_ids_app, flushed_app. split.
      * destruct Hs as [[Hf Hk] | [pre [ev [-> [Hp Hst]]]]].
        -- unfold real_ids at 1. rewrite Hf, <- Hk. exact Hn.
        -- rewrite (real_ids_flush _ false pre ev _ _ Hp Hst);
             [exact Hn | discriminate].
      * intros Hx. destruct (Hr Hx) as [bs [b [Hfl Hb]]].
        exists (flushed evs ++ bs), b. rewrite Hfl, app_assoc.
        split; [reflexivity | exact Hb].
Qed.

End Numbering.

(** X: the blocks with a decoder that the scan of a chunk publishes carry
    the chunk's id and the numbers 0, 1, 2, ... in the order they are
    published, and none but the last published can be flagged as the last
    of the chunk; when the scan returns after publishing anything, the last
    block it published is flagged. *)
Theorem work_scan_numbers_blocks :
  forall (D : Type) (dec : YBdec D) (tab : scantab) (h : chunk_heap)
         (junk : Z) (fuel : nat) (c : s2w_blk),
    let r := work_scan h junk fuel c in
    numbered_from (s2w_id c) 0 (real_ids (fst r)) = true
    /\ (snd r = Returned ->
        flushed (fst r) = []
        \/ exists bs b,
             flushed (fst r) = bs ++ [b] /\ last_bzip2 (w2w_id b) = true).
Proof.
  intros D dec tab h junk fuel c. cbn zeta. unfold work_scan.
  assert (Hret : forall i b l,
             numbered_from (s2w_id c) 0
               (real_ids (fst (work_retrieve h junk fuel c i b l))) = true
             /\ (snd (work_retrieve h junk fuel c i b l) = Returned ->
                 flushed (fst (work_retrieve h junk fuel c i b l)) = []
                 \/ exists bs b0,
                      flushed (fst (work_retrieve h junk fuel c i b l))
                      = bs ++ [b0]
                      /\ last_bzip2 (w2w_id b0) = true)).
  { intros i b l. unfold work_retrieve.
    destruct (1 =? s2w_id c);
      match goal with
      | |- context [work_retrieve_from h ?f fuel ?ph ?s] =>
          destruct (work_retrieve_from_numbered h f fuel ph s) as [Hn Hr]
      end; cbn zeta in Hn, Hr; (split; [exact Hn |]);
      intros Hx; right; apply (Hr Hx). }
  destruct (1 <? s2w_id c); [| apply Hret].
  destruct (big_scan _ c 0 0) as [[[bt buf] st] ip].
  destruct (mini_scan 32 buf bt) as [st' bits].
  destruct (negb (st' =? scan_ACCEPT)); [| apply Hret].
  destruct (MX_SPLIT =? loaded c); cbn [fst snd].
  - split; [reflexivity | discriminate].
  - split; [reflexivity |]. intros _. left. reflexivity.
Qed.

(** ** The scanner: the references it drops *)

Section Releases.

Context {YBdec_t : Type} {dec : YBdec YBdec_t} {tab : scantab}.

Variable h : chunk_heap.
Variable fid : Z.

Local Abbreviation w2w_blk := (w2w_blk YBdec_t).
Local Abbreviation scan_st := (@scan_st YBdec_t).
Local Abbreviation event := (@event YBdec_t).

Lemma released_app (evs1 evs2 : list event) :
  released (evs1 ++ evs2) = released evs1 ++ released evs2.
Proof.
  induction evs1 as [| ev evs1 IH]; [reflexivity |].
  destruct ev; cbn [app released]; rewrite IH; reflexivity.
Qed.

Lemma released_flush (s : scan_st) (l : bool) :
  released [fst (flush fid s l)] = [].
Proof.
  unfold flush. destruct (work_oflush_id _ fid _ l). reflexivity.
Qed.

Lemma expected_releases_same (s s' : scan_st) :
  sc_blk s' = sc_blk s -> first s' = first s ->
  expected_releases h s' = expected_releases h s.
Proof. intros Hb Hf. unfold expected_releases. rewrite Hb, Hf. reflexivity. Qed.

Lemma magic_refill_released (s : scan_st) :
  match magic_refill h fid s with
  | RfStop evs o =>
      o = Returned -> released evs = expected_releases h s
  | RfReady s1 _ evs => turn_released h s evs s1
  end.
Proof.
  unfold magic_refill, load_word.
  destruct (ibits_left s <? 16); [| left; repeat split; reflexivity].
  destruct (loaded (sc_blk s) =? ipos s);
    [| left; repeat split; reflexivity].
  unfold expected_releases.
  destruct (first s) eqn:Ef; cbn [negb].
  - destruct (loaded (sc_blk s) <? MX_SPLIT) eqn:El.
    + intros _. reflexivity.
    + destruct (work_get_second h (sc_blk s)) as [c' |] eqn:Eg.
      * right. cbn [on_second with_w2w sc_blk first].
        repeat split; try reflexivity; assumption.
      * intros _. reflexivity.
  - destruct (MX_SPLIT =? loaded (sc_blk s)); [discriminate |].
    intros _. cbn [released].
    match goal with
    | |- context [flush fid ?s1 true] =>
        pose proof (released_flush s1 true) as Hf
    end.
    cbn [released] in Hf.
    destruct (fst (flush fid _ true)); try discriminate Hf. reflexivity.
Qed.

Lemma retrieve_turn_released (f : bool) (s : scan_st) :
  first s = f ->
  match retrieve_turn h fid f s with
  | Stop evs o => o = Returned -> released evs = expected_releases h s
  | Next evs ph' s' => turn_released h s evs s' /\ phase_ok ph' s'
  end.
Proof.
  intros Hfirst. unfold retrieve_turn.
  destruct (ybdec (sc_w2w s)) as [d |]; [| discriminate].
  destruct (YBdec_retrieve d (compr (sc_blk s)) (ipos s)
              (loaded (sc_blk s)) (ibitbuf s) (ibits_left s))
    as [[[[r d'] ipos'] ibitbuf'] ibits_left'].
  destruct r.
  - destruct f; cbn [negb andb].
    + match goal with
      | |- context [flush fid ?s1 false] =>
          pose proof (released_flush s1 false) as Hf;
          destruct (flush fid s1 false) as [ev idx]
      end.
      cbn [fst] in Hf. split; [| exact Hfirst].
      left. split; [exact Hf |]. split; reflexivity.
    + match goal with
      | |- context [if ?c then _ else _] => destruct c
      end.
      * intros _. unfold expected_releases. rewrite Hfirst.
        cbn [released sc_blk].
        match goal with
        | |- context [flush fid ?s1 true] =>
            pose proof (released_flush s1 true) as Hf
        end.
        cbn [released] in Hf.
        destruct (fst (flush fid _ true)); try discriminate Hf. reflexivity.
      * match goal with
        | |- context [flush fid ?s1 false] =>
            pose proof (released_flush s1 false) as Hf;
            destruct (flush fid s1 false) as [ev idx]
        end.
        cbn [fst] in Hf. split; [| exact Hfirst].
        left. split; [exact Hf |]. split; reflexivity.
  - destruct f.
    + cbn [sc_blk].
      destruct (loaded (sc_blk s) <? MX_SPLIT) eqn:El; [discriminate |].
      destruct (work_get_second h (sc_blk s)) as [c' |] eqn:Eg;
        [| discriminate].
      split; [| reflexivity]. right.
      cbn [on_second sc_blk first]. repeat split; try reflexivity; assumption.
    + discriminate.
  - split; [| exact I]. left. repeat split; reflexivity.
  - discriminate.
Qed.

Lemma magic_turn_released (m : magic_state) (s : scan_st) :
  match magic_turn h fid m s with
  | Stop evs o => o = Returned -> released evs = expected_releases h s
  | Next evs ph' s' => turn_released h s evs s' /\ phase_ok ph' s'
  end.
Proof.
  unfold magic_turn. pose proof (magic_refill_released s) as Hr.
  destruct (magic_refill h fid s) as [s1 buf64 evs | evs o]; [| exact Hr].
  assert (Hkeep : forall s2 : scan_st,
             sc_blk s2 = sc_blk s1 -> first s2 = first s1 ->
             turn_released h s evs s2).
  { intros s2 Hb Hf. destruct Hr as [[H1 [H2 H3]] | [H1 [H2 [H3 [H4 H5]]]]].
    - left. split; [exact H1 |]. split; congruence.
    - right. repeat split; try assumption; congruence. }
  destruct (magic_switch m _ (sc_w2w s1) _) as [[[m' b'] bits'] |];
    [| split; [apply Hkeep; reflexivity | exact I]].
  destruct (is_ACCEPT m'); [| split; [apply Hkeep; reflexivity | exact I]].
  cbn [first ibits_left ipos sc_blk].
  destruct (first s1) eqn:Ef1; cbn [negb andb].
  - match goal with
    | |- context [flush fid ?s2 false] =>
        pose proof (released_flush s2 false) as Hf;
        destruct (flush fid s2 false) as [ev idx]
    end.
    cbn [fst] in Hf. split; [| reflexivity].
    destruct (Hkeep s1 eq_refl Ef1)
      as [[H1 [H2 H3]] | [H1 [H2 [H3 [H4 H5]]]]].
    + left. rewrite released_app, H1, Hf. cbn [with_w2w sc_blk first].
      repeat split; congruence.
    + congruence.
  - match goal with
    | |- context [if ?c then _ else _] => destruct c
    end.
    + intros _. rewrite released_app. cbn [released].
      match goal with
      | |- context [flush fid ?s2 true] =>
          pose proof (released_flush s2 true) as Hf
      end.
      cbn [released] in Hf.
      destruct (fst (flush fid _ true)); try discriminate Hf.
      unfold expected_releases.
      destruct Hr as [[H1 [H2 H3]] | [H1 [H2 [H3 [H4 H5]]]]].
      * rewrite H1, <- H3, Ef1, H2. reflexivity.
      * rewrite H5, H1, H3, H4. reflexivity.
    + match goal with
      | |- context [flush fid ?s2 false] =>
          pose proof (released_flush s2 false) as Hf;
          destruct (flush fid s2 false) as [ev idx]
      end.
      cbn [fst] in Hf. split; [| reflexivity].
      destruct (Hkeep s1 eq_refl Ef1)
        as [[H1 [H2 H3]] | [H1 [H2 [H3 [H4 H5]]]]].
      * left. rewrite released_app, H1, Hf. cbn [with_w2w sc_blk first].
        repeat split; congruence.
      * right. rewrite released_app, H5, Hf. cbn [with_w2w sc_blk first].
        repeat split; try congruence; try assumption; reflexivity.
Qed.

Lemma step_released (ph : phase) (s : scan_st) :
  phase_ok ph s ->
  match work_retrieve_step h fid ph s with
  | Stop evs o => o = Returned -> released evs = expected_releases h s
  | Next evs ph' s' => turn_released h s evs s' /\ phase_ok ph' s'
  end.
Proof.
  intros Hph. destruct ph; cbn [work_retrieve_step phase_ok] in *.
  - apply retrieve_turn_released. exact Hph.
  - apply retrieve_turn_released. exact Hph.
  - apply magic_turn_released.
Qed.

Lemma work_retrieve_from_released (fuel : nat) :
  forall (ph : phase) (s : scan_st),
    phase_ok ph s ->
    snd (work_retrieve_from h fid fuel ph s) = Returned ->
    released (fst (work_retrieve_from h fid fuel ph s))
    = expected_releases h s.
Proof.
  induction fuel as [| fuel IH]; intros ph s Hph Hret;
    cbn [work_retrieve_from] in *; [discriminate Hret |].
  pose proof (step_released ph s Hph) as Hs.
  destruct (work_retrieve_step h fid ph s) as [evs o | evs ph' s'];
    cbn [fst snd] in *.
  - apply (Hs Hret).
  - destruct Hs as [Ht Hph']. rewrite released_app, (IH ph' s' Hph' Hret).
    destruct Ht as [[H1 [H2 H3]] | [H1 [H2 [H3 [H4 H5]]]]].
    + rewrite H1. apply (expected_releases_same _ _ H2 H3).
    + unfold expected_releases. rewrite H5, H1, H2, H3, H4. reflexivity.
Qed.

End Releases.

(** The references a scan that returns has dropped. *)
Lemma work_scan_released :
  forall (D : Type) (dec : YBdec D) (tab : scantab) (h : chunk_heap)
         (junk : Z) (fuel : nat) (c : s2w_blk),
    loaded c <= MX_SPLIT ->
    snd (work_scan h junk fuel c) = Returned ->
    released (fst (work_scan h junk fuel c))
    = c :: (if loaded c <? MX_SPLIT then []
            else match work_get_second h c with
                 | Some c' => [c']
                 | None => []
                 end).
Proof.
  intros D dec tab h junk fuel c Hld. unfold work_scan.
  assert (Hret : forall i b l,
             snd (work_retrieve h junk fuel c i b l) = Returned ->
             released (fst (work_retrieve h junk fuel c i b l))
             = c :: (if loaded c <? MX_SPLIT then []
                     else match work_get_second h c with
                          | Some c' => [c']
                          | None => []
                          end)).
  { intros i b l. unfold work_retrieve.
    destruct (1 =? s2w_id c); intros Hr;
      match goal with
      | |- context [work_retrieve_from h ?f fuel ?ph ?s] =>
          rewrite (work_retrieve_from_released h f fuel ph s)
      end; try reflexivity; try exact I; exact Hr. }
  destruct (1 <? s2w_id c); [| apply Hret].
  destruct (big_scan _ c 0 0) as [[[bt buf] st] ip].
  destruct (mini_scan 32 buf bt) as [st' bits].
  destruct (negb (st' =? scan_ACCEPT)); [| apply Hret].
  destruct (Z.eqb_spec MX_SPLIT (loaded c)) as [E | E]; cbn [fst snd];
    [discriminate |].
  intros _. destruct (Z.ltb_spec (loaded c) MX_SPLIT); [reflexivity | lia].
Qed.

(** X: a scan that returns has dropped one reference of the chunk it was
    given and, when that chunk is full and has a successor, one reference
    of the successor; it has dropped no other. *)
Theorem work_scan_releases :
  forall (D : Type) (dec : YBdec D) (tab : scantab) (h : chunk_heap)
         (junk : Z) (fuel : nat) (c : s2w_blk),
    loaded c <= MX_SPLIT ->
    snd (work_scan h junk fuel c) = Returned ->
    released (fst (work_scan h junk fuel c))
    = c :: (if loaded c <? MX_SPLIT then []
            else match work_get_second h c with
                 | Some c' => [c']
                 | None => []
                 end).
Proof.
  intros D dec tab h junk fuel c. apply work_scan_released.
Qed.

Lemma work_scan_releases_witness :
  released
    (fst (work_scan (dec := rejecting_decoder) (tab := sample_scantab)
            [zero_first_chunk] 0 8 zero_first_chunk))
  = [zero_first_chunk].
Proof.
  apply (work_scan_releases unit rejecting_decoder sample_scantab
           [zero_first_chunk] 0 8 zero_first_chunk).
  - vm_compute. discriminate.
  - vm_compute. reflexivity.
Defined.

(** ** The references of a chunk: given by the splitter, dropped by the scans *)






Section DroppedReferences.

Context {YBdec_t : Type} {dec : YBdec YBdec_t} {tab : scantab}.



End DroppedReferences.



(** ** The muxer: the stream check on a sub-block that is not the last *)

(** X: the muxer checks the stored stream CRC on every sub-block that
    carries a new bs100k, whether it is the last sub-block of its block or
    not.  On one that is not the last, the accumulator is compared as it
    stands, without the CRC of the block the sub-block belongs to; when
    they agree the accumulator is reset and the new bs100k taken over, and
    the sub-block is written. *)
Theorem mux_checks_stream_on_every_sub_block :
  forall (isz : Z) (st : mux_st) (b : w2m_blk),
    finished st = false ->
    last_decompr (w2m_id b) = false ->
    w2m_bs100k b <> 0 ->
    (mux_consume isz st b = Fatal StreamCrcMismatch <-> crc st <> w2m_crc b)
    /\ (crc st = w2m_crc b ->
        exists st',
          mux_consume isz st b = Ok st'
          /\ crc st' = 0
          /\ bs100k st' = w2m_bs100k b
          /\ finished st' = (9 <? w2m_bs100k b)
          /\ written st' = written st ++ payload b).
Proof.
  intros isz st b Hfin Hlast Hbs.
  assert (Hz : (w2m_bs100k b =? 0) = false) by (apply Z.eqb_neq; exact Hbs).
  unfold mux_consume, mux_emit, mux_block_end, mux_stream_end.
  rewrite Hfin, Hlast. cbn [bind]. rewrite Hz.
  destruct (Z.eqb_spec (crc st) (w2m_crc b)) as [Ec | Ec]; cbn [negb bind].
  - split; [split; [discriminate | contradiction] |].
    intros _. eexists. split; [reflexivity |].
    cbn [crc bs100k finished written].
    unfold mux_progress, mux_xwrite, payload.
    destruct (0 <? produced b); cbn [finished];
      destruct (9 <? w2m_bs100k b); cbn [crc bs100k finished written];
      rewrite ?Hlast; cbn [andb crc bs100k finished written];
      rewrite ?app_nil_r; repeat split; reflexivity.
  - split; [split; [intros _; exact Ec | reflexivity] |].
    intros Hx. contradiction.
Qed.

Lemma mux_checks_stream_on_every_sub_block_witness :
  mux_consume 16 mux_after_header first_slice_sub_block
  = Fatal StreamCrcMismatch.
Proof.
  apply (proj1 (mux_checks_stream_on_every_sub_block 16 mux_after_header
                  first_slice_sub_block eq_refl eq_refl
                  ltac:(vm_compute; discriminate))).
  vm_compute. discriminate.
Defined.

(** ** The magic machine: what it accepts *)

Section MagicWords.

Context {YBdec_t : Type} {dec : YBdec YBdec_t} {tab : scantab}.

Local Abbreviation w2w_blk := (w2w_blk YBdec_t).

Lemma magic_switch_accept (m : magic_state) (w bits bits' : Z)
    (b b' : w2w_blk) :
  magic_switch m w b bits = Some (ACCEPT, b', bits') ->
  m = BLOCK_MAGIC_3 /\ w = 21337 /\ b' = b /\ bits' = bits.
Proof.
  destruct m; cbn [magic_switch];
    repeat match goal with
      | |- context [if ?c then _ else _] => destruct c eqn:?
      end;
    intros H; try discriminate H.
  injection H as <- <-.
  repeat split. apply Z.eqb_eq. assumption.
Qed.

Lemma magic_switch_to (m m' : magic_state) (w bits bits' : Z)
    (b b' : w2w_blk) :
  magic_switch m w b bits = Some (m', b', bits') ->
  (m' = BLOCK_MAGIC_3 -> m = BLOCK_MAGIC_2 /\ w = 22822 /\ b' = b
                         /\ bits' = bits)
  /\ (m' = BLOCK_MAGIC_2 -> m = BLOCK_MAGIC_1 /\ w = 12609 /\ b' = b
                            /\ bits' = bits).
Proof.
  destruct m; cbn [magic_switch];
    repeat match goal with
      | |- context [if ?c then _ else _] => destruct c eqn:?
      end;
    intros H; try discriminate H; injection H as <- <- <-;
    split; intros Hm; try discriminate Hm;
    repeat split; apply Z.eqb_eq; assumption.
Qed.

End MagicWords.

Lemma stream_digit_land (d : Z) :
  0 <= d < 16 -> Z.land (26672 + d) 15 = d.
Proof.
  intros Hd. change 15 with (Z.ones 4). rewrite Z.land_ones by lia.
  change (2 ^ 4) with 16. replace (26672 + d) with (d + 1667 * 16) by lia.
  rewrite Z.mod_add by lia. apply Z.mod_small. lia.
Qed.

(** X: the magic machine reaches ACCEPT on the 48-bit block header
    0x314159265359 and on nothing else: three words take it to ACCEPT
    exactly when it stood in BLOCK_MAGIC_1 and the words are those of
    [magic_hdr], and they leave the block and the bit count alone.  After
    "BZ" and "h" with a digit from 1 to 9 it stands in BLOCK_MAGIC_1 with
    the digit as the new bs100k, any other digit makes it break out; and
    the end of stream marker followed by a zero CRC, which is an empty
    stream, brings it back to where a stream header is expected. *)
Theorem magic_machine_accepts_block_header :
  forall (D : Type) (m : magic_state) (b : w2w_blk D) (bits : Z),
    (forall w1 w2 w3 b' bits',
        magic_feed m [w1; w2; w3] b bits = Some (ACCEPT, b', bits')
        <-> m = BLOCK_MAGIC_1 /\ [w1; w2; w3] = words48 magic_hdr
            /\ b' = b /\ bits' = bits)
    /\ (forall d,
          magic_feed STREAM_MAGIC_1 [16986; 26672 + d] b bits
          = if (1 <=? d) && (d <=? 9)
            then Some (BLOCK_MAGIC_1, set_bs100k b d, bits)
            else None)
    /\ magic_feed BLOCK_MAGIC_1 (words48 magic_eos ++ [0; 0]) b bits
       = Some (STREAM_MAGIC_1, b, bits).
Proof.
  intros D m b bits. split; [| split].
  - intros w1 w2 w3 b' bits'. split.
    + cbn [magic_feed]. intros H.
      destruct (magic_switch m w1 b bits) as [[[m1 b1] x1] |] eqn:E1;
        [| discriminate H].
      destruct (magic_switch m1 w2 b1 x1) as [[[m2 b2] x2] |] eqn:E2;
        [| discriminate H].
      destruct (magic_switch m2 w3 b2 x2) as [[[m3 b3] x3] |] eqn:E3;
        [| discriminate H].
      injection H as -> -> ->.
      destruct (magic_switch_accept _ _ _ _ _ _ E3) as [-> [-> [-> ->]]].
      destruct (proj1 (magic_switch_to _ _ _ _ _ _ _ E2) eq_refl)
        as [-> [-> [-> ->]]].
      destruct (proj2 (magic_switch_to _ _ _ _ _ _ _ E1) eq_refl)
        as [-> [-> [-> ->]]].
      repeat split; reflexivity.
    + intros [-> [Hw [-> ->]]]. injection Hw as -> -> ->. reflexivity.
  - intros d. cbn [magic_feed magic_switch]. cbn [Z.eqb Pos.eqb].
    cbn [magic_switch].
    destruct (Z.leb_spec 1 d) as [H1 | H1];
      destruct (Z.leb_spec d 9) as [H9 | H9]; cbn [andb];
      destruct (Z.ltb_spec 26681 (26672 + d));
      destruct (Z.ltb_spec (26672 + d) 26673); cbn [orb]; try lia;
      try reflexivity.
    rewrite stream_digit_land by lia. reflexivity.
  - reflexivity.
Qed.

(** ** The scanner: the errors it dies of *)

Section ScanErrors.

Context {YBdec_t : Type} {dec : YBdec YBdec_t} {tab : scantab}.

Variable h : chunk_heap.
Variable fid : Z.

Local Abbreviation scan_st := (@scan_st YBdec_t).
Local Abbreviation event := (@event YBdec_t).







End ScanErrors.



(** ** The reordering queue: sub-blocks pushed in any order *)

Lemma w2m_blk_cmp_le_trans (x y z : w2m_blk) :
  w2m_blk_cmp x y <= 0 -> w2m_blk_cmp y z <= 0 -> w2m_blk_cmp x z <= 0.
Proof.
  unfold w2m_blk_cmp. cbv zeta. intros H1 H2.
  cmp_cases; lia.
Qed.

Lemma w2m_blk_cmp_ge_le (x y : w2m_blk) :
  (w2m_blk_cmp x y <? 0) = false -> w2m_blk_cmp y x <= 0.
Proof.
  unfold w2m_blk_cmp. cbv zeta. intros H.
  cmp_cases; try lia; discriminate.
Qed.

Lemma w2m_blk_cmp_lt_le (x y : w2m_blk) :
  (w2m_blk_cmp x y <? 0) = true -> w2m_blk_cmp x y <= 0.
Proof. intros H. apply Z.ltb_lt in H. lia. Qed.

Lemma w2m_blk_cmp_lt_not_ge (x y : w2m_blk) :
  w2m_blk_cmp x y = -1 -> w2m_blk_cmp y x <= 0 -> False.
Proof.
  unfold w2m_blk_cmp. cbv zeta. intros H1 H2.
  cmp_cases; try lia; discriminate.
Qed.

Lemma pqueue_insert_perm {A : Type} (cmp : A -> A -> Z) (q : list A) (x : A) :
  Permutation (pqueue_insert cmp q x) (x :: q).
Proof.
  induction q as [| y q IH]; cbn [pqueue_insert]; [apply Permutation_refl |].
  destruct (cmp x y <? 0); [apply Permutation_refl |].
  apply (Permutation_trans (perm_skip y IH)). apply perm_swap.
Qed.

Lemma pqueue_insert_sorted (q : list w2m_blk) (x : w2m_blk) :
  StronglySorted (fun a b => w2m_blk_cmp a b <= 0) q ->
  StronglySorted (fun a b => w2m_blk_cmp a b <= 0)
    (pqueue_insert w2m_blk_cmp q x).
Proof.
  induction q as [| y q IH]; intros Hs; cbn [pqueue_insert].
  - apply SSorted_cons; [apply SSorted_nil | apply Forall_nil].
  - apply StronglySorted_inv in Hs as [Hq Hy].
    destruct (w2m_blk_cmp x y <? 0) eqn:E.
    + apply SSorted_cons.
      * apply SSorted_cons; assumption.
      * apply Forall_cons; [apply w2m_blk_cmp_lt_le; exact E |].
        apply (Forall_impl _ (fun z Hz =>
                 w2m_blk_cmp_le_trans x y z (w2m_blk_cmp_lt_le x y E) Hz) Hy).
    + apply SSorted_cons; [apply IH; exact Hq |].
      apply (Permutation_Forall (Permutation_sym (pqueue_insert_perm _ q x))).
      apply Forall_cons; [apply w2m_blk_cmp_ge_le; exact E | exact Hy].
Qed.

Lemma mux_merge_sorted (fetched : list w2m_blk) :
  forall q,
    StronglySorted (fun a b => w2m_blk_cmp a b <= 0) q ->
    StronglySorted (fun a b => w2m_blk_cmp a b <= 0)
      (fold_left (pqueue_insert w2m_blk_cmp) fetched q)
    /\ Permutation (fold_left (pqueue_insert w2m_blk_cmp) fetched q)
         (fetched ++ q).
Proof.
  induction fetched as [| x fetched IH]; intros q Hq; cbn [fold_left app].
  - split; [exact Hq | apply Permutation_refl].
  - destruct (IH _ (pqueue_insert_sorted q x Hq)) as [Hs Hp].
    split; [exact Hs |].
    apply (Permutation_trans Hp).
    apply (Permutation_trans
             (Permutation_app_head fetched (pqueue_insert_perm _ q x))).
    apply Permutation_sym, Permutation_middle.
Qed.

(** A list in ascending order is the only such arrangement of its
    elements, when these are all different under the order. *)
Lemma sorted_unique (l2 : list w2m_blk) :
  forall l1,
    StronglySorted (fun a b => w2m_blk_cmp a b <= 0) l1 ->
    StronglySorted (fun a b => w2m_blk_cmp a b = -1) l2 ->
    Permutation l1 l2 ->
    l1 = l2.
Proof.
  induction l2 as [| x l2 IH]; intros l1 H1 H2 Hp.
  - apply Permutation_sym, Permutation_nil in Hp. exact Hp.
  - destruct l1 as [| a l1];
      [apply Permutation_nil in Hp; discriminate Hp |].
    apply StronglySorted_inv in H1 as [H1 Ha].
    apply StronglySorted_inv in H2 as [H2 Hx].
    assert (Eax : a = x).
    { assert (Hin : In a (x :: l2))
        by (apply (Permutation_in _ Hp); left; reflexivity).
      destruct Hin as [E | Hin]; [symmetry; exact E |].
      assert (Hin' : In x (a :: l1))
        by (apply (Permutation_in _ (Permutation_sym Hp)); left; reflexivity).
      destruct Hin' as [E | Hin']; [exact E |].
      exfalso. rewrite Forall_forall in Ha, Hx.
      apply (w2m_blk_cmp_lt_not_ge x a (Hx a Hin) (Ha x Hin')). }
    subst a. f_equal. apply (IH l1 H1 H2).
    apply (Permutation_cons_inv Hp).
Qed.

(** Sub-blocks of one block numbered upwards from [k] are in strictly
    ascending order. *)
Lemma numbered_sorted (id : w2w_blk_id) (l : list w2m_blk) :
  forall k : Z,
    0 <= k ->
    k + Z.of_nat (length l) <= 2 ^ 64 ->
    (forall i sb,
        nth_error l i = Some sb ->
        w2w_id_of (w2m_id sb) = id
        /\ decompr_blk_id (w2m_id sb) = uintmax (k + Z.of_nat i)) ->
    StronglySorted (fun a b => w2m_blk_cmp a b = -1) l.
Proof.
  induction l as [| x l IH]; intros k Hk Hlen Hn; [apply SSorted_nil |].
  cbn [length] in Hlen.
  apply SSorted_cons.
  - apply (IH (k + 1)); [lia | lia |].
    intros i sb Hi. destruct (Hn (S i) sb Hi) as [H1 H2].
    split; [exact H1 |]. rewrite H2. f_equal. lia.
  - apply Forall_forall. intros y Hy. apply In_nth_error in Hy as [i Hi].
    assert (Hlt : (i < length l)%nat) by (apply nth_error_Some; congruence).
    destruct (Hn 0%nat x eq_refl) as [Hx1 Hx2].
    destruct (Hn (S i) y Hi) as [Hy1 Hy2].
    rewrite uintmax_small in Hx2, Hy2 by lia.
    unfold w2m_blk_cmp. cbv zeta. rewrite Hx1, Hy1, Hx2, Hy2.
    cmp_cases; try lia; reflexivity.
Qed.

(** The inner loop of the muxer on a queue whose sub-blocks are asked for
    one after the other: it pops them all. *)
Lemma mux_drain_from_all (isz : Z) (q : list w2m_blk) :
  forall (st st' : mux_st) (r : list w2m_blk),
    in_needed_order (reord_needed st) q = true ->
    reord st = q ++ r ->
    (forall b, hd_error r = Some b ->
               w2m_blk_id_eq (w2m_id b)
                 (needed_after (reord_needed st) q) = false) ->
    mux_drain_from isz (q ++ r) st = Ok st' ->
    consumed st' = rev q ++ consumed st
    /\ reord st' = r
    /\ reord_needed st' = needed_after (reord_needed st) q.
Proof.
  induction q as [| b q IH]; intros st st' r Ho Hr Hnext Hd.
  - cbn [app in_needed_order needed_after fold_left rev] in *.
    destruct r as [| b r]; cbn [mux_drain_from] in Hd.
    + injection Hd as <-. repeat split; assumption.
    + rewrite (Hnext b eq_refl) in Hd. injection Hd as <-.
      repeat split; assumption.
  - cbn [in_needed_order] in Ho. apply andb_prop in Ho as [Hb Ho].
    cbn [app mux_drain_from] in Hd. rewrite Hb in Hd.
    destruct (mux_consume isz st b) as [st1 | e] eqn:Ec; cbn [bind] in Hd;
      [| discriminate Hd].
    destruct (mux_consume_effect _ _ _ _ Ec)
      as [st0 [_ [_ [_ [Hc [Hre Hn]]]]]].
    rewrite Hr in Hre. cbn [app pqueue_pop tl] in Hre.
    unfold needed_after in *. cbn [fold_left] in *. rewrite <- Hn in *.
    destruct (IH st1 st' r Ho Hre Hnext Hd) as [H1 [H2 H3]].
    split; [| split; assumption].
    rewrite H1, Hc. cbn [rev]. rewrite <- app_assoc. reflexivity.
Qed.

(** The identities of the sub-blocks of a call of [work_decompr] that
    returned. *)
Lemma work_decompr_returned {D : Type} {dec : YBdec D} (fuel : nat)
    (b : w2w_blk D) (sbs : list w2m_blk) :
  work_decompr fuel b = (sbs, Returned) ->
  forall i sb,
    nth_error sbs i = Some sb ->
    w2m_id sb
    = mk_w2m_blk_id (w2w_id b) (uintmax (0 + Z.of_nat i))
        (Nat.eqb (S i) (length sbs)).
Proof.
  intros H. unfold work_decompr in H.
  destruct (ybdec b) as [d |].
  - destruct (YBdec_work d) as [[r d'] bs].
    destruct r; try (apply pair_equal_spec in H as [_ H]; discriminate H).
    destruct (work_emit_numbers fuel b d' bs 0 sbs Returned eq_refl H)
      as [Hn _].
    intros i sb Hi. apply (Hn i sb Hi).
  - apply pair_equal_spec in H as [<- _].
    intros [| i] sb Hi; [| destruct i; discriminate Hi].
    cbn [nth_error] in Hi. injection Hi as <-. reflexivity.
Qed.

(** Sub-blocks numbered upwards from [j], the last of them flagged, are
    asked for one after the other from the triple (c, k, j) on, and take
    the triple to the next block, or to the next chunk. *)
Lemma numbered_in_needed_order (id : w2w_blk_id) (l : list w2m_blk) :
  forall j : Z,
    uintmax j = j ->
    l <> [] ->
    (forall i sb,
        nth_error l i = Some sb ->
        w2m_id sb
        = mk_w2m_blk_id id (uintmax (j + Z.of_nat i))
            (Nat.eqb (S i) (length l))) ->
    in_needed_order
      (mk_w2m_blk_nid (s2w_blk_id id) (bzip2_blk_id id) j) l = true
    /\ needed_after (mk_w2m_blk_nid (s2w_blk_id id) (bzip2_blk_id id) j) l
       = (if last_bzip2 id
          then mk_w2m_blk_nid (uintmax (s2w_blk_id id + 1)) 0 0
          else mk_w2m_blk_nid (s2w_blk_id id)
                 (uintmax (bzip2_blk_id id + 1)) 0).
Proof.
  induction l as [| x l IH]; intros j Hj Hne Hn; [contradiction |].
  pose proof (Hn 0%nat x eq_refl) as Hx.
  rewrite Z.add_0_r, Hj in Hx. cbn [length] in Hx.
  unfold needed_after. cbn [in_needed_order fold_left].
  unfold w2m_blk_id_eq, mux_next_needed. rewrite Hx.
  cbn [w2w_id_of s2w_blk_id bzip2_blk_id decompr_blk_id last_decompr
       nid_s2w_blk_id nid_bzip2_blk_id nid_decompr_blk_id].
  rewrite !Z.eqb_refl. cbn [andb].
  destruct l as [| y l].
  - cbn [length Nat.eqb in_needed_order fold_left].
    split; [reflexivity |]. destruct (last_bzip2 id); reflexivity.
  - cbn [length Nat.eqb].
    apply (IH (uintmax (j + 1)) (uintmax_idem _)); [discriminate |].
    intros i sb Hi. rewrite (Hn (S i) sb Hi). cbn [length Nat.eqb].
    f_equal. symmetry. apply uintmax_succ.
Qed.

(** X: the sub-blocks of one block, fetched by the muxer in whatever order
    they were pushed, are consumed in the order work_decompr made them.
    When the muxer waits for the first sub-block of the block and its queue
    is empty, one turn of merging and draining that does not die consumes
    them all, oldest first, leaves the queue empty and makes the muxer wait
    for the first sub-block of the next block of the chunk, or of the next
    chunk when the block was flagged as the last of its chunk. *)
Theorem mux_reorders_sub_blocks :
  forall (D : Type) (dec : YBdec D) (isz : Z) (fuel : nat) (b : w2w_blk D)
         (sbs fetched : list w2m_blk) (st st' : mux_st),
    work_decompr fuel b = (sbs, Returned) ->
    Z.of_nat (length sbs) <= 2 ^ 64 ->
    Permutation fetched sbs ->
    reord st = [] ->
    reord_needed st
    = mk_w2m_blk_nid (s2w_blk_id (w2w_id b)) (bzip2_blk_id (w2w_id b)) 0 ->
    mux_drain isz (mux_merge st fetched) = Ok st' ->
    consumed st' = rev sbs ++ consumed st
    /\ reord st' = []
    /\ reord_needed st'
       = (if last_bzip2 (w2w_id b)
          then mk_w2m_blk_nid (uintmax (s2w_blk_id (w2w_id b) + 1)) 0 0
          else mk_w2m_blk_nid (s2w_blk_id (w2w_id b))
                 (uintmax (bzip2_blk_id (w2w_id b) + 1)) 0).
Proof.
  intros D dec isz fuel b sbs fetched st st' Hw Hlen Hperm Hre Hneed Hd.
  pose proof (work_decompr_returned fuel b sbs Hw) as Hids.
  assert (Hne : sbs <> []).
  { unfold work_decompr in Hw. destruct (ybdec b) as [d |].
    - destruct (YBdec_work d) as [[r d'] bs].
      destruct r; try (apply pair_equal_spec in Hw as [_ Hw]; discriminate Hw).
      destruct (work_emit_numbers fuel b d' bs 0 sbs Returned eq_refl Hw)
        as [_ [Hr _]].
      apply Hr. reflexivity.
    - apply pair_equal_spec in Hw as [<- _]. discriminate. }
  assert (Hsorted : StronglySorted (fun x y => w2m_blk_cmp x y = -1) sbs).
  { apply (numbered_sorted (w2w_id b) sbs 0); [lia | lia |].
    intros i sb Hi. rewrite (Hids i sb Hi). split; reflexivity. }
  destruct (mux_merge_sorted fetched [] (SSorted_nil _)) as [Hs Hp].
  rewrite app_nil_r in Hp.
  pose proof (sorted_unique sbs _ Hs Hsorted (Permutation_trans Hp Hperm))
    as Hq.
  unfold mux_drain in Hd.
  assert (Hm : reord (mux_merge st fetched) = sbs ++ []).
  { unfold mux_merge. cbn [reord]. rewrite Hre, Hq, app_nil_r.
    reflexivity. }
  rewrite Hm in Hd.
  destruct (numbered_in_needed_order (w2w_id b) sbs 0 eq_refl Hne Hids)
    as [Ho Hn].
  assert (Hneed' : reord_needed (mux_merge st fetched)
                   = mk_w2m_blk_nid (s2w_blk_id (w2w_id b))
                       (bzip2_blk_id (w2w_id b)) 0) by exact Hneed.
  destruct (mux_drain_from_all isz sbs (mux_merge st fetched) st' [])
    as [H1 [H2 H3]].
  - rewrite Hneed'. exact Ho.
  - exact Hm.
  - intros b0 Hb0. discriminate Hb0.
  - exact Hd.
  - split; [exact H1 |]. split; [exact H2 |].
    rewrite H3, Hneed'. exact Hn.
Qed.

Lemma mux_reorders_sub_blocks_witness :
  exists st',
    mux_drain 16 (mux_merge mux_after_header shuffled_slices) = Ok st'
    /\ consumed st' = rev slices ++ consumed mux_after_header
    /\ reord st' = []
    /\ reord_needed st' = mk_w2m_blk_nid 2 0 0.
Proof.
  destruct (mux_drain 16 (mux_merge mux_after_header shuffled_slices))
    as [st' | e] eqn:E; [| vm_compute in E; discriminate E].
  exists st'. split; [reflexivity |].
  apply (mux_reorders_sub_blocks nat slicing_decoder 16 3 sliced_block
           slices shuffled_slices mux_after_header st').
  - vm_compute. reflexivity.
  - vm_compute. discriminate.
  - apply (perm_trans (perm_swap _ _ _)). apply perm_skip. apply perm_swap.
  - reflexivity.
  - reflexivity.
  - exact E.
Defined.

(** ** The muxer: the CRC of a stream *)

(** Writing and metering leave the rest of the muxer's locals alone. *)
Lemma mux_progress_xwrite_frame (isz : Z) (st : mux_st) (b : w2m_blk) :
  crc (mux_progress isz (mux_xwrite st b) b) = crc st
  /\ bs100k (mux_progress isz (mux_xwrite st b) b) = bs100k st
  /\ finished (mux_progress isz (mux_xwrite st b) b) = finished st
  /\ reord_needed (mux_progress isz (mux_xwrite st b) b) = reord_needed st.
Proof.
  unfold mux_progress, mux_xwrite.
  destruct (0 <? produced b); cbn [finished last_offs];
    destruct (finished st) eqn:Ef;
    try destruct (last_decompr (w2m_id b) && (last_offs st <? w2m_end_offs b));
    cbn [crc bs100k finished reord_needed]; rewrite ?Ef;
    repeat split; reflexivity.
Qed.

(** A sub-block inside a stream: it is consumed, and changes the
    accumulator only when it ends its block. *)
Lemma mux_consume_inside_stream (isz : Z) (st : mux_st) (x : w2m_blk) :
  finished st = false ->
  w2m_bs100k x = 0 ->
  (last_decompr (w2m_id x) = true -> bs100k1 x <= bs100k st) ->
  exists st',
    mux_consume isz st x = Ok st'
    /\ crc st' = stream_crc (crc st) [x]
    /\ bs100k st' = bs100k st
    /\ finished st' = false
    /\ reord_needed st' = mux_next_needed (reord_needed st) (w2m_id x).
Proof.
  intros Hfin Hbs Hsz.
  unfold mux_consume, mux_emit, mux_block_end, mux_stream_end, stream_crc.
  rewrite Hfin, Hbs. cbn [fold_left].
  destruct (last_decompr (w2m_id x)) eqn:El.
  - replace (bs100k st <? bs100k1 x) with false
      by (symmetry; apply Z.ltb_ge; apply Hsz; reflexivity).
    cbn [bind Z.eqb]. eexists. split; [reflexivity |].
    cbn [crc bs100k finished reord_needed].
    match goal with
    | |- context [mux_progress isz (mux_xwrite ?s x) x] =>
        destruct (mux_progress_xwrite_frame isz s x) as [H1 [H2 [H3 H4]]]
    end.
    rewrite H1, H2, H3, H4. cbn [crc bs100k finished reord_needed].
    repeat split; try reflexivity; exact Hfin.
  - cbn [bind Z.eqb]. eexists. split; [reflexivity |].
    cbn [crc bs100k finished reord_needed].
    destruct (mux_progress_xwrite_frame isz st x) as [H1 [H2 [H3 H4]]].
    rewrite H1, H2, H3, H4.
    repeat split; try reflexivity; exact Hfin.
Qed.

(** The sub-block that ends a block and a stream. *)
Lemma mux_consume_stream_end (isz : Z) (st : mux_st) (b : w2m_blk) :
  finished st = false ->
  last_decompr (w2m_id b) = true ->
  w2m_bs100k b <> 0 ->
  bs100k1 b <= bs100k st ->
  (mux_consume isz st b = Fatal StreamCrcMismatch
   <-> crc_fold (crc st) (crc1 b) <> w2m_crc b)
  /\ (crc_fold (crc st) (crc1 b) = w2m_crc b ->
      exists st',
        mux_consume isz st b = Ok st'
        /\ crc st' = 0
        /\ bs100k st' = w2m_bs100k b).
Proof.
  intros Hfin Hlast Hbs Hsz.
  assert (Hz : (w2m_bs100k b =? 0) = false) by (apply Z.eqb_neq; exact Hbs).
  unfold mux_consume, mux_emit, mux_block_end, mux_stream_end.
  rewrite Hfin, Hlast.
  replace (bs100k st <? bs100k1 b) with false
    by (symmetry; apply Z.ltb_ge; exact Hsz).
  cbn [bind crc]. rewrite Hz.
  destruct (Z.eqb_spec (crc_fold (crc st) (crc1 b)) (w2m_crc b)) as [Ec | Ec];
    cbn [negb bind].
  - split; [split; [discriminate | contradiction] |].
    intros _. eexists. split; [reflexivity |].
    cbn [crc bs100k].
    match goal with
    | |- context [mux_progress isz (mux_xwrite ?s b) b] =>
        destruct (mux_progress_xwrite_frame isz s b) as [H1 [H2 _]]
    end.
    rewrite H1, H2. split; reflexivity.
  - split; [split; [intros _; exact Ec | reflexivity] |].
    intros Hx. contradiction.
Qed.

Lemma stream_crc_cons (c : Z) (x : w2m_blk) (q : list w2m_blk) :
  stream_crc c (x :: q) = stream_crc (stream_crc c [x]) q.
Proof. reflexivity. Qed.

(** X: the muxer accepts a stream exactly when the CRC stored at its end
    is the combination of the CRCs of its blocks.  For sub-blocks consumed
    in order that carry no new bs100k, followed by the last sub-block of a
    block that carries one, and when no block is larger than the stream's
    block size: the muxer dies of a stream CRC mismatch if and only if the
    stored CRC differs from the block CRCs folded in order, one per block,
    into what the accumulator held; if they agree it consumes all of them,
    resets the accumulator and takes over the new bs100k. *)
Theorem mux_stream_crc :
  forall (isz : Z) (q : list w2m_blk) (b : w2m_blk) (st : mux_st),
    finished st = false ->
    in_needed_order (reord_needed st) (q ++ [b]) = true ->
    (forall x, In x q -> w2m_bs100k x = 0) ->
    (forall x, In x (q ++ [b]) -> last_decompr (w2m_id x) = true ->
               bs100k1 x <= bs100k st) ->
    last_decompr (w2m_id b) = true ->
    w2m_bs100k b <> 0 ->
    (mux_drain_from isz (q ++ [b]) st = Fatal StreamCrcMismatch
     <-> stream_crc (crc st) (q ++ [b]) <> w2m_crc b)
    /\ (stream_crc (crc st) (q ++ [b]) = w2m_crc b ->
        exists st',
          mux_drain_from isz (q ++ [b]) st = Ok st'
          /\ crc st' = 0
          /\ bs100k st' = w2m_bs100k b).
Proof.
  intros isz q b. induction q as [| x q IH];
    intros st Hfin Hord Hin Hsz Hlast Hbs.
  - cbn [app] in *. cbn [in_needed_order] in Hord.
    apply andb_prop in Hord as [Hid _].
    cbn [mux_drain_from]. rewrite Hid.
    unfold stream_crc. cbn [fold_left]. rewrite Hlast.
    destruct (mux_consume_stream_end isz st b Hfin Hlast Hbs
                (Hsz b (or_introl eq_refl) Hlast)) as [Hiff Hok].
    split.
    + rewrite <- Hiff.
      destruct (mux_consume isz st b) as [s | e]; cbn [bind mux_drain_from];
        split; intros H; try discriminate H; exact H.
    + intros Hc. destruct (Hok Hc) as [st' [E [H1 H2]]].
      exists st'. rewrite E. cbn [bind mux_drain_from].
      repeat split; assumption.
  - cbn [app] in *. cbn [in_needed_order] in Hord.
    apply andb_prop in Hord as [Hid Hord].
    cbn [mux_drain_from]. rewrite Hid.
    destruct (mux_consume_inside_stream isz st x Hfin
                (Hin x (or_introl eq_refl))
                (Hsz x (or_introl eq_refl)))
      as [st1 [E [Hc [Hb [Hf Hn]]]]].
    rewrite E. cbn [bind]. rewrite stream_crc_cons, <- Hc.
    apply IH.
    + exact Hf.
    + rewrite Hn. exact Hord.
    + intros y Hy. apply Hin. right. exact Hy.
    + intros y Hy Hl. rewrite Hb. apply Hsz; [right; exact Hy | exact Hl].
    + exact Hlast.
    + exact Hbs.
Qed.

Lemma mux_stream_crc_witness :
  exists st',
    mux_drain_from 16 (slices ++ [closing_sub_block]) mux_after_header
    = Ok st'
    /\ crc st' = 0
    /\ bs100k st' = w2m_bs100k closing_sub_block.
Proof.
  apply (proj2 (mux_stream_crc 16 slices closing_sub_block mux_after_header
                  eq_refl eq_refl
                  ltac:(intros x [<- | [<- | [<- | []]]]; reflexivity)
                  ltac:(intros x [<- | [<- | [<- | [<- | []]]]] _;
                        vm_compute; discriminate)
                  eq_refl ltac:(vm_compute; discriminate))).
  vm_compute. reflexivity.
Defined.
